(** * SPAC [data_utils]: a shallow embedding of the tabular pipeline

    The module [spac.data_utils] is a set of transformations over pandas
    data frames and AnnData matrices.  This development embeds the frames
    column by column, as pandas stores them, and the functions of
    [data_utils.py] over that representation.

    Conventions of the embedding:
    - a Python exception is a value [Raise e] of the type [result];
    - float64 cells of feature matrices are rationals ([Q]): rounding,
      infinities and missing numeric entries are outside the model of
      these cells; where rounding decides a result (the shares of
      [downsample_cells], the upper bound of the min-max scaling), the
      arithmetic is the binary64 arithmetic of [SpecFloat];
    - objects that the code mutates in place live in a [heap] of frames
      addressed by references, so that aliasing is visible. *)

From Stdlib Require Import ZArith QArith Qround Qminmax String Ascii List Lia.
From Stdlib Require Import DecimalString DecimalPos DecimalZ SpecFloat.
From stdpp Require Import base list sorting gmap strings.

Local Open Scope Z_scope.

(** * Part I: definitions *)

(** ** Exceptions *)

Inductive error :=
  | ValueError
  | TypeError
  | KeyError
  | FileNotFoundError
  | PermissionError.

Inductive result (A : Type) :=
  | Ok (a : A)
  | Raise (e : error).
Arguments Ok {A} a.
Arguments Raise {A} e.

#[global] Instance result_ret : MRet result := @Ok.
#[global] Instance result_bind : MBind result :=
  fun A B k r => match r with Ok a => k a | Raise e => Raise e end.

#[global] Instance error_eq_dec : EqDecision error.
Proof. solve_decision. Defined.

(** ** Cells, labels and columns *)

(** A cell of a general-purpose table: an integer, a string, a boolean or
    the missing-value marker ([np.nan]). *)
Inductive value :=
  | VInt (z : Z)
  | VStr (s : string)
  | VBool (b : bool)
  | VNaN.

#[global] Instance value_eq_dec : EqDecision value.
Proof. solve_decision. Defined.

(** A row label: a position of a [RangeIndex] or a name. *)
Inductive label :=
  | Pos (n : nat)
  | Name (s : string).

#[global] Instance label_eq_dec : EqDecision label.
Proof. solve_decision. Defined.

Definition range_index (n : nat) : list label := Pos <$> seq 0 n.

Inductive dtype := Int64 | Bool | Object.

#[global] Instance dtype_eq_dec : EqDecision dtype.
Proof. solve_decision. Defined.

(** A column is a typed array: its constructor is its dtype. *)
Inductive column :=
  | IntCol (l : list Z)
  | BoolCol (l : list bool)
  | ObjCol (l : list value).

Definition col_dtype (c : column) : dtype :=
  match c with
  | IntCol _ => Int64
  | BoolCol _ => Bool
  | ObjCol _ => Object
  end.

Definition cells (c : column) : list value :=
  match c with
  | IntCol l => VInt <$> l
  | BoolCol l => VBool <$> l
  | ObjCol l => l
  end.

(** ** Row selection on lists *)

(** [keep m l]: boolean-mask indexing, the elements of [l] whose mask bit
    is set. *)
Fixpoint keep {A : Type} (m : list bool) (l : list A) : list A :=
  match m, l with
  | b :: m', x :: l' => if b then x :: keep m' l' else keep m' l'
  | _, _ => []
  end.

(** [pick l ps]: positional indexing ([iloc]) by a list of positions. *)
Definition pick {A : Type} (l : list A) (ps : list nat) : list A :=
  omap (fun p => l !! p) ps.

Definition col_keep (m : list bool) (c : column) : column :=
  match c with
  | IntCol l => IntCol (keep m l)
  | BoolCol l => BoolCol (keep m l)
  | ObjCol l => ObjCol (keep m l)
  end.

Definition col_take (k : nat) (c : column) : column :=
  match c with
  | IntCol l => IntCol (take k l)
  | BoolCol l => BoolCol (take k l)
  | ObjCol l => ObjCol (take k l)
  end.

Definition col_pick (ps : list nat) (c : column) : column :=
  match c with
  | IntCol l => IntCol (pick l ps)
  | BoolCol l => BoolCol (pick l ps)
  | ObjCol l => ObjCol (pick l ps)
  end.

(** Stacking two columns: the dtype is kept when both agree, otherwise
    the result is an object column. *)
Definition col_concat (c1 c2 : column) : column :=
  match c1, c2 with
  | IntCol l1, IntCol l2 => IntCol (l1 ++ l2)
  | BoolCol l1, BoolCol l2 => BoolCol (l1 ++ l2)
  | _, _ => ObjCol (cells c1 ++ cells c2)
  end.

(** A scalar broadcast to [n] rows. *)
Definition col_full (n : nat) (v : value) : column :=
  match v with
  | VInt z => IntCol (replicate n z)
  | VBool b => BoolCol (replicate n b)
  | _ => ObjCol (replicate n v)
  end.

(** ** Data frames *)

(** A frame is an index (one label per row) and named columns, in
    order.  [C] is the type of a column: [column] for general tables,
    [list Q] for feature matrices. *)
Record DataFrame (C : Type) := mkDF {
  index : list label;
  columns : list (string * C)
}.
Arguments mkDF {C} index columns.
Arguments index {C} d.
Arguments columns {C} d.

Definition Table := DataFrame column.

Section frames.
Context {C : Type}.

(** [data.columns] *)
Definition names (df : DataFrame C) : list string := (columns df).*1.

(** [len(data)] *)
Definition nrows (df : DataFrame C) : nat := length (index df).

(** [data.empty]: some axis has length zero. *)
Definition empty (df : DataFrame C) : bool :=
  bool_decide (index df = []) || bool_decide (columns df = []).

(** [data[name]]: the first column of that name. *)
Fixpoint lookup_col (name : string) (cs : list (string * C)) : option C :=
  match cs with
  | [] => None
  | (n, c) :: cs' => if decide (n = name) then Some c else lookup_col name cs'
  end.

Definition get_col (name : string) (df : DataFrame C) : option C :=
  lookup_col name (columns df).

(** Applies a row operation to the index and to every column. *)
Definition map_rows (fi : list label -> list label) (fc : C -> C)
    (df : DataFrame C) : DataFrame C :=
  mkDF (fi (index df)) (prod_map id fc <$> columns df).

(** [data.reset_index(drop=True)] *)
Definition reset_index (df : DataFrame C) : DataFrame C :=
  mkDF (range_index (nrows df)) (columns df).
End frames.

(** [data[mask]] *)
Definition loc_mask (m : list bool) (df : Table) : Table :=
  map_rows (keep m) (col_keep m) df.

(** [data.iloc[ps]] *)
Definition iloc (ps : list nat) (df : Table) : Table :=
  map_rows (fun l => pick l ps) (col_pick ps) df.

Definition take_rows (k : nat) (df : Table) : Table :=
  map_rows (take k) (col_take k) df.

(** [data.head(n)]: the first [n] rows, or, for a negative [n], all rows
    but the last [-n]. *)
Definition head (n : Z) (df : Table) : Table :=
  if 0 <=? n then take_rows (Z.to_nat n) df
  else take_rows (nrows df - Z.to_nat (- n)) df.

(** [pd.concat([a, b])]: rows of [a], then rows of [b]; the columns are
    the union of both column sets, cells absent from a frame are missing
    values. *)
Definition concat2 (a b : Table) : Table :=
  mkDF (index a ++ index b)
    (((fun nc : string * column =>
         (nc.1, col_concat nc.2
                  (default (ObjCol (replicate (nrows b) VNaN))
                           (get_col nc.1 b)))) <$> columns a)
     ++ ((fun nc : string * column =>
            (nc.1, col_concat (ObjCol (replicate (nrows a) VNaN)) nc.2))
           <$> filter (fun nc : string * column => nc.1 ∉ names a) (columns b))).

(** [pd.concat(frames)]: an empty list of frames is an error. *)
Definition concat (frames : list Table) : result Table :=
  match frames with
  | [] => Raise ValueError
  | f :: fs => Ok (foldl concat2 f fs)
  end.

(** ** [select_values] *)

(** The class of a cell for Python's [==] and [hash]: [True] is the
    number 1 and [False] the number 0; a string equals no number. *)
Definition py_key (v : value) : value :=
  match v with
  | VBool b => VInt (Z.b2z b)
  | _ => v
  end.

(** [v] equals one of [vals]. *)
Definition matches (vals : list value) (v : value) : Prop :=
  py_key v ∈ py_key <$> vals.

#[global] Instance matches_dec vals v : Decision (matches vals v).
Proof. unfold matches. apply _. Defined.

(** [series.isin(values)] *)
Definition isin (vals : list value) (c : column) : list bool :=
  (fun v => bool_decide (matches vals v)) <$> cells c.

(** The second component of the result collects the warnings issued. *)
Definition select_values (data : Table) (annotation : string)
    (values : option (list value)) : result (Table * list string) :=
  if negb (empty data) then
    match get_col annotation data with
    | None => Raise ValueError
    | Some col =>
        match values with
        | Some vals =>
            let filtered_data := loc_mask (isin vals col) data in
            if empty filtered_data
            then Ok (filtered_data, ["No matching values found in the data."]%string)
            else Ok (filtered_data, [])
        | None => Ok (data, [])
        end
    end
  else Ok (data, []).

(** ** [downsample_cells] *)

Definition rank (v : value) : nat :=
  match v with VBool _ => 0 | VInt _ => 1 | VStr _ => 2 | VNaN => 3 end.

(** The order in which [groupby] sorts its keys. *)
Definition value_leb (v w : value) : bool :=
  match v, w with
  | VInt a, VInt b => a <=? b
  | VStr a, VStr b => String.leb a b
  | VBool a, VBool b => implb a b
  | _, _ => (rank v <=? rank w)%nat
  end.

Definition value_le (v w : value) : Prop := value_leb v w = true.

#[global] Instance value_le_dec : RelDecision value_le.
Proof. intros v w. unfold value_le. apply _. Defined.

(** The keys of [data.groupby(annotation)]: the distinct values of the
    column that are not missing, sorted.  Keys are told apart as cells;
    Python equates [True] with 1 and [False] with 0, so that this is
    the grouping of pandas for the columns that do not hold both
    booleans and integers ([unmixed]). *)
Definition group_keys (ks : list value) : list value :=
  merge_sort value_le (remove_dups (filter (fun k => k ≠ VNaN) ks)).

Definition key_mask (g : value) (ks : list value) : list bool :=
  (fun k => bool_decide (k = g)) <$> ks.

(** [data.groupby(annotation)]: the groups as (key, sub-frame), every
    sub-frame in the row order of [data]. *)
Definition groupby (col : column) (data : Table) : list (value * Table) :=
  (fun g => (g, loc_mask (key_mask g (cells col)) data)) <$> group_keys (cells col).

(** [series.value_counts(normalize=True)] as (key, count, total): the
    frequency of a key is [count / total], over the rows whose value is
    not missing. *)
Definition value_counts (ks : list value) : list (value * (nat * nat)) :=
  let present := filter (fun k => k ≠ VNaN) ks in
  (fun g => (g, (length (filter (fun k => k = g) present), length present)))
    <$> remove_dups present.

(** [(freq * n_samples).astype(int)]: the product truncated toward
    zero.  The frequency is the exact quotient [count / total]. *)
Definition share (count total : nat) (n : Z) : Z :=
  Z.quot (Z.of_nat count * n) (Z.of_nat total).

(** The numbers that numpy computes in double precision: the IEEE 754
    binary64 format, 53 bits of precision, rounding to nearest with
    ties to even. *)
Definition float64 := spec_float.

(** The conversion of an integer, correctly rounded. *)
Definition float64_of_Z (z : Z) : float64 := binary_normalize 53 1024 z 0 false.

Definition float64_add : float64 -> float64 -> float64 := SFadd 53 1024.
Definition float64_sub : float64 -> float64 -> float64 := SFsub 53 1024.
Definition float64_mul : float64 -> float64 -> float64 := SFmul 53 1024.
Definition float64_div : float64 -> float64 -> float64 := SFdiv 53 1024.
Definition float64_ltb : float64 -> float64 -> bool := SFltb.

(** [x.astype(int)]: the float truncated toward zero.  A finite value
    that does not fit in 64 bits gives the smallest int64.  pandas
    refuses to cast an infinity or a NaN; neither is the product of a
    frequency by an int64, and they are given the same value here. *)
Definition astype_int64 (x : float64) : Z :=
  match x with
  | S754_zero _ => 0
  | S754_finite s m e =>
      let a := match e with
               | Z0 => Zpos m
               | Zpos p => Z.shiftl (Zpos m) (Zpos p)
               | Zneg p => Z.shiftr (Zpos m) (Zpos p)
               end in
      let z := if s then - a else a in
      if (- 2 ^ 63 <=? z) && (z <? 2 ^ 63) then z else - 2 ^ 63
  | _ => - 2 ^ 63
  end.

(** [(freq * n_samples).astype(int)] as numpy evaluates it: the
    frequency is the float64 quotient of the two counts, the product is
    a float64 product, and the cast truncates it. *)
Definition share64 (count total : nat) (n : Z) : Z :=
  astype_int64
    (float64_mul
       (float64_div (float64_of_Z (Z.of_nat count))
                    (float64_of_Z (Z.of_nat total)))
       (float64_of_Z n)).

(** [series.get(key, 0)] *)
Fixpoint series_get {A : Type} (g : value) (d : A) (s : list (value * A)) : A :=
  match s with
  | [] => d
  | (k, x) :: s' => if decide (k = g) then x else series_get g d s'
  end.

Section downsample.
(** [rng k n] stands for the random choice made by
    [group_data.sample(k)] on a group of [n] rows: the positions of the
    rows drawn, in the order drawn. *)
Variable rng : nat -> nat -> list nat.

(** [cast_share count total n] stands for the entry
    [(freq * n_samples).astype(int)] of a group of [count] rows among
    [total]: [share] in exact arithmetic, [share64] in float64. *)
Variable cast_share : nat -> nat -> Z -> Z.

(** [group_data.sample(k)] *)
Definition sample (k : Z) (df : Table) : result Table :=
  if k <? 0 then Raise ValueError
  else if Z.of_nat (nrows df) <? k then Raise ValueError
  else Ok (iloc (rng (Z.to_nat k) (nrows df)) df).

(** The loop over the groups of the stratified branch. *)
Fixpoint stratified_samples (rand : bool) (per_group : list (value * Z))
    (groups : list (value * Table)) : result (list Table) :=
  match groups with
  | [] => Ok []
  | (group, group_data) :: rest =>
      let n_group_samples := series_get group 0 per_group in
      let k := Z.min n_group_samples (Z.of_nat (nrows group_data)) in
      s ← (if rand then sample k group_data else Ok (head k group_data));
      ss ← stratified_samples rand per_group rest;
      Ok (s :: ss)
  end.

(** [n_samples] is [None] for the default of the Python function.  The
    stratified branch stacks the samples of the groups; the other
    branch stacks the first rows of every group and renumbers the rows
    (when no group is cut, pandas 1.x returns the same rows in the
    order of the input instead).  The message printed before the return
    is not modelled. *)
Definition downsample_cells_with (data : Table) (annotation : string)
    (n_samples : option Z) (stratify rand : bool) : result Table :=
  match get_col annotation data with
  | None => Raise ValueError
  | Some col =>
      match n_samples with
      | None => Ok data
      | Some n =>
          if stratify then
            let freqs := value_counts (cells col) in
            let n_samples_per_group :=
              (fun gf : value * (nat * nat) =>
                 (gf.1, cast_share gf.2.1 gf.2.2 n)) <$> freqs in
            samples ← stratified_samples rand n_samples_per_group
                        (groupby col data);
            concat samples
          else
            let heads :=
              (fun gd : value * Table =>
                 head (Z.min n (Z.of_nat (nrows gd.2))) gd.2)
                <$> groupby col data in
            Ok (reset_index
                  (match heads with
                   | [] => take_rows 0 data
                   | f :: fs => foldl concat2 f fs
                   end))
      end
  end.
End downsample.

(** [downsample_cells] with the shares of the stratified branch computed
    exactly, and with the shares that float64 gives. *)
Definition downsample_cells (rng : nat -> nat -> list nat)
    : Table -> string -> option Z -> bool -> bool -> result Table :=
  downsample_cells_with rng share.

Definition downsample_cells64 (rng : nat -> nat -> list nat)
    : Table -> string -> option Z -> bool -> bool -> result Table :=
  downsample_cells_with rng share64.

(** ** The heap of frames *)

(** Frames that the code mutates are objects: a reference names a frame
    of the heap, and two references to one frame are aliases. *)
Abbreviation heap := (gmap positive Table).

(** [data.copy()], and every other construction of a new frame. *)
Definition alloc (h : heap) (t : Table) : positive * heap :=
  let r := fresh (dom h) in (r, <[r := t]> h).

(** [data[name] = col]: replaces the column of that name, or appends a
    new last column. *)
Fixpoint assign_col {C : Type} (name : string) (c : C)
    (cs : list (string * C)) : list (string * C) :=
  match cs with
  | [] => [(name, c)]
  | (n, c0) :: cs' =>
      if decide (n = name) then (n, c) :: cs'
      else (n, c0) :: assign_col name c cs'
  end.

Definition set_col (name : string) (c : column) (df : Table) : Table :=
  mkDF (index df) (assign_col name c (columns df)).

(** ** [append_observation] *)

Inductive rules_arg :=
  | RulesList (l : list string)
  | RulesOther.

(** [c in s] *)
Fixpoint contains (c : ascii) (s : string) : bool :=
  match s with
  | EmptyString => false
  | String a s' => if decide (a = c) then true else contains c s'
  end.

(** [s.split(c)] *)
Fixpoint split (c : ascii) (s : string) : list string :=
  match s with
  | EmptyString => [EmptyString]
  | String a s' =>
      if decide (a = c) then EmptyString :: split c s'
      else match split c s' with
           | piece :: pieces => String a piece :: pieces
           | [] => [String a EmptyString]
           end
  end.

(** [str(z)] and [int(s)] on decimal literals. *)
Definition str_of_Z (z : Z) : string := NilZero.string_of_int (Z.to_int z).
Definition Z_of_str (s : string) : option Z :=
  Z.of_int <$> NilZero.int_of_string s.

Definition to_str (v : value) : string :=
  match v with
  | VInt z => str_of_Z z
  | VStr s => s
  | VBool true => "True"
  | VBool false => "False"
  | VNaN => "nan"
  end.

Definition to_int (v : value) : result Z :=
  match v with
  | VInt z => Ok z
  | VBool b => Ok (if b then 1 else 0)
  | VStr s => match Z_of_str s with Some z => Ok z | None => Raise ValueError end
  | VNaN => Raise ValueError
  end.

Definition to_bool (v : value) : bool :=
  match v with
  | VInt z => negb (z =? 0)
  | VBool b => b
  | VStr s => negb (bool_decide (s = EmptyString))
  | VNaN => true
  end.

(** [series.astype(str)] *)
Definition astype_str (c : column) : column :=
  ObjCol ((fun v => VStr (to_str v)) <$> cells c).

(** [series.astype(d)] *)
Definition astype (d : dtype) (c : column) : result column :=
  match d with
  | Int64 => l ← mapM to_int (cells c); Ok (IntCol l)
  | Bool => Ok (BoolCol (to_bool <$> cells c))
  | Object => Ok (ObjCol (cells c))
  end.

(** [col[mask] = v] *)
Fixpoint set_where {A : Type} (m : list bool) (v : A) (l : list A) : list A :=
  match l, m with
  | x :: l', b :: m' => (if b then v else x) :: set_where m' v l'
  | _, _ => l
  end.

(** The second loop of [append_observation]: the rules are applied in
    list order to the new column; a rule that does not split into
    exactly two pieces fails the unpacking of [rule.split(':')]. *)
Fixpoint apply_rules (source : list value) (rules : list string)
    (new_col : list value) : result (list value) :=
  match rules with
  | [] => Ok new_col
  | rule :: rest =>
      match split ":" rule with
      | [source_value; new_value] =>
          apply_rules source rest
            (set_where ((fun s => bool_decide (s = VStr source_value)) <$> source)
                       (VStr new_value) new_col)
      | _ => Raise ValueError
      end
  end.

(** The frame computed by [append_observation] from the frame [data]. *)
Definition append_observation_frame (data : Table)
    (source_column new_column : string) (mapping_rules : rules_arg)
    : result Table :=
  match get_col source_column data with
  | None => Raise ValueError
  | Some src =>
      if decide (new_column ∈ names data) then Raise ValueError
      else match mapping_rules with
      | RulesOther => Raise ValueError
      | RulesList rules =>
          if forallb (contains ":") rules then
            let result_data :=
              set_col new_column
                (ObjCol (replicate (nrows data) (VStr "Not_Mapped"))) data in
            let original_dtype := col_dtype src in
            let src_str := astype_str src in
            let result_data := set_col source_column src_str result_data in
            new_col ← apply_rules (cells src_str) rules
                       (replicate (nrows data) (VStr "Not_Mapped"));
            let result_data := set_col new_column (ObjCol new_col) result_data in
            restored ← astype original_dtype src_str;
            Ok (set_col source_column restored result_data)
          else Raise ValueError
      end
  end.

(** [append_observation] on the heap: the result is a new object, the
    argument is only read. *)
Definition append_observation (h : heap) (data : positive)
    (source_column new_column : string) (mapping_rules : rules_arg)
    : result positive * heap :=
  match h !! data with
  | None => (Raise TypeError, h)
  | Some df =>
      match append_observation_frame df source_column new_column mapping_rules with
      | Ok t => let (r, h') := alloc h t in (Ok r, h')
      | Raise e => (Raise e, h)
      end
  end.

(** ** [bin2cat] *)

Inductive patterns_arg :=
  | PatStr (s : string)
  | PatList (l : list string)
  | PatOther.

(** [row == 1] on one cell. *)
Definition eq_one (v : value) : bool :=
  match v with
  | VInt 1 => true
  | VBool true => true
  | _ => false
  end.

(** The row at position [i] of a list of columns. *)
Definition row_at (cols : list column) (i : nat) : list value :=
  (fun c => default VNaN (cells c !! i)) <$> cols.

(** The inner function of [bin2cat], on one row of [cell_labels_df]. *)
Definition get_columns_with_1 (labels : list string) (row : list value)
    : result value :=
  match keep (eq_one <$> row) labels with
  | [] => Ok VNaN
  | [name] => Ok (VStr name)
  | _ => Raise ValueError
  end.

Section bin2cat.
(** [spac.utils.regex_search_list] is not part of the sources at hand:
    it is a parameter of the embedding. *)
Variable regex_search_list : list string -> list string -> list string.

(** The return value is [None] when the Python function falls off its
    end without a [return] statement. *)
Definition bin2cat (h : heap) (data : positive)
    (one_hot_annotations : patterns_arg) (new_annotation : string)
    : result (option positive) * heap :=
  match h !! data with
  | None => (Raise TypeError, h)
  | Some df =>
      match (match one_hot_annotations with
             | PatStr s => Ok [s]
             | PatList l => Ok l
             | PatOther => Raise ValueError
             end) with
      | Raise e => (Raise e, h)
      | Ok one_hot_annotations =>
          if decide (new_annotation ∈ names df) then (Raise ValueError, h)
          else if (0 <? length one_hot_annotations)%nat then
            let all_columns := names df in
            let all_cell_labels :=
              regex_search_list one_hot_annotations all_columns in
            if (0 <? length all_cell_labels)%nat then
              match mapM (fun n => match get_col n df with
                                   | Some c => Ok c
                                   | None => Raise KeyError
                                   end) all_cell_labels with
              | Raise e => (Raise e, h)
              | Ok cell_labels_df =>
                  match mapM (fun i => get_columns_with_1 all_cell_labels
                                         (row_at cell_labels_df i))
                             (seq 0 (nrows df)) with
                  | Raise e => (Raise e, h)
                  | Ok column_names_with_1 =>
                      (Ok (Some data),
                       <[data := set_col new_annotation
                                   (ObjCol column_names_with_1) df]> h)
                  end
              end
            else (Raise ValueError, h)
          else (Ok None, h)
      end
  end.
End bin2cat.

(** ** [load_csv_files] and [combine_dfs] *)

(** [set(meta_schema) == set(current_schema)] *)
Definition same_set (a b : list string) : bool :=
  forallb (fun x => bool_decide (x ∈ b)) a
  && forallb (fun x => bool_decide (x ∈ a)) b.

(** The schema test shared by both functions: equal lengths, then equal
    sets of names. *)
Definition check_schema (meta_schema current_schema : list string)
    : result unit :=
  if (length meta_schema =? length current_schema)%nat then
    if negb (same_set meta_schema current_schema) then Raise ValueError
    else Ok ()
  else Raise ValueError.

Definition acquire_schema (meta_schema current_schema : list string)
    : list string :=
  if (length meta_schema =? 0)%nat then current_schema else meta_schema.

(** What [pd.read_csv] finds in a file. *)
Inductive csv :=
  | EmptyData
  | Malformed
  | Parsed (t : Table).

Record file := mkFile { readable : bool; content : csv }.

Abbreviation filesystem := (gmap string file).

(** [pd.read_csv] wrapped in the [try] of [load_csv_files]: both parser
    exceptions become [TypeError].  A file without any column is empty
    data for the parser. *)
Definition read_csv (f : file) : result Table :=
  match content f with
  | EmptyData => Raise TypeError
  | Malformed => Raise TypeError
  | Parsed t => if bool_decide (columns t = []) then Raise TypeError else Ok t
  end.

Inductive file_names_arg :=
  | FileList (l : list string)
  | FileStr (s : string)
  | FileOther.

Fixpoint load_loop (fs : filesystem) (file_names : list string)
    (meta_schema : list string) (dataframe_list : list (string * Table))
    : result (list (string * Table)) :=
  match file_names with
  | [] => Ok dataframe_list
  | file_name :: rest =>
      match fs !! file_name with
      | None => Raise FileNotFoundError
      | Some f =>
          if negb (readable f) then Raise PermissionError
          else
            current_df ← read_csv f;
            let current_schema := names current_df in
            let meta_schema := acquire_schema meta_schema current_schema in
            _ ← check_schema meta_schema current_schema;
            load_loop fs rest meta_schema
              (dataframe_list ++ [(file_name, current_df)])
      end
  end.

Definition load_csv_files (fs : filesystem) (file_names : file_names_arg)
    : result (list (string * Table)) :=
  match file_names with
  | FileOther => Raise TypeError
  | FileStr s => load_loop fs [s] [] []
  | FileList l => load_loop fs l [] []
  end.

(** The annotations frame: its index is the file name, a row gives the
    annotation names with their values. *)
Inductive annotations_arg :=
  | AnnFrame (a : gmap string (list (string * value)))
  | AnnOther.

(** [current_df[name] = value] for every annotation of the file. *)
Definition add_annotations (file_annotations : list (string * value))
    (df : Table) : Table :=
  foldl (fun d nv => set_col nv.1 (col_full (nrows d) nv.2) d)
        df file_annotations.

(** The loop of [combine_dfs].  The frames of the input list are heap
    objects and are updated where they are; the heap is returned with
    the exception when the loop fails.  [concat2] is total, so the
    [except] clause around [pd.concat] has no counterpart here. *)
Fixpoint combine_loop (annotations : gmap string (list (string * value)))
    (dataframes : list (string * positive)) (meta_schema : list string)
    (combined_dataframe : Table) (h : heap) : result Table * heap :=
  match dataframes with
  | [] => (Ok combined_dataframe, h)
  | (file_name, r) :: rest =>
      match h !! r with
      | None => (Raise TypeError, h)
      | Some current_df =>
          let current_schema := names current_df in
          let meta_schema := acquire_schema meta_schema current_schema in
          match check_schema meta_schema current_schema with
          | Raise e => (Raise e, h)
          | Ok _ =>
              match annotations !! file_name with
              | None => (Raise ValueError, h)
              | Some file_annotations =>
                  let current_df := add_annotations file_annotations current_df in
                  let h := <[r := current_df]> h in
                  let combined_dataframe :=
                    if empty combined_dataframe then current_df
                    else concat2 combined_dataframe current_df in
                  combine_loop annotations rest meta_schema combined_dataframe h
              end
          end
      end
  end.

Definition combine_dfs (h : heap) (dataframes : list (string * positive))
    (annotations : annotations_arg) : result positive * heap :=
  match annotations with
  | AnnOther => (Raise TypeError, h)
  | AnnFrame a =>
      match combine_loop a dataframes [] (mkDF [] []) h with
      | (Raise e, h') => (Raise e, h')
      | (Ok combined_dataframe, h') =>
          let (r, h'') := alloc h' (reset_index combined_dataframe) in
          (Ok r, h'')
      end
  end.

(** ** Feature matrices *)

Local Open Scope Q_scope.

Definition Features := DataFrame (list Q).

(** A two-dimensional array, stored feature by feature; [n_rows] is the
    first component of its shape. *)
Record ndarray := mkArray {
  n_rows : nat;
  features_of : list (list Q)
}.

(** [features.to_numpy()] *)
Definition to_numpy (df : Features) : ndarray :=
  mkArray (nrows df) (columns df).*2.

(** Row [i] of an array. *)
Definition array_row (a : ndarray) (i : nat) : list Q :=
  (fun c => nth i c 0) <$> features_of a.

Definition Qleb_rel (x y : Q) : Prop := Qle_bool x y = true.

#[global] Instance Qleb_rel_dec : RelDecision Qleb_rel.
Proof. intros x y. unfold Qleb_rel. apply _. Defined.

(** The quantile of level [q] of a sorted non-empty sample, by linear
    interpolation between the two closest ranks (the default of
    pandas); an empty sample has no quantile (pandas answers with a
    missing value). *)
Definition quantile_sorted (a : list Q) (q : Q) : option Q :=
  match a with
  | [] => None
  | x :: _ =>
      let pos := inject_Z (Z.of_nat (length a) - 1) * q in
      let lo := Qfloor pos in
      let hi := Qceiling pos in
      let frac := pos - inject_Z lo in
      let a_lo := nth (Z.to_nat lo) a x in
      let a_hi := nth (Z.to_nat hi) a x in
      Some (a_lo + (a_hi - a_lo) * frac)
  end.

(** [series.quantile(q)] for a level within [0, 1]. *)
Definition series_quantile (col : list Q) (q : Q) : option Q :=
  quantile_sorted (merge_sort Qleb_rel col) q.

Definition valid_level (q : Q) : bool := Qle_bool 0 q && Qle_bool q 1.

(** [features.quantile(q)]: one entry per column, under the name of the
    column; a level outside [0, 1] is rejected. *)
Definition frame_quantile (features : Features) (q : Q)
    : result (list (string * option Q)) :=
  if valid_level q then
    Ok ((fun nc : string * list Q => (nc.1, series_quantile nc.2 q))
          <$> columns features)
  else Raise ValueError.

(** One column of [features - series]: with a missing quantile every
    difference is missing, which only happens for a column without
    rows. *)
Definition sub_col (col : list Q) (m : option Q) : list Q :=
  match m with
  | Some m => (fun x => x - m) <$> col
  | None => []
  end.

(** [x] clipped from below; a missing bound does not clip. *)
Definition clip_lower (lo : option Q) (x : Q) : Q :=
  match lo with
  | Some lo => if Qle_bool lo x then x else lo
  | None => x
  end.

(** [frame.clip(lower, upper, axis=1)] on one cell.  pandas clips from
    below, then replaces by the upper bound the cells that exceed it,
    and it tests the cell of the frame, not the outcome of the first
    step: the two steps commute unless the lower bound is above the
    upper one. *)
Definition clip (lo hi : option Q) (x : Q) : Q :=
  match hi with
  | Some hi => if Qle_bool x hi then clip_lower lo x else hi
  | None => clip_lower lo x
  end.

(** [frame op series] along the columns: the series carries the labels
    of the frame's own columns, in the same order, so that the alignment
    pairs every column with its own entry. *)
Definition with_series {A : Type} (f : list Q -> A -> list Q)
    (cols : list (string * list Q)) (s : list (string * A))
    : list (string * list Q) :=
  zip_with (fun nc e => (nc.1, f nc.2 e.2)) cols s.

(** ** [subtract_min_quantile] *)

Definition subtract_min_quantile (features : Features) (min_quantile : Q)
    : result Features :=
  columns_min_quantile ← frame_quantile features min_quantile;
  let subtracted_min :=
    with_series sub_col (columns features) columns_min_quantile in
  Ok (mkDF (index features)
        ((fun nc : string * list Q => (nc.1, clip_lower (Some 0) <$> nc.2))
           <$> subtracted_min)).

(** ** [rescale_features] *)

(** [MinMaxScaler().fit_transform] on one feature with at least one
    row.  The scaler stores [scale_ = 1 / data_range] and
    [min_ = 0 - data_min * scale_] and returns [X * scale_ + min_]; a
    range below ten machine epsilons counts as the range of a constant
    feature and is replaced by one before the division. *)
Definition data_min (col : list Q) : Q :=
  match col with
  | [] => 0
  | x :: xs => foldr Qmin x xs
  end.

Definition data_max (col : list Q) : Q :=
  match col with
  | [] => 0
  | x :: xs => foldr Qmax x xs
  end.

(** The machine epsilon of float64, [2 ^ -52]. *)
Definition eps64 : Q := 1 # 4503599627370496.

Definition scale_ (col : list Q) : Q :=
  let data_range := data_max col - data_min col in
  1 / (if Qle_bool (10 * eps64) data_range then data_range else 1).

Definition min_ (col : list Q) : Q := 0 - data_min col * scale_ col.

Definition min_max_scale (col : list Q) : list Q :=
  (fun v => v * scale_ col + min_ col) <$> col.

(** The same scaling in float64, operation by operation. *)
Definition data_min64 (col : list float64) : float64 :=
  match col with
  | [] => S754_zero false
  | x :: xs => foldr (fun a b => if float64_ltb a b then a else b) x xs
  end.

Definition data_max64 (col : list float64) : float64 :=
  match col with
  | [] => S754_zero false
  | x :: xs => foldr (fun a b => if float64_ltb b a then a else b) x xs
  end.

Definition min_max_scale64 (col : list float64) : list float64 :=
  let data_range := float64_sub (data_max64 col) (data_min64 col) in
  let threshold :=
    float64_mul (float64_of_Z 10) (binary_normalize 53 1024 1 (-52) false) in
  let scale_ :=
    float64_div (float64_of_Z 1)
      (if float64_ltb data_range threshold then float64_of_Z 1
       else data_range) in
  let min_ :=
    float64_sub (float64_of_Z 0) (float64_mul (data_min64 col) scale_) in
  (fun v => float64_add (float64_mul v scale_) min_) <$> col.

(** [MinMaxScaler().fit_transform(X)]: the input validation of the
    scaler rejects an array without rows or without features. *)
Definition fit_transform (X : ndarray) : result ndarray :=
  if bool_decide (n_rows X = 0%nat) then Raise ValueError
  else if bool_decide (features_of X = []) then Raise ValueError
  else Ok (mkArray (n_rows X) (min_max_scale <$> features_of X)).

Definition rescale_features (features : Features)
    (min_quantile max_quantile : Q) : result Features :=
  markers_max_quantile ← frame_quantile features max_quantile;
  markers_min_quantile ← frame_quantile features min_quantile;
  let features_clipped :=
    mkDF (index features)
      (with_series (fun col lh => clip lh.1 lh.2 <$> col) (columns features)
         (zip_with (fun lo hi => (lo.1, (lo.2, hi.2)))
            markers_min_quantile markers_max_quantile)) in
  np_features_scaled ← fit_transform (to_numpy features_clipped);
  Ok (mkDF (range_index (n_rows np_features_scaled))
        (zip (names features_clipped) (features_of np_features_scaled))).

(** ** AnnData *)

(** The annotated matrix: the primary matrix [X], the frame [obs] of the
    annotations (its index holds the observation names), the feature
    names and the layers. *)
Record AnnData := mkAnnData {
  X : ndarray;
  obs : Table;
  var_names : list string;
  layers : gmap string ndarray
}.

(** [adata.to_df()] *)
Definition to_df (adata : AnnData) : Features :=
  mkDF (index (obs adata)) (zip (var_names adata) (features_of (X adata))).

(** [adata.layers[layer] = val]: the shape of the value must be the
    shape of [X]; the frame is stored as a bare array, row by position,
    and its index is dropped. *)
Definition set_layer (adata : AnnData) (layer : string) (val : Features)
    : result AnnData :=
  if bool_decide (nrows val = n_rows (X adata))
     && bool_decide (length (columns val) = length (var_names adata))
  then Ok (mkAnnData (X adata) (obs adata) (var_names adata)
             (<[layer := to_numpy val]> (layers adata)))
  else Raise ValueError.

Definition add_rescaled_features (adata : AnnData)
    (min_quantile max_quantile : Q) (layer : string) : result AnnData :=
  let original := to_df adata in
  rescaled ← rescale_features original min_quantile max_quantile;
  set_layer adata layer rescaled.

(** [series.unique()]: the distinct values in the order of their first
    occurrence. *)
Definition unique (l : list value) : list value :=
  foldl (fun seen v => if decide (v ∈ seen) then seen else seen ++ [v]) [] l.

(** [series == region]: a missing value equals nothing. *)
Definition eq_mask (region : value) (ks : list value) : list bool :=
  (fun k => bool_decide (k = region ∧ k ≠ VNaN)) <$> ks.

(** [original[mask]] on a feature frame. *)
Definition floc_mask (m : list bool) (df : Features) : Features :=
  map_rows (keep m) (keep m) df.

(** [pd.concat] of frames cut from one frame: they have the columns of
    that frame, the rows are stacked column by column. *)
Definition fconcat2 (a b : Features) : Features :=
  mkDF (index a ++ index b)
       (zip_with (fun ca cb => (ca.1, ca.2 ++ cb.2)) (columns a) (columns b)).

Definition fconcat (frames : list Features) : result Features :=
  match frames with
  | [] => Raise ValueError
  | f :: fs => Ok (foldl fconcat2 f fs)
  end.

(** The frame [new_df] built by [subtract_min_per_region]. *)
Definition min_per_region_frame (adata : AnnData) (annotation : string)
    (min_quantile : Q) : result Features :=
  match get_col annotation (obs adata) with
  | None => Raise KeyError
  | Some col =>
      let regions := unique (cells col) in
      let original := to_df adata in
      new_df_list ←
        mapM (fun region =>
                let region_cells := floc_mask (eq_mask region (cells col)) original in
                subtract_min_quantile region_cells min_quantile)
             regions;
      fconcat new_df_list
  end.

Definition subtract_min_per_region (adata : AnnData) (annotation layer : string)
    (min_quantile : Q) : result AnnData :=
  new_df ← min_per_region_frame adata annotation min_quantile;
  set_layer adata layer new_df.

(** ** Vocabulary of the statements *)

Local Open Scope Z_scope.

(** A frame is rectangular when every column has one cell per row. *)
Definition well_formed (df : Table) : bool :=
  forallb (fun nc : string * column =>
             (length (cells nc.2) =? nrows df)%nat) (columns df).

(** The cells of the annotation column of a frame. *)
Definition annotation_cells (annotation : string) (df : Table) : list value :=
  match get_col annotation df with
  | Some c => cells c
  | None => []
  end.

(** The number of rows of the group [g] in a column of keys. *)
Definition group_size (g : value) (ks : list value) : nat :=
  length (filter (fun k => k = g) ks).

Definition rows_of (annotation : string) (g : value) (df : Table) : nat :=
  group_size g (annotation_cells annotation df).

(** The rows whose key is not missing: the rows that belong to a group. *)
Definition present (ks : list value) : list value :=
  filter (fun k => k ≠ VNaN) ks.

(** The number of rows that the specification allots to the group [g]
    out of [n] samples: the floor of frequency times [n], capped by the
    size of the group. *)
Definition quota (n : Z) (ks : list value) (g : value) : nat :=
  Z.to_nat
    (Z.min ((Z.of_nat (group_size g ks) * n) / Z.of_nat (length (present ks)))
           (Z.of_nat (group_size g ks))).

(** What [sample] promises of its random choice: as many positions as
    asked, all different, all within the group. *)
Definition rng_ok (rng : nat -> nat -> list nat) : Prop :=
  forall k n : nat, (k <= n)%nat ->
    length (rng k n) = k /\ NoDup (rng k n)
    /\ Forall (fun p => (p < n)%nat) (rng k n).

(** [q g] rows of the group [g] of [data]: the first [q g] rows of the
    group, or the rows at the positions drawn by [rng]. *)
Definition part_of (rng : nat -> nat -> list nat) (rand : bool)
    (q : value -> nat) (ks : list value) (data : Table) (g : value) : Table :=
  let group_data := loc_mask (key_mask g ks) data in
  if rand then iloc (rng (q g) (nrows group_data)) group_data
  else take_rows (q g) group_data.

(** The rows that the specification takes from the group [g] of [data]:
    [quota] rows. *)
Definition stratified_part (rng : nat -> nat -> list nat) (rand : bool)
    (n : Z) (ks : list value) (data : Table) (g : value) : Table :=
  part_of rng rand (quota n ks) ks data g.

(** The number of rows that [head] and [sample] return from a group of
    [size] rows whose share is [s]: [min s size] rows, and for a
    negative share, where [sample] raises, all the rows but the last
    [-s]. *)
Definition taken (s : Z) (size : nat) : nat :=
  let k := Z.min s (Z.of_nat size) in
  if 0 <=? k then Z.to_nat k else (size - Z.to_nat (- k))%nat.

(** The number of rows that the code takes from the group [g] out of
    [n] samples, with the share that float64 gives. *)
Definition quota64 (n : Z) (ks : list value) (g : value) : nat :=
  taken (share64 (group_size g ks) (length (present ks)) n) (group_size g ks).

Definition stratified_part64 (rng : nat -> nat -> list nat) (rand : bool)
    (n : Z) (ks : list value) (data : Table) (g : value) : Table :=
  part_of rng rand (quota64 n ks) ks data g.

(** Booleans and integers are not both among the keys.  Python equates
    [True] with 1 and [False] with 0: without such a pair the groups of
    [groupby] are the groups of equal cells, and the sorted keys come
    in the order of pandas, numbers before strings. *)
Definition is_bool (v : value) : bool :=
  match v with VBool _ => true | _ => false end.

Definition is_int (v : value) : bool :=
  match v with VInt _ => true | _ => false end.

Definition unmixed (ks : list value) : bool :=
  forallb (fun k => negb (is_bool k)) ks
  || forallb (fun k => negb (is_int k)) ks.

(** The rows that the non-stratified branch takes from the group [g]:
    its first [min n (size of the group)] rows. *)
Definition first_rows_part (n : Z) (ks : list value) (data : Table)
    (g : value) : Table :=
  take_rows (Nat.min (Z.to_nat n) (group_size g ks))
            (loc_mask (key_mask g ks) data).

(** ** Sample inputs *)

(** The table of the docstring of [downsample_cells]: groups of three,
    two and one rows. *)
Definition docstring_table : Table :=
  mkDF (range_index 6)
    [("annotation"%string,
      ObjCol [VStr "a"; VStr "a"; VStr "a"; VStr "b"; VStr "b"; VStr "c"]);
     ("value"%string, IntCol [1; 2; 3; 4; 5; 6])].

(** Fifteen rows of one group and seven of another. *)
Definition fifteen_seven : Table :=
  mkDF (range_index 22)
    [("annotation"%string,
      ObjCol (replicate 15 (VStr "a") ++ replicate 7 (VStr "b")))].

(** A choice of positions for [sample]: the last [k] rows of the group. *)
Definition last_rows (k n : nat) : list nat := seq (n - k) k.

(** The rows 0, 1, 3, 4 and 5 of [docstring_table], renumbered. *)
Definition docstring_first_two : Table :=
  mkDF (range_index 5)
    [("annotation"%string,
      ObjCol [VStr "a"; VStr "a"; VStr "b"; VStr "b"; VStr "c"]);
     ("value"%string, IntCol [1; 2; 4; 5; 6])].

(** The number of occurrences of a character in a string. *)
Fixpoint count_char (c : ascii) (s : string) : nat :=
  match s with
  | EmptyString => 0
  | String a s' => ((if decide (a = c) then 1 else 0) + count_char c s')%nat
  end.

(** The effect of [combine_dfs] on its inputs, as a specification: the
    frame of every file, taken in list order, is replaced in the heap by
    the same frame with the annotations of the file. *)
Definition annotate_step (annotations : gmap string (list (string * value)))
    (h : heap) (entry : string * positive) : heap :=
  match annotations !! entry.1, h !! entry.2 with
  | Some file_annotations, Some df =>
      <[entry.2 := add_annotations file_annotations df]> h
  | _, _ => h
  end.

Definition annotate_all (annotations : gmap string (list (string * value)))
    (dataframes : list (string * positive)) (h : heap) : heap :=
  foldl (annotate_step annotations) h dataframes.

(** The frame at [l] exists and has all the columns [ns]. *)
Definition has_columns (h : heap) (l : positive) (ns : list string) : Prop :=
  exists df, h !! l = Some df /\ forall n, n ∈ ns -> n ∈ names df.

(** Two loaded files and an annotations frame that only knows the first
    of them. *)
Definition one_hot_table : Table :=
  mkDF (range_index 4)
    [("A"%string, IntCol [1; 1; 0; 0]); ("B"%string, IntCol [0; 0; 1; 0])].

Definition two_files_heap : heap :=
  {[ 1%positive := one_hot_table; 2%positive := one_hot_table ]}.

Definition two_files : list (string * positive) :=
  [("first.csv"%string, 1%positive); ("second.csv"%string, 2%positive)].

Definition first_file_annotations : gmap string (list (string * value)) :=
  {[ "first.csv"%string := [("region"%string, VStr "R1")] ]}.

(** The file at [path] exists, is readable and parses to the table [t]. *)
Definition loadable (fs : filesystem) (path : string) (t : Table) : Prop :=
  exists f, fs !! path = Some f /\ readable f = true
            /\ content f = Parsed t /\ columns t ≠ [].

(** Two schemas agree: as many columns, and the same set of names. *)
Definition same_schema (a b : list string) : Prop :=
  length a = length b /\ forall x, x ∈ a <-> x ∈ b.

(** The schema of the first file of a list. *)
Definition first_schema (files : list (string * Table)) : list string :=
  match files with
  | [] => []
  | pt :: _ => names pt.2
  end.

(** The columns of [docstring_table] in the other order. *)
Definition swapped_table : Table :=
  mkDF (range_index 1)
    [("value"%string, IntCol [7]); ("annotation"%string, ObjCol [VStr "c"])].

(** A file system with three files; the third has another column set. *)
Definition three_files : filesystem :=
  {[ "a.csv"%string := mkFile true (Parsed docstring_table);
     "b.csv"%string := mkFile true (Parsed swapped_table);
     "c.csv"%string := mkFile true (Parsed one_hot_table) ]}.

(** The annotated matrix of three observations whose regions alternate:
    A, B, A. *)
Definition interleaved : AnnData :=
  mkAnnData (mkArray 3 [[1; 10; 3]%Q])
    (mkDF [Name "0"; Name "1"; Name "2"]
       [("region"%string, ObjCol [VStr "A"; VStr "B"; VStr "A"])])
    ["marker"%string] ∅.

(** The primary matrix of [interleaved] as a frame. *)
Definition sample_features : Features :=
  mkDF [Name "0"; Name "1"; Name "2"] [("marker"%string, [1; 10; 3]%Q)].

(** A feature frame with a column and no row. *)
Definition no_rows_features : Features :=
  mkDF [] [("marker"%string, [])].

(** The value that the rules give to a source string: the target of the
    last rule whose source is that string, or [current] when no rule
    has it. *)
Fixpoint mapped_value (rules : list string) (s current : string) : string :=
  match rules with
  | [] => current
  | rule :: rest =>
      match split ":" rule with
      | [source_value; new_value] =>
          mapped_value rest s (if decide (source_value = s) then new_value
                               else current)
      | _ => current
      end
  end.

(** What [astype(str)] followed by [astype] of the first dtype leaves of
    a column: integers come back, every boolean comes back [True] (the
    strings ["True"] and ["False"] are both non-empty), objects come
    back as their strings. *)
Definition through_str (c : column) : column :=
  match c with
  | IntCol l => IntCol l
  | BoolCol l => BoolCol (replicate (length l) true)
  | ObjCol l => ObjCol ((fun v => VStr (to_str v)) <$> l)
  end.

Definition no_rule_for (s : string) (rules : list string) : Prop :=
  forall rule s' t, rule ∈ rules -> split ":" rule = [s'; t] -> s' ≠ s.

(** Row [i] of the column [name] holds a one. *)
Definition has_one (df : Table) (i : nat) (name : string) : bool :=
  match get_col name df with
  | Some c => eq_one (default VNaN (cells c !! i))
  | None => false
  end.

(** The patterns of [bin2cat] as a list. *)
Definition patterns_of (arg : patterns_arg) : list string :=
  match arg with
  | PatStr s => [s]
  | PatList l => l
  | PatOther => []
  end.

(** The matched columns that hold a one in row [i]. *)
Definition ones_of (df : Table) (labels : list string) (i : nat) : list string :=
  filter (fun name => has_one df i name = true) labels.

(** A one-hot table whose first row has a one in both columns. *)
Definition ambiguous_table : Table :=
  mkDF (range_index 2)
    [("A"%string, IntCol [1; 0]); ("B"%string, IntCol [1; 1])].

(** The number of rows of the frames of an input list of [combine_dfs]. *)
Definition total_rows (h : heap) (dataframes : list (string * positive)) : nat :=
  sum_list ((fun entry : string * positive =>
               match h !! entry.2 with
               | Some df => nrows df
               | None => 0%nat
               end) <$> dataframes).

(** Every frame of the list has at least one column, as a frame read
    from a file has. *)
Definition with_columns (h : heap) (dataframes : list (string * positive)) : Prop :=
  Forall (fun entry : string * positive =>
            forall df, h !! entry.2 = Some df -> columns df ≠ []) dataframes.

(** The annotated matrix of three observations of one region. *)
Definition single_region : AnnData :=
  mkAnnData (mkArray 3 [[1; 10; 3]%Q])
    (mkDF [Name "0"; Name "1"; Name "2"]
       [("region"%string, ObjCol [VStr "A"; VStr "A"; VStr "A"])])
    ["marker"%string] ∅.

(** The matrix, the annotations and the feature names of an AnnData
    agree on their sizes. *)
Definition consistent (adata : AnnData) : bool :=
  bool_decide (n_rows (X adata) = nrows (obs adata))
  && bool_decide (length (features_of (X adata)) = length (var_names adata))
  && forallb (fun c : list Q => (length c =? n_rows (X adata))%nat)
       (features_of (X adata))
  && well_formed (obs adata).

(** ** [calculate_centroid] *)

(** The characters outside the class [[^a-zA-Z0-9_]]. *)
Definition allowed_char (c : ascii) : bool :=
  let n := nat_of_ascii c in
  ((97 <=? n) && (n <=? 122) || (65 <=? n) && (n <=? 90)
   || (48 <=? n) && (n <=? 57) || (n =? 95))%nat.

(** [re.search(r'[^a-zA-Z0-9_]', name)] finds a match. *)
Fixpoint search_invalid (name : string) : bool :=
  match name with
  | EmptyString => false
  | String c rest => negb (allowed_char c) || search_invalid rest
  end.

(** [(a + b) / 2] on two columns of one frame. *)
Definition midpoints (a b : list Q) : list Q :=
  zip_with (fun x y => ((x + y) / 2)%Q) a b.

(** Coordinates on which the arithmetic of the columns is exact,
    whether they are stored as int64 or as float64: integers of
    magnitude at most [2 ^ 50].  Their sums do not wrap, and their sums
    and half sums are floats. *)
Definition small_integer (x : Q) : bool :=
  (Qden x =? 1)%positive && (Z.abs (Qnum x) <=? 2 ^ 50)%Z.

Definition small_integers (col : list Q) : bool := forallb small_integer col.

(** The frames of coordinates are objects as well. *)
Abbreviation feature_heap := (gmap positive Features).

Definition set_feature (name : string) (c : list Q) (df : Features)
    : Features :=
  mkDF (index df) (assign_col name c (columns df)).

(** [calculate_centroid]: the two assignments take place one after the
    other on the frame itself, and the second one reads the frame that
    the first one has written. *)
Definition calculate_centroid (h : feature_heap) (data : positive)
    (x_min x_max y_min y_max new_x new_y : string)
    : result positive * feature_heap :=
  match h !! data with
  | None => (Raise TypeError, h)
  | Some df =>
      if existsb search_invalid [new_x; new_y] then (Raise ValueError, h)
      else if existsb (fun col => bool_decide (col ∉ names df))
                [x_min; x_max; y_min; y_max]
      then (Raise ValueError, h)
      else
        match get_col x_min df, get_col x_max df with
        | Some a, Some b =>
            let df1 := set_feature new_x (midpoints a b) df in
            let h1 := <[data := df1]> h in
            match get_col y_min df1, get_col y_max df1 with
            | Some c, Some d =>
                (Ok data, <[data := set_feature new_y (midpoints c d) df1]> h1)
            | _, _ => (Raise KeyError, h1)
            end
        | _, _ => (Raise KeyError, h)
        end
  end.

(** A frame of bounding boxes, and a heap that holds it. *)
Definition boxes : Features :=
  mkDF (range_index 2)
    [("XMin"%string, [0; 2]%Q); ("XMax"%string, [4; 6]%Q);
     ("YMin"%string, [1; 1]%Q); ("YMax"%string, [3; 5]%Q)].

Definition boxes_heap : feature_heap := {[ 1%positive := boxes ]}.

(** * Part II: properties *)

Local Open Scope Z_scope.

(** ** Lists, columns and frames *)

Lemma keep_nil_r {A : Type} (m : list bool) : keep m (@nil A) = [].
Proof. by destruct m. Qed.

Lemma length_keep_le {A : Type} (m : list bool) (l : list A) :
  (length (keep m l) <= length l)%nat.
Proof.
  revert l; induction m as [|b m IH]; intros [|x l]; simpl; try lia.
  specialize (IH l). destruct b; simpl; lia.
Qed.

Lemma keep_fmap {A B : Type} (f : A -> B) (m : list bool) (l : list A) :
  keep m (f <$> l) = f <$> keep m l.
Proof.
  revert l; induction m as [|b m IH]; intros [|x l]; simpl; try done.
  rewrite IH. by destruct b.
Qed.

(** A mask computed from the list it is applied to is a filter. *)
Lemma keep_mask_filter {A : Type} (P : A -> Prop) `{!forall x, Decision (P x)}
    (l : list A) :
  keep ((fun x => bool_decide (P x)) <$> l) l = filter P l.
Proof.
  induction l as [|x l IH]; first done.
  rewrite fmap_cons, filter_cons. destruct (decide (P x)).
  - rewrite bool_decide_eq_true_2 by done. simpl. by rewrite IH.
  - rewrite bool_decide_eq_false_2 by done. simpl. by rewrite IH.
Qed.

(** On a list of the same length, the mask keeps as many elements as the
    filter. *)
Lemma length_keep_mask {A B : Type} (P : A -> Prop)
    `{!forall x, Decision (P x)} (l : list A) (l' : list B) :
  length l' = length l ->
  length (keep ((fun x => bool_decide (P x)) <$> l) l') = length (filter P l).
Proof.
  revert l'; induction l as [|x l IH]; intros [|y l'] Hlen; try done.
  rewrite fmap_cons, filter_cons. simpl in Hlen. destruct (decide (P x)).
  - rewrite bool_decide_eq_true_2 by done. simpl. by rewrite IH by lia.
  - rewrite bool_decide_eq_false_2 by done. simpl. by rewrite IH by lia.
Qed.

Lemma length_pick_le {A : Type} (l : list A) (ps : list nat) :
  (length (pick l ps) <= length ps)%nat.
Proof.
  unfold pick. induction ps as [|p ps IH]; csimpl; first lia.
  destruct (l !! p); csimpl; lia.
Qed.

Lemma pick_fmap {A B : Type} (f : A -> B) (l : list A) (ps : list nat) :
  pick (f <$> l) ps = f <$> pick l ps.
Proof.
  unfold pick. induction ps as [|p ps IH]; csimpl; first done.
  rewrite list_lookup_fmap. destruct (l !! p); csimpl; by rewrite IH.
Qed.

Lemma pick_elem_of {A : Type} (l : list A) (ps : list nat) (x : A) :
  x ∈ pick l ps -> x ∈ l.
Proof.
  unfold pick. intros (p & _ & Hp)%list_elem_of_omap.
  by eapply list_elem_of_lookup_2.
Qed.

Lemma cells_col_keep (m : list bool) (c : column) :
  cells (col_keep m c) = keep m (cells c).
Proof. destruct c; simpl; by rewrite ?keep_fmap. Qed.

Lemma cells_col_take (k : nat) (c : column) :
  cells (col_take k c) = take k (cells c).
Proof. destruct c; simpl; by rewrite ?fmap_take. Qed.

Lemma cells_col_pick (ps : list nat) (c : column) :
  cells (col_pick ps c) = pick (cells c) ps.
Proof. destruct c; simpl; by rewrite ?pick_fmap. Qed.

Lemma cells_col_concat (c1 c2 : column) :
  cells (col_concat c1 c2) = cells c1 ++ cells c2.
Proof. destruct c1, c2; simpl; by rewrite ?fmap_app. Qed.

Lemma lookup_col_None {C : Type} (name : string) (cs : list (string * C)) :
  lookup_col name cs = None <-> name ∉ cs.*1.
Proof.
  induction cs as [|[n c] cs IH]; simpl.
  - split; [intros _; apply not_elem_of_nil | done].
  - destruct (decide (n = name)) as [->|Hne].
    + split; [done | intros Hn; exfalso; apply Hn; by left].
    + rewrite IH, not_elem_of_cons.
      split; [intros ?; split; [by intros -> | done] | by intros [_ ?]].
Qed.

Lemma get_col_None {C : Type} (name : string) (df : DataFrame C) :
  get_col name df = None <-> name ∉ names df.
Proof. apply lookup_col_None. Qed.

Lemma get_col_is_Some {C : Type} (name : string) (df : DataFrame C) :
  name ∈ names df -> is_Some (get_col name df).
Proof.
  intros Hin. destruct (get_col name df) eqn:E; first by eexists.
  by apply get_col_None in E.
Qed.

Lemma lookup_col_fmap {C : Type} (f : C -> C) (name : string)
    (cs : list (string * C)) :
  lookup_col name (prod_map id f <$> cs) = f <$> lookup_col name cs.
Proof.
  induction cs as [|[n c] cs IH]; simpl; first done.
  destruct (decide (n = name)); by simpl.
Qed.

Lemma get_col_map_rows {C : Type} fi (fc : C -> C) (name : string)
    (df : DataFrame C) :
  get_col name (map_rows fi fc df) = fc <$> get_col name df.
Proof. apply lookup_col_fmap. Qed.

Lemma names_map_rows {C : Type} fi (fc : C -> C) (df : DataFrame C) :
  names (map_rows fi fc df) = names df.
Proof.
  unfold names, map_rows; simpl. rewrite <- list_fmap_compose.
  apply list_fmap_ext. by intros ? [].
Qed.

(** ** [select_values] *)

(** C8. On an empty table (no rows or no columns) [select_values] returns
    its input unchanged, without a warning and without looking at the
    annotation column, which may be absent; on a table that is not empty
    a missing annotation column raises [ValueError]. *)
Theorem select_values_empty_bypass (data : Table) (annotation : string)
    (values : option (list value)) :
  (empty data = true ->
     select_values data annotation values = Ok (data, [])) /\
  (empty data = false -> annotation ∉ names data ->
     select_values data annotation values = Raise ValueError).
Proof.
  unfold select_values. split.
  - by intros ->.
  - intros -> Habs%get_col_None. simpl. by rewrite Habs.
Qed.

Lemma select_values_empty_bypass_witness :
  select_values (mkDF [] [("value"%string, IntCol [])]) "annotation"
    (Some [VStr "A"])
  = Ok (mkDF [] [("value"%string, IntCol [])], [])
  /\ select_values (mkDF [Pos 0] [("value"%string, IntCol [7])]) "annotation"
       (Some [VStr "A"])
     = Raise ValueError.
Proof.
  split.
  - apply (proj1 (select_values_empty_bypass _ _ _)). reflexivity.
  - apply (proj2 (select_values_empty_bypass _ _ _)).
    + reflexivity.
    + apply not_elem_of_cons; split; [done | apply not_elem_of_nil].
Defined.

(** ** Stacking frames *)

Lemma lookup_col_app {C : Type} (name : string) (l1 l2 : list (string * C)) :
  lookup_col name (l1 ++ l2)
  = match lookup_col name l1 with
    | Some c => Some c
    | None => lookup_col name l2
    end.
Proof.
  induction l1 as [|[n c] l1 IH]; simpl; first done.
  by destruct (decide (n = name)).
Qed.

Lemma lookup_col_fmap_named {C : Type} (F : string -> C -> C) (name : string)
    (cs : list (string * C)) :
  lookup_col name ((fun nc : string * C => (nc.1, F nc.1 nc.2)) <$> cs)
  = F name <$> lookup_col name cs.
Proof.
  induction cs as [|[n c] cs IH]; simpl; first done.
  destruct (decide (n = name)) as [->|]; by simpl.
Qed.

Lemma get_col_concat2 (name : string) (a b : Table) (ca cb : column) :
  get_col name a = Some ca -> get_col name b = Some cb ->
  get_col name (concat2 a b) = Some (col_concat ca cb).
Proof.
  unfold get_col, concat2; simpl. intros Ha Hb.
  rewrite lookup_col_app.
  rewrite (lookup_col_fmap_named
             (fun n c => col_concat c
                (default (ObjCol (replicate (nrows b) VNaN)) (get_col n b)))).
  rewrite Ha. simpl. unfold get_col. by rewrite Hb.
Qed.

Lemma annotation_cells_concat2 (name : string) (a b : Table) :
  is_Some (get_col name a) -> is_Some (get_col name b) ->
  is_Some (get_col name (concat2 a b))
  /\ annotation_cells name (concat2 a b)
     = annotation_cells name a ++ annotation_cells name b.
Proof.
  intros [ca Ha] [cb Hb]. unfold annotation_cells.
  rewrite (get_col_concat2 _ _ _ _ _ Ha Hb), Ha, Hb.
  split; [by eexists | apply cells_col_concat].
Qed.

(** The stack of a list of frames that all have the column [name]: its
    cells in that column and its index are those of the frames, in
    order. *)
Lemma foldl_concat2_spec (name : string) (fs : list Table) (f : Table) :
  is_Some (get_col name f) ->
  Forall (fun x => is_Some (get_col name x)) fs ->
  is_Some (get_col name (foldl concat2 f fs))
  /\ annotation_cells name (foldl concat2 f fs)
     = mjoin (annotation_cells name <$> (f :: fs))
  /\ index (foldl concat2 f fs) = mjoin (index <$> (f :: fs)).
Proof.
  revert f. induction fs as [|x fs IH]; intros f Hf Hfs.
  - simpl. by rewrite !app_nil_r.
  - inversion Hfs as [|? ? Hx Hfs']; subst.
    destruct (annotation_cells_concat2 name f x Hf Hx) as [Hs Hc].
    destruct (IH (concat2 f x) Hs Hfs') as (Hs' & Hc' & Hi').
    simpl. split; first done. split.
    + rewrite Hc'. simpl. rewrite Hc. by rewrite <- app_assoc.
    + rewrite Hi'. simpl. by rewrite <- app_assoc.
Qed.

(** ** Counting the rows of a group *)

Lemma group_size_app (g : value) (l1 l2 : list value) :
  group_size g (l1 ++ l2) = (group_size g l1 + group_size g l2)%nat.
Proof. unfold group_size. by rewrite filter_app, length_app. Qed.

Lemma group_size_all (g : value) (l : list value) :
  Forall (fun k => k = g) l -> group_size g l = length l.
Proof.
  unfold group_size. induction 1 as [|k l -> _ IH]; first done.
  rewrite filter_cons. destruct (decide (g = g)); last done.
  simpl. by rewrite IH.
Qed.

Lemma group_size_none (g : value) (l : list value) :
  Forall (fun k => k ≠ g) l -> group_size g l = 0%nat.
Proof.
  unfold group_size. induction 1 as [|k l Hk _ IH]; first done.
  rewrite filter_cons. by destruct (decide (k = g)).
Qed.

(** The rows of the group [g] in a stack of parts, one part per key,
    where the part of a key only holds rows of that key. *)
Lemma group_size_join (part : value -> list value) (keys : list value)
    (g : value) :
  NoDup keys ->
  (forall g', Forall (fun k => k = g') (part g')) ->
  group_size g (mjoin (part <$> keys))
  = if decide (g ∈ keys) then length (part g) else 0%nat.
Proof.
  intros Hnd Hpart. induction Hnd as [|k keys Hk Hnd IH]; first done.
  rewrite fmap_cons. simpl. rewrite group_size_app, IH.
  destruct (decide (k = g)) as [->|Hne].
  - rewrite group_size_all by done.
    destruct (decide (g ∈ g :: keys)) as [_|Hn];
      last (exfalso; apply Hn; by left).
    destruct (decide (g ∈ keys)); [done | lia].
  - rewrite group_size_none.
    + destruct (decide (g ∈ keys)) as [Hin|Hnin];
        destruct (decide (g ∈ k :: keys)) as [Hin'|Hnin']; try done.
      * exfalso; apply Hnin'; by right.
      * apply elem_of_cons in Hin' as [->|?]; done.
    + eapply Forall_impl; first apply (Hpart k). by intros ? ->.
Qed.

(** Every row belongs to exactly one group. *)
Lemma sum_group_sizes (keys l : list value) :
  NoDup keys -> (forall x, x ∈ l -> x ∈ keys) ->
  sum_list ((fun g => group_size g l) <$> keys) = length l.
Proof.
  intros Hnd. induction l as [|x l IH]; intros Hin.
  - rewrite (sum_list_fmap_same 0); [simpl; lia | by apply Forall_forall].
  - assert (Hone : forall ks, NoDup ks ->
              sum_list ((fun g => group_size g (x :: l)) <$> ks)
              = ((if decide (x ∈ ks) then 1 else 0)
                 + sum_list ((fun g => group_size g l) <$> ks))%nat).
    { clear. induction 1 as [|k ks Hk Hnd IH]; first done.
      rewrite !fmap_cons. simpl. rewrite IH.
      unfold group_size at 1. rewrite filter_cons.
      destruct (decide (x = k)) as [->|Hne].
      - destruct (decide (k ∈ k :: ks)) as [_|Hn];
          last (exfalso; apply Hn; by left).
        destruct (decide (k ∈ ks)); first done.
        simpl. unfold group_size. lia.
      - destruct (decide (x ∈ ks)) as [Hin|Hnin];
          destruct (decide (x ∈ k :: ks)) as [Hin'|Hnin'];
          try (unfold group_size; lia).
        + exfalso; apply Hnin'; by right.
        + apply elem_of_cons in Hin' as [->|?]; done. }
    rewrite Hone by done.
    destruct (decide (x ∈ keys)) as [_|Hn];
      last (exfalso; apply Hn, Hin; by left).
    rewrite IH; first done. intros y Hy. apply Hin. by right.
Qed.

(** ** [downsample_cells] *)

Lemma group_keys_NoDup (ks : list value) : NoDup (group_keys ks).
Proof.
  unfold group_keys. rewrite merge_sort_Permutation. apply NoDup_remove_dups.
Qed.

Lemma elem_of_group_keys (g : value) (ks : list value) :
  g ∈ group_keys ks <-> g ∈ present ks.
Proof.
  unfold group_keys, present.
  by rewrite merge_sort_Permutation, elem_of_remove_dups.
Qed.

Lemma elem_of_present (g : value) (ks : list value) :
  g ∈ present ks <-> g ∈ ks /\ g ≠ VNaN.
Proof. unfold present. rewrite list_elem_of_filter. tauto. Qed.

Lemma group_size_present (g : value) (ks : list value) :
  g ≠ VNaN -> group_size g (present ks) = group_size g ks.
Proof.
  intros Hg. unfold group_size, present. f_equal.
  apply list_filter_filter_l. by intros k ->.
Qed.

Lemma group_size_pos (g : value) (ks : list value) :
  g ∈ ks -> (0 < group_size g ks)%nat.
Proof.
  intros Hin. unfold group_size.
  assert (Hg : g ∈ filter (fun k => k = g) ks) by (by apply list_elem_of_filter).
  destruct (filter (fun k => k = g) ks); [by apply elem_of_nil in Hg | simpl; lia].
Qed.

Lemma series_get_fmap {A : Type} (F : value -> A) (d : A) (g : value)
    (l : list value) :
  g ∈ l -> series_get g d ((fun k => (k, F k)) <$> l) = F g.
Proof.
  induction l as [|k l IH]; first by intros ?%elem_of_nil.
  intros Hin. simpl. destruct (decide (k = g)) as [->|Hne]; first done.
  apply IH. by apply elem_of_cons in Hin as [->|?].
Qed.

(** The entry of a group in [n_samples_per_group]. *)
Lemma n_samples_per_group_get (cast : nat -> nat -> Z -> Z)
    (ks : list value) (n : Z) (g : value) :
  g ∈ present ks ->
  series_get g 0
    ((fun gf : value * (nat * nat) => (gf.1, cast gf.2.1 gf.2.2 n))
       <$> value_counts ks)
  = cast (group_size g ks) (length (present ks)) n.
Proof.
  intros Hg. unfold value_counts. rewrite <- list_fmap_compose.
  fold (present ks).
  rewrite (list_fmap_ext _
             (fun k => (k, cast (group_size k (present ks))
                                (length (present ks)) n)))
    by done.
  rewrite (series_get_fmap
             (fun k => cast (group_size k (present ks))
                            (length (present ks)) n))
    by (by apply elem_of_remove_dups).
  rewrite group_size_present; first done.
  by apply elem_of_present in Hg as [_ ?].
Qed.

(** For a sample count that is not negative the truncation is a floor,
    and the share capped by the group is the quota. *)
Lemma share_quota (ks : list value) (n : Z) (g : value) :
  0 <= n -> g ∈ present ks ->
  let k := Z.min (share (group_size g ks) (length (present ks)) n)
                 (Z.of_nat (group_size g ks)) in
  0 <= k /\ Z.to_nat k = quota n ks g.
Proof.
  intros Hn Hg. simpl. unfold share, quota.
  assert (0 < length (present ks))%nat.
  { destruct (present ks); [by apply elem_of_nil in Hg | simpl; lia]. }
  rewrite Z.quot_div_nonneg by lia.
  split; last done.
  apply Z.min_glb; last lia. apply Z.div_pos; lia.
Qed.

Lemma well_formed_col (data : Table) (name : string) (col : column) :
  well_formed data = true -> get_col name data = Some col ->
  length (cells col) = nrows data.
Proof.
  unfold well_formed, get_col. generalize (nrows data) as m.
  intros m. induction (columns data) as [|[n c] cs IH]; simpl; first done.
  intros [Hc Hcs]%andb_prop.
  destruct (decide (n = name)).
  - intros [= <-]. by apply Nat.eqb_eq in Hc.
  - by apply IH.
Qed.

Section group_frames.
Variables (data : Table) (annotation : string) (col : column).
Hypothesis Hwf : well_formed data = true.
Hypothesis Hcol : get_col annotation data = Some col.

Let ks := cells col.
Let group_data (g : value) := loc_mask (key_mask g ks) data.

Lemma group_data_cells (g : value) :
  get_col annotation (group_data g) = Some (col_keep (key_mask g ks) col)
  /\ annotation_cells annotation (group_data g) = filter (fun k => k = g) ks.
Proof.
  unfold group_data, loc_mask, annotation_cells.
  rewrite get_col_map_rows, Hcol. simpl. split; first done.
  rewrite cells_col_keep. apply keep_mask_filter.
Qed.

Lemma group_data_nrows (g : value) :
  nrows (group_data g) = group_size g ks.
Proof.
  unfold group_data, loc_mask, nrows, map_rows, key_mask; simpl.
  apply length_keep_mask. symmetry. by apply well_formed_col with annotation.
Qed.
End group_frames.

Lemma length_pick_in_range {A : Type} (l : list A) (ps : list nat) :
  Forall (fun p => (p < length l)%nat) ps -> length (pick l ps) = length ps.
Proof.
  unfold pick. induction 1 as [|p ps Hp _ IH]; csimpl; first done.
  destruct (lookup_lt_is_Some_2 l p Hp) as [x ->]. csimpl. by rewrite IH.
Qed.

Lemma quota_le_size (n : Z) (ks : list value) (g : value) :
  (quota n ks g <= group_size g ks)%nat.
Proof. unfold quota. lia. Qed.

Lemma taken_le (s : Z) (size : nat) : (taken s size <= size)%nat.
Proof. unfold taken. destruct (0 <=? Z.min s (Z.of_nat size)); lia. Qed.

Lemma taken_nonneg (s : Z) (size : nat) :
  0 <= s -> taken s size = Z.to_nat (Z.min s (Z.of_nat size)).
Proof.
  intros Hs. unfold taken. by rewrite (proj2 (Z.leb_le _ _)) by lia.
Qed.

Section parts.
Variables (rng : nat -> nat -> list nat) (rand : bool).
Variables (data : Table) (annotation : string) (col : column).
Variable quota_of : value -> nat.
Hypothesis Hwf : well_formed data = true.
Hypothesis Hrng : rand = true -> rng_ok rng.
Hypothesis Hcol : get_col annotation data = Some col.
Hypothesis Hquota : forall g, (quota_of g <= group_size g (cells col))%nat.

Local Abbreviation ks := (cells col).
Local Abbreviation part := (part_of rng rand quota_of ks data).

(** A part holds [quota_of g] rows, all of the group [g]. *)
Lemma part_of_cells (g : value) :
  is_Some (get_col annotation (part g))
  /\ Forall (fun k => k = g) (annotation_cells annotation (part g))
  /\ length (annotation_cells annotation (part g)) = quota_of g
  /\ nrows (part g) = quota_of g.
Proof.
  destruct (group_data_cells data annotation col Hcol g) as [Hget Hcells].
  pose proof (group_data_nrows data annotation col Hwf Hcol g) as Hrows.
  pose proof (Hquota g) as Hq.
  assert (Hall : Forall (fun k => k = g) (filter (fun k => k = g) ks)).
  { apply Forall_forall. by intros k [? _]%list_elem_of_filter. }
  unfold part_of, annotation_cells. destruct rand.
  - destruct (Hrng eq_refl (quota_of g) (group_size g ks) Hq)
      as (Hlen & _ & Hrange).
    unfold iloc. rewrite get_col_map_rows, Hget. simpl.
    rewrite cells_col_pick, cells_col_keep.
    unfold annotation_cells in Hcells. rewrite Hget in Hcells.
    rewrite cells_col_keep in Hcells. rewrite Hcells, Hrows.
    split; first by eexists. split.
    { apply Forall_forall. intros k Hk%pick_elem_of.
      by apply list_elem_of_filter in Hk as [? _]. }
    split.
    + by rewrite length_pick_in_range.
    + unfold nrows; simpl. rewrite length_pick_in_range; first done.
      unfold nrows in Hrows; simpl in Hrows. by rewrite Hrows.
  - unfold take_rows. rewrite get_col_map_rows, Hget. simpl.
    rewrite cells_col_take, cells_col_keep.
    unfold annotation_cells in Hcells. rewrite Hget in Hcells.
    rewrite cells_col_keep in Hcells. rewrite Hcells.
    split; first by eexists. split.
    { eapply Forall_take in Hall. exact Hall. }
    split.
    + rewrite length_take. unfold group_size in Hq. lia.
    + unfold nrows; simpl. rewrite length_take.
      unfold nrows in Hrows; simpl in Hrows. rewrite Hrows. lia.
Qed.

Variable out : Table.
Hypothesis Hout : concat (part <$> group_keys ks) = Ok out.

Lemma parts_out_spec :
  annotation_cells annotation out
  = mjoin ((fun g => annotation_cells annotation (part g)) <$> group_keys ks)
  /\ nrows out = sum_list (quota_of <$> group_keys ks).
Proof.
  unfold concat in Hout.
  destruct (group_keys ks) as [|g gs] eqn:Hkeys; first done.
  rewrite fmap_cons in Hout. injection Hout as <-.
  destruct (foldl_concat2_spec annotation (part <$> gs) (part g))
    as (_ & Hc & Hi).
  { apply part_of_cells. }
  { apply Forall_fmap, Forall_forall. intros g' _. apply part_of_cells. }
  split.
  - rewrite Hc, <- fmap_cons. by rewrite <- list_fmap_compose.
  - unfold nrows. rewrite Hi, <- fmap_cons, length_join.
    rewrite <- !list_fmap_compose. f_equal.
    apply list_fmap_ext. intros _ g' _. simpl. apply part_of_cells.
Qed.

Lemma parts_rows_of (g : value) :
  rows_of annotation g out
  = if decide (g ∈ group_keys ks) then quota_of g else 0%nat.
Proof.
  unfold rows_of. rewrite (proj1 parts_out_spec).
  rewrite (group_size_join
             (fun g' => annotation_cells annotation (part g'))).
  - destruct (decide (g ∈ group_keys ks)); last done. apply part_of_cells.
  - apply group_keys_NoDup.
  - intros g'. apply part_of_cells.
Qed.
End parts.

Section stratified_cast.
Variables (rng : nat -> nat -> list nat) (cast : nat -> nat -> Z -> Z).
Variables (rand : bool) (n : Z).
Variables (data : Table) (annotation : string) (col : column).
Hypothesis Hwf : well_formed data = true.
Hypothesis Hcol : get_col annotation data = Some col.

Local Abbreviation ks := (cells col).
Local Abbreviation rows := (fun g =>
  taken (cast (group_size g ks) (length (present ks)) n) (group_size g ks)).
Local Abbreviation part := (part_of rng rand rows ks data).

(** When the loop of the stratified branch returns, it has taken from
    every group the rows that [head] or [sample] return for the share
    of the group, whatever the arithmetic of the shares. *)
Lemma stratified_samples_inv (keys : list value) (parts : list Table) :
  Forall (fun g => g ∈ present ks) keys ->
  stratified_samples rng rand
    ((fun gf : value * (nat * nat) => (gf.1, cast gf.2.1 gf.2.2 n))
       <$> value_counts ks)
    ((fun g => (g, loc_mask (key_mask g ks) data)) <$> keys)
  = Ok parts ->
  parts = part <$> keys.
Proof.
  intros Hkeys. revert parts.
  induction Hkeys as [|g keys Hg _ IH]; intros parts.
  - simpl. by intros [= <-].
  - rewrite !fmap_cons. cbn [stratified_samples].
    rewrite (n_samples_per_group_get cast) by done.
    rewrite (group_data_nrows data annotation col Hwf Hcol g).
    set (s := cast (group_size g ks) (length (present ks)) n).
    destruct (stratified_samples rng rand _ _) as [ss|e] eqn:Hrest; last first.
    { destruct rand; last done.
      by destruct (sample rng _ _). }
    rewrite (IH ss eq_refl).
    assert (Hhead : head (Z.min s (Z.of_nat (group_size g ks)))
                      (loc_mask (key_mask g ks) data)
                    = part_of rng false rows ks data g).
    { unfold head, part_of, taken.
      rewrite (group_data_nrows data annotation col Hwf Hcol g). fold s.
      by destruct (0 <=? Z.min s (Z.of_nat (group_size g ks))). }
    destruct rand.
    + unfold sample.
      rewrite (group_data_nrows data annotation col Hwf Hcol g).
      destruct (Z.min s (Z.of_nat (group_size g ks)) <? 0) eqn:Hneg;
        first done.
      destruct (Z.of_nat (group_size g ks)
                <? Z.min s (Z.of_nat (group_size g ks))); first done.
      simpl. intros [= <-]. f_equal. unfold part_of, taken.
      rewrite (group_data_nrows data annotation col Hwf Hcol g).
      apply Z.ltb_ge in Hneg. fold s. by rewrite (proj2 (Z.leb_le _ _)).
    + simpl. intros [= <-]. by rewrite Hhead.
Qed.

Lemma downsample_stratified_inv (out : Table) :
  downsample_cells_with rng cast data annotation (Some n) true rand = Ok out ->
  concat (part <$> group_keys ks) = Ok out.
Proof.
  unfold downsample_cells_with, groupby. rewrite Hcol.
  destruct (stratified_samples rng rand _ _) as [parts|] eqn:Hparts; last done.
  apply stratified_samples_inv in Hparts as ->; first done.
  apply Forall_forall. intros g. by rewrite elem_of_group_keys.
Qed.

(** Taking the first rows never fails: with [rand] false the stratified
    branch returns as soon as there is a group. *)
Lemma stratified_samples_head (per_group : list (value * Z))
    (groups : list (value * Table)) :
  exists parts,
    stratified_samples rng false per_group groups = Ok parts
    /\ length parts = length groups.
Proof.
  induction groups as [|[g gd] groups (parts & IH & Hlen)]; first by exists [].
  cbn [stratified_samples]. rewrite IH. simpl. eexists. split; first done.
  simpl. by rewrite Hlen.
Qed.
End stratified_cast.

Section stratified.
Variables (rng : nat -> nat -> list nat) (rand : bool) (n : Z).
Variables (data : Table) (annotation : string) (col : column).
Hypothesis Hwf : well_formed data = true.
Hypothesis Hn : 0 <= n.
Hypothesis Hrng : rand = true -> rng_ok rng.
Hypothesis Hcol : get_col annotation data = Some col.

Local Abbreviation ks := (cells col).
Local Abbreviation part := (stratified_part rng rand n ks data).

Lemma stratified_samples_parts (keys : list value) :
  Forall (fun g => g ∈ present ks) keys ->
  stratified_samples rng rand
    ((fun gf : value * (nat * nat) => (gf.1, share gf.2.1 gf.2.2 n))
       <$> value_counts ks)
    ((fun g => (g, loc_mask (key_mask g ks) data)) <$> keys)
  = Ok (part <$> keys).
Proof.
  induction 1 as [|g keys Hg _ IH]; first done.
  rewrite !fmap_cons. cbn [stratified_samples]. rewrite IH.
  rewrite (n_samples_per_group_get share) by done.
  rewrite (group_data_nrows data annotation col Hwf Hcol g).
  destruct (share_quota ks n g Hn Hg) as [Hk Hq].
  unfold stratified_part at 2. unfold part_of.
  rewrite (group_data_nrows data annotation col Hwf Hcol g).
  destruct rand.
  - unfold sample.
    rewrite (group_data_nrows data annotation col Hwf Hcol g).
    rewrite (proj2 (Z.ltb_ge _ _)) by done.
    rewrite (proj2 (Z.ltb_ge _ _)) by apply Z.le_min_r.
    simpl. by rewrite Hq.
  - unfold head. rewrite (proj2 (Z.leb_le _ _)) by done.
    simpl. by rewrite Hq.
Qed.

(** The stratified branch stacks the parts of the groups, in the order
    of the sorted keys. *)
Lemma downsample_stratified_eq :
  downsample_cells rng data annotation (Some n) true rand
  = concat (part <$> group_keys ks).
Proof.
  unfold downsample_cells, downsample_cells_with, groupby. rewrite Hcol.
  rewrite stratified_samples_parts; first done.
  apply Forall_forall. intros g. by rewrite elem_of_group_keys.
Qed.

Lemma part_cells (g : value) :
  is_Some (get_col annotation (part g))
  /\ Forall (fun k => k = g) (annotation_cells annotation (part g))
  /\ length (annotation_cells annotation (part g)) = quota n ks g
  /\ nrows (part g) = quota n ks g.
Proof.
  unfold stratified_part.
  apply (part_of_cells rng rand data annotation col (quota n ks) Hwf Hrng Hcol
           (quota_le_size n ks)).
Qed.
End stratified.

(** The quotas of the groups add up to at most the sample count. *)
Lemma sum_quota_scaled (n : Z) (ks keys : list value) :
  0 <= n ->
  (sum_list (quota n ks <$> keys) * length (present ks)
   <= sum_list ((fun g => group_size g ks) <$> keys) * Z.to_nat n)%nat.
Proof.
  intros Hn. induction keys as [|g keys IH]; first done.
  rewrite !fmap_cons. simpl.
  assert (quota n ks g * length (present ks)
          <= group_size g ks * Z.to_nat n)%nat; last lia.
  unfold quota.
  set (s := group_size g ks). set (t := length (present ks)).
  destruct (decide (t = 0%nat)) as [->|Ht]; first lia.
  pose proof (Z.mul_div_le (Z.of_nat s * n) (Z.of_nat t)) as Hdiv.
  assert (0 <= Z.of_nat s * n / Z.of_nat t) by (apply Z.div_pos; lia).
  nia.
Qed.

Lemma sum_quota_le (n : Z) (ks : list value) :
  0 <= n -> Z.of_nat (sum_list (quota n ks <$> group_keys ks)) <= n.
Proof.
  intros Hn. pose proof (sum_quota_scaled n ks (group_keys ks) Hn) as Hs.
  assert (Hsum : sum_list ((fun g => group_size g ks) <$> group_keys ks)
                 = length (present ks)).
  { rewrite <- (sum_group_sizes (group_keys ks) (present ks)).
    - f_equal. apply list_fmap_ext. intros _ g Hg%list_elem_of_lookup_2.
      symmetry. apply group_size_present.
      by apply elem_of_group_keys, elem_of_present in Hg as [_ ?].
    - apply group_keys_NoDup.
    - intros g. by rewrite elem_of_group_keys. }
  rewrite Hsum in Hs.
  destruct (present ks) as [|k pr] eqn:Hpr.
  - assert (Hnil : group_keys ks = []).
    { destruct (group_keys ks) as [|g gs] eqn:E; first done.
      assert (Hg : g ∈ group_keys ks) by (rewrite E; by left).
      apply elem_of_group_keys in Hg. rewrite Hpr in Hg.
      by apply elem_of_nil in Hg. }
    rewrite Hnil. simpl. lia.
  - simpl in Hs. nia.
Qed.

Section stratified_result.
Variables (rng : nat -> nat -> list nat) (rand : bool) (n : Z).
Variables (data : Table) (annotation : string) (col : column) (out : Table).
Hypothesis Hwf : well_formed data = true.
Hypothesis Hn : 0 <= n.
Hypothesis Hrng : rand = true -> rng_ok rng.
Hypothesis Hcol : get_col annotation data = Some col.
Hypothesis Hout : concat (stratified_part rng rand n (cells col) data
                            <$> group_keys (cells col)) = Ok out.

Local Abbreviation ks := (cells col).
Local Abbreviation part := (stratified_part rng rand n ks data).

Lemma stratified_out_spec :
  annotation_cells annotation out
  = mjoin ((fun g => annotation_cells annotation (part g)) <$> group_keys ks)
  /\ nrows out = sum_list (quota n ks <$> group_keys ks).
Proof.
  apply (parts_out_spec rng rand data annotation col (quota n ks) Hwf Hrng Hcol
           (quota_le_size n ks) out Hout).
Qed.

Lemma stratified_rows_of (g : value) :
  rows_of annotation g out
  = if decide (g ∈ group_keys ks) then quota n ks g else 0%nat.
Proof.
  apply (parts_rows_of rng rand data annotation col (quota n ks) Hwf Hrng Hcol
           (quota_le_size n ks) out Hout).
Qed.

Lemma stratified_total : Z.of_nat (nrows out) <= n.
Proof. rewrite (proj2 stratified_out_spec). by apply sum_quota_le. Qed.
End stratified_result.

Lemma annotation_cells_reset_index (annotation : string) (df : Table) :
  annotation_cells annotation (reset_index df) = annotation_cells annotation df.
Proof. done. Qed.

Lemma nrows_reset_index {C : Type} (df : DataFrame C) :
  nrows (reset_index df) = nrows df.
Proof.
  unfold reset_index, nrows at 1, range_index. simpl.
  by rewrite length_fmap, length_seq.
Qed.

Section non_stratified.
Variables (rng : nat -> nat -> list nat) (rand : bool) (n : Z).
Variables (data : Table) (annotation : string) (col : column).
Hypothesis Hwf : well_formed data = true.
Hypothesis Hn : 0 <= n.
Hypothesis Hcol : get_col annotation data = Some col.

Local Abbreviation ks := (cells col).
Local Abbreviation part := (first_rows_part n ks data).

(** The branch without stratification stacks the first rows of every
    group and renumbers the rows. *)
Lemma downsample_plain_eq :
  downsample_cells rng data annotation (Some n) false rand
  = Ok (reset_index
          (match part <$> group_keys ks with
           | [] => take_rows 0 data
           | f :: fs => foldl concat2 f fs
           end)).
Proof.
  unfold downsample_cells, downsample_cells_with, groupby. rewrite Hcol.
  rewrite <- list_fmap_compose.
  rewrite (list_fmap_ext _ part (group_keys ks)); first done.
  intros _ g _. simpl. unfold first_rows_part.
  rewrite (group_data_nrows data annotation col Hwf Hcol g).
  unfold head. rewrite (proj2 (Z.leb_le _ _)) by lia.
  f_equal. lia.
Qed.

Lemma first_rows_part_cells (g : value) :
  is_Some (get_col annotation (part g))
  /\ Forall (fun k => k = g) (annotation_cells annotation (part g))
  /\ length (annotation_cells annotation (part g))
     = Nat.min (Z.to_nat n) (group_size g ks)
  /\ nrows (part g) = Nat.min (Z.to_nat n) (group_size g ks).
Proof.
  destruct (group_data_cells data annotation col Hcol g) as [Hget Hcells].
  pose proof (group_data_nrows data annotation col Hwf Hcol g) as Hrows.
  unfold first_rows_part, take_rows, annotation_cells.
  rewrite get_col_map_rows, Hget. simpl.
  rewrite cells_col_take, cells_col_keep.
  unfold annotation_cells in Hcells. rewrite Hget in Hcells.
  rewrite cells_col_keep in Hcells. rewrite Hcells.
  split; first by eexists. split.
  { apply Forall_take, Forall_forall. by intros k [? _]%list_elem_of_filter. }
  split.
  - rewrite length_take. unfold group_size. lia.
  - unfold nrows; simpl. rewrite length_take.
    unfold nrows in Hrows; simpl in Hrows. rewrite Hrows. lia.
Qed.

Lemma plain_out_spec (out : Table) :
  downsample_cells rng data annotation (Some n) false rand = Ok out ->
  annotation_cells annotation out
  = mjoin ((fun g => annotation_cells annotation (part g)) <$> group_keys ks)
  /\ nrows out
     = sum_list ((fun g => Nat.min (Z.to_nat n) (group_size g ks))
                   <$> group_keys ks).
Proof.
  rewrite downsample_plain_eq. intros [= <-].
  rewrite annotation_cells_reset_index, nrows_reset_index.
  destruct (group_keys ks) as [|g gs] eqn:Hkeys.
  - simpl. unfold annotation_cells, take_rows.
    rewrite get_col_map_rows, Hcol. simpl.
    by rewrite cells_col_take, take_0.
  - rewrite fmap_cons.
    destruct (foldl_concat2_spec annotation (part <$> gs) (part g))
      as (_ & Hc & Hi).
    { apply first_rows_part_cells. }
    { apply Forall_fmap, Forall_forall. intros g' _.
      apply first_rows_part_cells. }
    split.
    + rewrite Hc, <- fmap_cons. by rewrite <- list_fmap_compose.
    + unfold nrows at 1. rewrite Hi, <- !fmap_cons, length_join.
      rewrite <- !list_fmap_compose. f_equal.
      apply list_fmap_ext. intros _ g' _. simpl.
      apply first_rows_part_cells.
Qed.

Lemma plain_rows_of (out : Table) (g : value) :
  downsample_cells rng data annotation (Some n) false rand = Ok out ->
  rows_of annotation g out
  = if decide (g ∈ group_keys ks)
    then Nat.min (Z.to_nat n) (group_size g ks) else 0%nat.
Proof.
  intros Hout. unfold rows_of. rewrite (proj1 (plain_out_spec out Hout)).
  rewrite (group_size_join
             (fun g' => annotation_cells annotation (part g'))).
  - destruct (decide (g ∈ group_keys ks)); last done.
    apply first_rows_part_cells.
  - apply group_keys_NoDup.
  - intros g'. apply first_rows_part_cells.
Qed.
End non_stratified.

Lemma sum_list_fmap_le {A : Type} (f : A -> nat) (b : nat) (l : list A) :
  (forall x, f x <= b)%nat -> (sum_list (f <$> l) <= b * length l)%nat.
Proof.
  intros Hb. induction l as [|x l IH]; first (simpl; lia).
  rewrite fmap_cons.
  change (sum_list (f x :: (f <$> l))) with (f x + sum_list (f <$> l))%nat.
  rewrite length_cons, Nat.mul_succ_r. specialize (Hb x). lia.
Qed.

Lemma last_rows_ok : rng_ok last_rows.
Proof.
  intros k n Hk. unfold last_rows. split; first by rewrite length_seq.
  split; first apply NoDup_seq.
  apply Forall_forall. intros p Hp%elem_of_seq. lia.
Qed.

(** The branch without stratification computes no share: it is the same
    function whatever the arithmetic of the shares. *)
Lemma downsample_plain_any_share (rng : nat -> nat -> list nat)
    (cast1 cast2 : nat -> nat -> Z -> Z) (data : Table) (annotation : string)
    (n_samples : option Z) (rand : bool) :
  downsample_cells_with rng cast1 data annotation n_samples false rand
  = downsample_cells_with rng cast2 data annotation n_samples false rand.
Proof.
  unfold downsample_cells_with.
  destruct (get_col annotation data); last done. by destruct n_samples.
Qed.







(** ** [append_observation] *)

Lemma split_length (c : ascii) (s : string) :
  length (split c s) = S (count_char c s).
Proof.
  induction s as [|a s IH]; simpl; first done.
  destruct (decide (a = c)); simpl; first by rewrite IH.
  destruct (split c s); simpl in *; lia.
Qed.

Lemma contains_count (c : ascii) (s : string) :
  (0 < count_char c s)%nat -> contains c s = true.
Proof.
  induction s as [|a s IH]; simpl; first lia.
  destruct (decide (a = c)); [done | simpl; exact IH].
Qed.

Lemma split_one_separator (c : ascii) (rule : string) :
  count_char c rule = 1%nat -> exists s t, split c rule = [s; t].
Proof.
  intros Hc. pose proof (split_length c rule) as Hl. rewrite Hc in Hl.
  destruct (split c rule) as [|s [|t [|? ?]]]; try done. by exists s, t.
Qed.

Lemma set_where_length {A : Type} (m : list bool) (v : A) (l : list A) :
  length (set_where m v l) = length l.
Proof.
  revert m; induction l as [|x l IH]; intros [|b m]; simpl; try done.
  by rewrite IH.
Qed.

Lemma set_where_lookup {A : Type} (m : list bool) (v : A) (l : list A)
    (i : nat) (x : A) :
  set_where m v l !! i = Some x ->
  l !! i = Some x \/ (x = v /\ m !! i = Some true).
Proof.
  revert m i; induction l as [|y l IH]; intros [|b m] i; simpl; try by left.
  destruct i as [|i]; simpl.
  - destruct b; intros [= <-]; [by right | by left].
  - apply IH.
Qed.

(** Every cell of the new column is its former value or the target of a
    rule whose source is the string of the source cell of the row. *)
Lemma apply_rules_spec (source : list value) (rules : list string)
    (new_col : list value) :
  Forall (fun rule => count_char ":" rule = 1%nat) rules ->
  exists out,
    apply_rules source rules new_col = Ok out
    /\ length out = length new_col
    /\ forall i v, out !! i = Some v ->
         new_col !! i = Some v
         \/ exists rule s t,
              rule ∈ rules /\ split ":" rule = [s; t]
              /\ v = VStr t /\ source !! i = Some (VStr s).
Proof.
  intros Hrules. revert new_col.
  induction Hrules as [|rule rules Hrule _ IH]; intros new_col.
  - exists new_col. split; first done. split; first done. by left.
  - destruct (split_one_separator _ _ Hrule) as (s & t & Hsplit).
    simpl. rewrite Hsplit.
    destruct (IH (set_where ((fun s0 => bool_decide (s0 = VStr s)) <$> source)
                            (VStr t) new_col)) as (out & Hout & Hlen & Hcells).
    exists out. split; first done. split.
    { by rewrite Hlen, set_where_length. }
    intros i v Hv. destruct (Hcells i v Hv) as [Hset|(r & s' & t' & Hr & ?)].
    + apply set_where_lookup in Hset as [?|[-> Hm]]; first by left.
      right. exists rule, s, t. split; first by left. split; first done.
      split; first done.
      rewrite list_lookup_fmap in Hm.
      destruct (source !! i) as [v0|]; last done.
      simpl in Hm. injection Hm as Hm. by apply bool_decide_eq_true in Hm as ->.
    + right. exists r, s', t'. split; [by right | done].
Qed.

Lemma Z_of_str_of_Z (z : Z) : Z_of_str (str_of_Z z) = Some z.
Proof.
  unfold Z_of_str, str_of_Z. rewrite NilZero.isi.
  - simpl. by rewrite DecimalZ.of_to.
  - destruct z; simpl; try done.
    intros [= H]. by apply DecimalPos.Unsigned.to_uint_nonnil in H.
  - destruct z; simpl; try done.
    intros [= H]. by apply DecimalPos.Unsigned.to_uint_nonnil in H.
Qed.

(** The source column converted to strings converts back to its dtype. *)
Lemma astype_restores (src : column) :
  exists restored,
    astype (col_dtype src) (astype_str src) = Ok restored
    /\ col_dtype restored = col_dtype src.
Proof.
  destruct src as [l|l|l]; simpl; try by eexists.
  assert (Hl : mapM to_int ((fun v => VStr (to_str v)) <$> (VInt <$> l)) = Ok l).
  { induction l as [|z l IH]; first done.
    rewrite !fmap_cons. simpl. rewrite Z_of_str_of_Z. simpl.
    change (mapM to_int ((fun v => VStr (to_str v)) <$> (VInt <$> l))
            ≫= (fun l' => Ok (z :: l')) = Ok (z :: l)).
    by rewrite IH. }
  rewrite Hl. by eexists.
Qed.

Lemma lookup_assign_col_eq {C : Type} (name : string) (c : C)
    (cs : list (string * C)) :
  lookup_col name (assign_col name c cs) = Some c.
Proof.
  induction cs as [|[n c0] cs IH]; simpl.
  - by rewrite decide_True.
  - destruct (decide (n = name)) as [->|Hne]; simpl.
    + by rewrite decide_True.
    + by rewrite decide_False.
Qed.

Lemma lookup_assign_col_ne {C : Type} (name other : string) (c : C)
    (cs : list (string * C)) :
  name ≠ other ->
  lookup_col other (assign_col name c cs) = lookup_col other cs.
Proof.
  intros Hne. induction cs as [|[n c0] cs IH]; simpl.
  - by rewrite decide_False.
  - destruct (decide (n = name)) as [->|Hn]; simpl.
    + by rewrite !decide_False.
    + destruct (decide (n = other)); done.
Qed.

Lemma get_set_col_eq (name : string) (c : column) (df : Table) :
  get_col name (set_col name c df) = Some c.
Proof. apply lookup_assign_col_eq. Qed.

Lemma get_set_col_ne (name other : string) (c : column) (df : Table) :
  name ≠ other -> get_col other (set_col name c df) = get_col other df.
Proof. apply lookup_assign_col_ne. Qed.

Lemma rules_pass_validation (rules : list string) :
  Forall (fun rule => count_char ":" rule = 1%nat) rules ->
  forallb (contains ":") rules = true.
Proof.
  induction 1 as [|rule rules Hrule _ IH]; first done.
  simpl. rewrite contains_count by lia. done.
Qed.

(** C5 (as stated): a rule with two separators contains [':'], yet the
    call raises instead of returning a table. *)
Lemma append_observation_two_separators :
  forallb (contains ":") ["a:x:y"%string] = true
  /\ ("group"%string ∉ names docstring_table)
  /\ append_observation {[ 1%positive := docstring_table ]} 1
       "annotation" "group" (RulesList ["a:x:y"%string])
     = (Raise ValueError, {[ 1%positive := docstring_table ]}).
Proof.
  split; first reflexivity. split; last reflexivity.
  unfold names; simpl. rewrite !not_elem_of_cons.
  repeat split; try done. apply not_elem_of_nil.
Qed.

(** C5 (amended). When the source column exists, the new column does
    not, and every rule holds exactly one [':'], [append_observation]
    returns a new frame and leaves the heap, hence its argument, as it
    was.  In the new frame every cell of the new column is
    ["Not_Mapped"] or the target of a rule whose source is the string of
    the source cell of that row, and the source column has the dtype it
    had. *)
Theorem append_observation_spec (h : heap) (data : positive) (df : Table)
    (source_column new_column : string) (rules : list string) (src : column) :
  h !! data = Some df ->
  get_col source_column df = Some src ->
  new_column ∉ names df ->
  Forall (fun rule => count_char ":" rule = 1%nat) rules ->
  exists (r : positive) (out : Table) (new_col : list value) (restored : column),
    append_observation h data source_column new_column (RulesList rules)
    = (Ok r, <[r := out]> h)
    /\ h !! r = None
    /\ (<[r := out]> h) !! data = Some df
    /\ get_col new_column out = Some (ObjCol new_col)
    /\ length new_col = nrows df
    /\ (forall i v, new_col !! i = Some v ->
          v = VStr "Not_Mapped"
          \/ exists rule s t,
               rule ∈ rules /\ split ":" rule = [s; t]
               /\ v = VStr t /\ (to_str <$> cells src) !! i = Some s)
    /\ get_col source_column out = Some restored
    /\ col_dtype restored = col_dtype src.
Proof.
  intros Hdata Hsrc Hnew Hrules.
  assert (Hne : source_column ≠ new_column).
  { intros ->. apply get_col_None in Hnew. congruence. }
  destruct (apply_rules_spec (cells (astype_str src)) rules
              (replicate (nrows df) (VStr "Not_Mapped")) Hrules)
    as (new_col & Happly & Hlen & Hcells).
  destruct (astype_restores src) as (restored & Hrestore & Hdtype).
  assert (Hfresh : h !! fresh (dom h) = None).
  { apply not_elem_of_dom, is_fresh. }
  eexists (fresh (dom h)), _, new_col, restored.
  split; [|split; [exact Hfresh|split; [|split; [|split; [|split; [|split]]]]]].
  - unfold append_observation, append_observation_frame.
    rewrite Hdata, Hsrc. rewrite decide_False by done.
    rewrite rules_pass_validation by done.
    rewrite Happly. simpl. rewrite Hrestore. simpl. reflexivity.
  - rewrite lookup_insert_ne; first done. intros E. congruence.
  - rewrite get_set_col_ne by done. apply get_set_col_eq.
  - by rewrite Hlen, length_replicate.
  - intros i v Hv. destruct (Hcells i v Hv) as [Hrep|(rule & s & t & ? & ? & ? & Hs)].
    + left. by apply lookup_replicate in Hrep as [-> _].
    + right. exists rule, s, t. repeat split; try done.
      simpl in Hs. rewrite list_lookup_fmap in Hs. rewrite list_lookup_fmap.
      destruct (cells src !! i); simpl in *; congruence.
  - apply get_set_col_eq.
  - done.
Qed.

Lemma append_observation_spec_witness :
  exists (r : positive) (out : Table) (new_col : list value) (restored : column),
    append_observation {[ 1%positive := docstring_table ]} 1
      "value" "size" (RulesList ["1:small"; "6:large"]%string)
    = (Ok r, <[r := out]> {[ 1%positive := docstring_table ]})
    /\ get_col "size" out = Some (ObjCol new_col)
    /\ get_col "value" out = Some restored
    /\ col_dtype restored = Int64.
Proof.
  destruct (append_observation_spec {[ 1%positive := docstring_table ]} 1
              docstring_table "value" "size" ["1:small"; "6:large"]%string
              (IntCol [1; 2; 3; 4; 5; 6]))
    as (r & out & new_col & restored & Hcall & _ & _ & Hnew & _ & _ & Hsrc & Hd).
  - reflexivity.
  - reflexivity.
  - unfold names; simpl. rewrite !not_elem_of_cons.
    repeat split; try done. apply not_elem_of_nil.
  - repeat constructor.
  - exists r, out, new_col, restored. repeat split; done.
Defined.

(** ** [bin2cat] *)

Lemma assign_col_fresh {C : Type} (name : string) (c : C)
    (cs : list (string * C)) :
  name ∉ cs.*1 -> assign_col name c cs = cs ++ [(name, c)].
Proof.
  induction cs as [|[n c0] cs IH]; simpl; first done.
  intros [Hne Hnin]%not_elem_of_cons.
  rewrite decide_False by done. by rewrite IH.
Qed.

Lemma mapM_result_length {A B : Type} (f : A -> result B) (l : list A)
    (k : list B) :
  mapM f l = Ok k -> length k = length l.
Proof.
  revert k; induction l as [|x l IH]; intros k; simpl.
  - by intros [= <-].
  - destruct (f x) as [y|]; simpl; last done.
    destruct (mapM f l) as [k'|]; simpl; last done.
    intros [= <-]. simpl. by rewrite (IH k').
Qed.

Lemma mapM_result_lookup {A B : Type} (f : A -> result B) (l : list A)
    (k : list B) (i : nat) (x : A) :
  mapM f l = Ok k -> l !! i = Some x ->
  exists y, k !! i = Some y /\ f x = Ok y.
Proof.
  revert k i. induction l as [|a l IH]; intros k i; first done.
  simpl. destruct (f a) as [b|] eqn:Hfa; last done. simpl.
  destruct (mapM f l) as [k'|] eqn:Hl; last done. simpl.
  intros [= <-]. destruct i as [|i]; simpl.
  - intros [= <-]. by exists b.
  - intros Hx. by apply (IH k').
Qed.

Lemma mapM_result_raise {A B : Type} (f : A -> result B) (l : list A)
    (e : error) (x : A) :
  (forall a, a ∈ l -> f a = Raise e \/ exists b, f a = Ok b) ->
  x ∈ l -> f x = Raise e ->
  mapM f l = Raise e.
Proof.
  induction l as [|a l IH]; intros Hall Hx Hfx; first by apply elem_of_nil in Hx.
  simpl. destruct (Hall a) as [Ha|[b Ha]]; first (by left).
  - by rewrite Ha.
  - rewrite Ha. simpl.
    apply elem_of_cons in Hx as [->|Hx]; first congruence.
    rewrite IH; try done. intros a' Ha'. apply Hall. by right.
Qed.

(** The names that the inner function of [bin2cat] sees in row [i]. *)
Lemma keep_ones (df : Table) (labels : list string) (cols : list column)
    (i : nat) :
  mapM (fun n => match get_col n df with
                 | Some c => Ok c
                 | None => Raise KeyError
                 end) labels = Ok cols ->
  keep (eq_one <$> row_at cols i) labels = ones_of df labels i.
Proof.
  unfold ones_of. revert cols.
  induction labels as [|n labels IH]; intros cols; simpl.
  - by intros [= <-].
  - destruct (get_col n df) as [c|] eqn:Hc; last done. simpl.
    destruct (mapM _ labels) as [cols'|] eqn:Hm; last done. simpl.
    intros [= <-]. unfold row_at. rewrite !fmap_cons. cbn [keep].
    rewrite filter_cons.
    assert (Hone : has_one df i n = eq_one (default VNaN (cells c !! i))).
    { unfold has_one. by rewrite Hc. }
    fold (row_at cols' i). rewrite (IH cols') by done.
    destruct (decide (has_one df i n = true)) as [Ht|Hf]; rewrite Hone in *.
    + by rewrite Ht.
    + by destruct (eq_one (default VNaN (cells c !! i))).
Qed.

Lemma mapM_get_cols (df : Table) (labels : list string) :
  Forall (fun n => n ∈ names df) labels ->
  exists cols,
    mapM (fun n => match get_col n df with
                   | Some c => Ok c
                   | None => Raise KeyError
                   end) labels = Ok cols.
Proof.
  induction 1 as [|n labels Hn _ [cols IH]]; first by eexists.
  simpl. destruct (get_col_is_Some n df Hn) as [c ->]. simpl.
  rewrite IH. simpl. by eexists.
Qed.

Lemma mapM_result_total {A B : Type} (f : A -> result B) (l : list A) :
  (forall x, x ∈ l -> exists y, f x = Ok y) ->
  exists k, mapM f l = Ok k.
Proof.
  induction l as [|x l IH]; intros Hall; first by exists [].
  destruct (Hall x) as [y Hy]; first by left.
  destruct IH as [k Hk]; first (intros x' Hx'; apply Hall; by right).
  exists (y :: k). simpl. by rewrite Hy, Hk.
Qed.

(** C10 (as stated): with an empty list of patterns the call completes
    without an error, yet it adds no column and returns [None], not the
    table. *)
Lemma bin2cat_empty_patterns :
  bin2cat (fun pats cols => filter (fun c => c ∈ pats) cols)
    {[ 1%positive := one_hot_table ]} 1 (PatList []) "new_category"
  = (Ok None, {[ 1%positive := one_hot_table ]}).
Proof. vm_compute. reflexivity. Qed.

(** C10 (amended). On a frame without the new column and for patterns
    given as a string or a list, [bin2cat] without any pattern returns
    [None] and touches nothing.  With patterns that match columns of
    the frame, no row having a one in two of them, it returns the
    reference it received: the new column was appended to that very
    frame of the heap, every other frame is as before and no frame was
    created.  And whenever it returns a table at all, the table is
    that frame, changed in this way. *)
Theorem bin2cat_in_place
    (regex_search_list : list string -> list string -> list string)
    (h : heap) (data : positive) (df : Table)
    (one_hot_annotations : patterns_arg) (new_annotation : string) :
  h !! data = Some df ->
  new_annotation ∉ names df ->
  one_hot_annotations ≠ PatOther ->
  let labels :=
    regex_search_list (patterns_of one_hot_annotations) (names df) in
  let updated categories :=
    <[data := mkDF (index df)
                (columns df ++ [(new_annotation, ObjCol categories)])]> h in
  (patterns_of one_hot_annotations = [] ->
   bin2cat regex_search_list h data one_hot_annotations new_annotation
   = (Ok None, h))
  /\ (patterns_of one_hot_annotations ≠ [] ->
      labels ≠ [] ->
      Forall (fun n => n ∈ names df) labels ->
      (forall i, (i < nrows df)%nat ->
         (length (ones_of df labels i) <= 1)%nat) ->
      exists categories,
        bin2cat regex_search_list h data one_hot_annotations new_annotation
        = (Ok (Some data), updated categories)
        /\ length categories = nrows df
        /\ dom (updated categories) = dom h)
  /\ (forall r h',
        bin2cat regex_search_list h data one_hot_annotations new_annotation
        = (Ok (Some r), h') ->
        r = data
        /\ exists categories,
             h' = updated categories
             /\ length categories = nrows df
             /\ dom h' = dom h).
Proof.
  intros Hdata Hnew Hother labels updated.
  assert (Hpats : (match one_hot_annotations with
                   | PatStr s => Ok [s]
                   | PatList l => Ok l
                   | PatOther => Raise ValueError
                   end) = Ok (patterns_of one_hot_annotations)).
  { by destruct one_hot_annotations. }
  assert (Hdom : forall categories, dom (updated categories) = dom h).
  { intros categories. apply set_eq. intros x. unfold updated.
    rewrite dom_insert, elem_of_union, elem_of_singleton.
    split; [intros [->|?]; [by apply elem_of_dom|done] | by right]. }
  assert (Hstart : forall B (k : Table -> B) (d : B),
            match h !! data with Some df0 => k df0 | None => d end = k df).
  { intros B k d.
    destruct (h !! data) as [df0|]; [by injection Hdata as -> | done]. }
  unfold bin2cat. rewrite Hstart, Hpats.
  rewrite decide_False by done. fold labels.
  split; [|split].
  - intros ->. done.
  - intros Hne Hlabels Hcols Hrows.
    rewrite (proj2 (Nat.ltb_lt _ _))
      by (destruct (patterns_of one_hot_annotations); simpl; [done | lia]).
    rewrite (proj2 (Nat.ltb_lt _ _))
      by (destruct labels; simpl; [done | lia]).
    destruct (mapM_get_cols df labels Hcols) as [cols Hget]. rewrite Hget.
    destruct (mapM_result_total
                (fun i => get_columns_with_1 labels (row_at cols i))
                (seq 0 (nrows df))) as [categories Hcat].
    { intros i Hi%elem_of_seq. unfold get_columns_with_1.
      rewrite (keep_ones df labels cols i Hget).
      specialize (Hrows i ltac:(lia)).
      destruct (ones_of df labels i) as [|name [|? ?]];
        [by eexists | by eexists | simpl in Hrows; lia]. }
    rewrite Hcat. exists categories.
    unfold set_col. rewrite assign_col_fresh by done.
    split; first done. split; last apply Hdom.
    apply mapM_result_length in Hcat. by rewrite length_seq in Hcat.
  - intros r h' Hcall.
    destruct (0 <? length (patterns_of one_hot_annotations))%nat; last done.
    destruct (0 <? length labels)%nat; last done.
    destruct (mapM _ labels) as [cols|]; last done.
    destruct (mapM _ (seq 0 (nrows df))) as [categories|] eqn:Hcat; last done.
    injection Hcall as <- <-. split; first done.
    exists categories. unfold set_col. rewrite assign_col_fresh by done.
    split; first done. split; last apply Hdom.
    apply mapM_result_length in Hcat. by rewrite length_seq in Hcat.
Qed.

Lemma bin2cat_in_place_witness :
  exists categories,
    bin2cat (fun pats cols => filter (fun c => c ∈ pats) cols)
      {[ 1%positive := one_hot_table ]} 1 (PatList ["A"; "B"]%string)
      "new_category"
    = (Ok (Some 1%positive),
       <[1%positive := mkDF (index one_hot_table)
                         (columns one_hot_table
                          ++ [("new_category"%string, ObjCol categories)])]>
         {[ 1%positive := one_hot_table ]})
    /\ length categories = 4%nat.
Proof.
  destruct (bin2cat_in_place
              (fun pats cols => filter (fun c => c ∈ pats) cols)
              {[ 1%positive := one_hot_table ]} 1 one_hot_table
              (PatList ["A"; "B"]%string) "new_category")
    as (_ & Hreturns & _).
  - vm_compute. reflexivity.
  - apply (bool_decide_unpack _). by vm_compute.
  - discriminate.
  - destruct Hreturns as (categories & Hcall & Hlen & _).
    + done.
    + by vm_compute.
    + vm_compute. repeat constructor.
    + intros i Hi. destruct i as [|[|[|[|i]]]]; vm_compute; lia.
    + by exists categories.
Defined.

(** Without any pattern the function falls off its end: it returns
    [None] and touches nothing. *)
Lemma bin2cat_no_patterns (regex_search_list : list string -> list string -> list string)
    (h : heap) (data : positive) (df : Table) (new_annotation : string) :
  h !! data = Some df -> new_annotation ∉ names df ->
  bin2cat regex_search_list h data (PatList []) new_annotation = (Ok None, h).
Proof.
  intros Hdata Hnew. unfold bin2cat.
  destruct (h !! data) as [df0|] eqn:E; simplify_eq.
  by rewrite decide_False.
Qed.

(** ** [combine_dfs] *)

Lemma names_assign_col {C : Type} (name : string) (c : C)
    (cs : list (string * C)) (x : string) :
  x ∈ (assign_col name c cs).*1 <-> x = name \/ x ∈ cs.*1.
Proof.
  induction cs as [|[n c0] cs IH]; simpl.
  - rewrite elem_of_cons. split; [intros [?|?%elem_of_nil]; by left|].
    intros [?|?%elem_of_nil]; [by left | done].
  - destruct (decide (n = name)) as [->|Hne]; simpl.
    + rewrite !elem_of_cons. tauto.
    + rewrite !elem_of_cons, IH. tauto.
Qed.

Lemma names_set_col (name : string) (c : column) (df : Table) (x : string) :
  x ∈ names (set_col name c df) <-> x = name \/ x ∈ names df.
Proof. apply names_assign_col. Qed.

Lemma names_add_annotations (ann : list (string * value)) (df : Table)
    (x : string) :
  x ∈ names (add_annotations ann df) <-> x ∈ ann.*1 \/ x ∈ names df.
Proof.
  unfold add_annotations. revert df.
  induction ann as [|[n v] ann IH]; intros df; simpl.
  - split; [by right | by intros [?%elem_of_nil|?]].
  - rewrite IH, names_set_col, elem_of_cons. simpl. tauto.
Qed.

Lemma annotate_step_dom (a : gmap string (list (string * value))) (h : heap)
    (entry : string * positive) (l : positive) :
  is_Some (annotate_step a h entry !! l) <-> is_Some (h !! l).
Proof.
  unfold annotate_step.
  destruct (a !! entry.1) as [ann|]; last done.
  destruct (h !! entry.2) as [df|] eqn:E; last done.
  destruct (decide (entry.2 = l)) as [<-|Hne].
  - rewrite lookup_insert_eq. split; intros _; by eexists.
  - by rewrite lookup_insert_ne.
Qed.

Lemma annotate_step_columns (a : gmap string (list (string * value)))
    (h : heap) (entry : string * positive) (l : positive) (ns : list string) :
  has_columns h l ns -> has_columns (annotate_step a h entry) l ns.
Proof.
  intros (df & Hl & Hns). unfold annotate_step.
  destruct (a !! entry.1) as [ann|]; last by exists df.
  destruct (h !! entry.2) as [df'|] eqn:E; last by exists df.
  destruct (decide (entry.2 = l)) as [Heq|Hne].
  - rewrite Heq in E. pose proof (eq_trans (eq_sym E) Hl) as Hdf.
    injection Hdf as ->. rewrite Heq. eexists. rewrite lookup_insert_eq.
    split; first done. intros n Hn. apply names_add_annotations.
    right. by apply Hns.
  - exists df. by rewrite lookup_insert_ne.
Qed.

Lemma annotate_all_columns (a : gmap string (list (string * value)))
    (dfs : list (string * positive)) (h : heap) (l : positive)
    (ns : list string) :
  has_columns h l ns -> has_columns (annotate_all a dfs h) l ns.
Proof.
  unfold annotate_all. revert h.
  induction dfs as [|entry dfs IH]; intros h Hh; simpl; first done.
  by apply IH, annotate_step_columns.
Qed.

Lemma annotate_all_dom (a : gmap string (list (string * value)))
    (dfs : list (string * positive)) (h : heap) (l : positive) :
  is_Some (annotate_all a dfs h !! l) <-> is_Some (h !! l).
Proof.
  unfold annotate_all. revert h.
  induction dfs as [|entry dfs IH]; intros h; simpl; first done.
  by rewrite IH, annotate_step_dom.
Qed.

Lemma annotate_all_cons (a : gmap string (list (string * value)))
    (dfs : list (string * positive)) (h : heap) (f : string) (l : positive)
    (ann : list (string * value)) (df : Table) :
  a !! f = Some ann -> h !! l = Some df ->
  annotate_all a ((f, l) :: dfs) h
  = annotate_all a dfs (<[l := add_annotations ann df]> h).
Proof.
  intros Ha Hl. unfold annotate_all. cbn [foldl]. f_equal.
  unfold annotate_step. cbn [fst snd].
  destruct (a !! f) as [ann'|]; last done. injection Ha as ->.
  destruct (h !! l) as [df'|]; last done. by injection Hl as ->.
Qed.

(** After the updates every frame of the list has the annotation columns
    of its file, aliases included. *)
Lemma annotate_all_gains (a : gmap string (list (string * value)))
    (dfs : list (string * positive)) (h : heap) (f : string) (l : positive)
    (ann : list (string * value)) :
  (f, l) ∈ dfs -> a !! f = Some ann -> is_Some (h !! l) ->
  has_columns (annotate_all a dfs h) l ann.*1.
Proof.
  revert h. induction dfs as [|entry dfs IH]; intros h Hin Ha Hl.
  - by apply elem_of_nil in Hin.
  - apply elem_of_cons in Hin as [<-|Hin].
    + destruct Hl as [df Hl].
      rewrite (annotate_all_cons a dfs h f l ann df) by done.
      apply (annotate_all_columns a dfs).
      eexists. rewrite lookup_insert_eq. split; first done.
      intros n Hn. apply names_add_annotations. by left.
    + unfold annotate_all. simpl. apply IH; try done.
      by apply annotate_step_dom.
Qed.

(** The loop of [combine_dfs] performs the updates of [annotate_all] on
    the entries it gets through. *)
Lemma combine_loop_ok (a : gmap string (list (string * value)))
    (dfs : list (string * positive)) (meta : list string)
    (combined out : Table) (h h' : heap) :
  combine_loop a dfs meta combined h = (Ok out, h') ->
  h' = annotate_all a dfs h
  /\ Forall (fun entry => is_Some (a !! entry.1) /\ is_Some (h !! entry.2)) dfs.
Proof.
  revert meta combined h.
  induction dfs as [|[f l] dfs IH]; intros meta combined h; simpl.
  - intros [= _ <-]. by split.
  - destruct (h !! l) as [df|] eqn:Hl; last done.
    destruct (check_schema _ _); last done.
    destruct (a !! f) as [ann|] eqn:Ha; last done.
    intros Hloop. apply IH in Hloop as [-> Hall].
    split.
    + symmetry. by apply annotate_all_cons.
    + constructor; first (split; by eexists).
      eapply Forall_impl; first exact Hall.
      intros entry [? Hs]. split; first done.
      destruct (decide (l = entry.2)) as [<-|Hne]; first by eexists.
      by rewrite lookup_insert_ne in Hs.
Qed.

Lemma combine_loop_raise (a : gmap string (list (string * value)))
    (dfs : list (string * positive)) (meta : list string)
    (combined : Table) (h h' : heap) (e : error) :
  combine_loop a dfs meta combined h = (Raise e, h') ->
  exists pre post,
    dfs = pre ++ post /\ post ≠ [] /\ h' = annotate_all a pre h
    /\ Forall (fun entry => is_Some (a !! entry.1) /\ is_Some (h !! entry.2)) pre.
Proof.
  revert meta combined h.
  induction dfs as [|[f l] dfs IH]; intros meta combined h; simpl; first done.
  destruct (h !! l) as [df|] eqn:Hl;
    last (intros [= _ <-]; by exists [], ((f, l) :: dfs)).
  destruct (check_schema _ _);
    last (intros [= _ <-]; by exists [], ((f, l) :: dfs)).
  destruct (a !! f) as [ann|] eqn:Ha;
    last (intros [= _ <-]; by exists [], ((f, l) :: dfs)).
  intros Hloop. apply IH in Hloop as (pre & post & -> & Hpost & -> & Hall).
  exists ((f, l) :: pre), post. split; first done. split; first done.
  split; first (symmetry; by apply annotate_all_cons).
  constructor; first (split; by eexists).
  eapply Forall_impl; first exact Hall.
  intros entry [? Hs]. split; first done.
  destruct (decide (l = entry.2)) as [<-|Hne]; first by eexists.
  by rewrite lookup_insert_ne in Hs.
Qed.

Lemma combine_loop_missing (a : gmap string (list (string * value)))
    (dfs : list (string * positive)) (meta : list string)
    (combined : Table) (h : heap) (f : string) (l : positive) :
  (f, l) ∈ dfs -> a !! f = None ->
  exists e h', combine_loop a dfs meta combined h = (Raise e, h').
Proof.
  revert meta combined h.
  induction dfs as [|[f0 l0] dfs IH]; intros meta combined h Hin Ha.
  - by apply elem_of_nil in Hin.
  - simpl. destruct (h !! l0) as [df|]; last by eexists _, _.
    destruct (check_schema _ _); last by eexists _, _.
    apply elem_of_cons in Hin as [[= <- <-]|Hin].
    + rewrite Ha. by eexists _, _.
    + destruct (a !! f0); last by eexists _, _.
      by apply IH.
Qed.

Lemma check_schema_error (meta current : list string) (e : error) :
  check_schema meta current = Raise e -> e = ValueError.
Proof.
  unfold check_schema.
  destruct (length meta =? length current)%nat; last by intros [= <-].
  destruct (negb (same_set meta current)); [by intros [= <-] | done].
Qed.

(** The loop stops at the first file without annotations, after the
    updates of the files before it. *)
Lemma combine_loop_stops (a : gmap string (list (string * value)))
    (pre post : list (string * positive)) (f : string) (l : positive)
    (meta : list string) (combined out : Table) (h h' : heap) :
  combine_loop a pre meta combined h = (Ok out, h') ->
  is_Some (h !! l) ->
  a !! f = None ->
  combine_loop a (pre ++ (f, l) :: post) meta combined h
  = (Raise ValueError, h').
Proof.
  revert meta combined h.
  induction pre as [|[f0 l0] pre IH]; intros meta combined h; simpl.
  - intros [= _ <-] Hl Ha.
    destruct (h !! l) as [df|]; last by destruct Hl.
    rewrite Ha.
    destruct (check_schema _ _) as [|e] eqn:Hcheck; first done.
    by apply check_schema_error in Hcheck as ->.
  - destruct (h !! l0) as [df0|] eqn:Hl0; last done.
    destruct (check_schema _ _); last done.
    destruct (a !! f0) as [ann|]; last done.
    intros Hloop Hl Ha. apply (IH _ _ _ Hloop); last done.
    destruct (decide (l0 = l)) as [->|Hne].
    + rewrite lookup_insert_eq. by eexists.
    + by rewrite lookup_insert_ne.
Qed.

(** C9. [combine_dfs] annotates the frames of its input list where they
    are.  When it succeeds, the heap is the initial heap in which the
    frame of every file carries the annotation columns of that file,
    plus one new frame for the result.  When the files before some file
    can be combined and that file has no entry in the annotations, the
    call raises [ValueError] and leaves the frame of every earlier file
    with its annotation columns: the heap is the initial heap after the
    updates of all the earlier files.  Whatever the failure, the heap
    returned holds the updates of the files before the failing one; and
    the call does fail whenever some file has no entry in the
    annotations. *)
Theorem combine_dfs_mutates_inputs (h : heap)
    (dataframes : list (string * positive))
    (a : gmap string (list (string * value))) :
  (forall r h',
     combine_dfs h dataframes (AnnFrame a) = (Ok r, h') ->
     exists combined,
       h' = <[r := combined]> (annotate_all a dataframes h)
       /\ annotate_all a dataframes h !! r = None
       /\ forall f l, (f, l) ∈ dataframes ->
            exists ann, a !! f = Some ann /\ has_columns h' l ann.*1)
  /\ (forall pre post f l r h1,
        dataframes = pre ++ (f, l) :: post ->
        combine_dfs h pre (AnnFrame a) = (Ok r, h1) ->
        is_Some (h !! l) ->
        a !! f = None ->
        combine_dfs h dataframes (AnnFrame a)
        = (Raise ValueError, annotate_all a pre h)
        /\ forall f' l', (f', l') ∈ pre ->
             exists ann,
               a !! f' = Some ann
               /\ has_columns (annotate_all a pre h) l' ann.*1)
  /\ (forall e h',
        combine_dfs h dataframes (AnnFrame a) = (Raise e, h') ->
        exists pre post,
          dataframes = pre ++ post /\ post ≠ []
          /\ h' = annotate_all a pre h
          /\ forall f l, (f, l) ∈ pre ->
               exists ann, a !! f = Some ann /\ has_columns h' l ann.*1)
  /\ (forall f l,
        (f, l) ∈ dataframes -> a !! f = None ->
        exists e h', combine_dfs h dataframes (AnnFrame a) = (Raise e, h')).
Proof.
  unfold combine_dfs. split; [|split; [|split]].
  - intros r h' Hcall.
    destruct (combine_loop a dataframes [] (mkDF [] []) h)
      as [[combined|e] h1] eqn:Hloop; last done.
    apply combine_loop_ok in Hloop as [-> Hall].
    unfold alloc in Hcall. injection Hcall as <- <-.
    assert (Hfresh : annotate_all a dataframes h
                       !! fresh (dom (annotate_all a dataframes h)) = None).
    { apply not_elem_of_dom, is_fresh. }
    eexists. split; first done. split; first done.
    intros f l Hin.
    pose proof (proj1 (Forall_forall _ _) Hall (f, l) Hin) as [[ann Ha] Hl].
    exists ann. split; first done.
    destruct (annotate_all_gains a dataframes h f l ann Hin Ha Hl)
      as (df & Hdf & Hns).
    exists df. split; last done.
    rewrite lookup_insert_ne; first done.
    intros E. subst l.
    pose proof (eq_trans (eq_sym Hfresh) Hdf) as Hc. done.
  - intros pre post f l r h1 -> Hpre Hl Ha.
    destruct (combine_loop a pre [] (mkDF [] []) h)
      as [[combined|e] h2] eqn:Hloop; last done.
    rewrite (combine_loop_stops a pre post f l [] (mkDF [] []) combined h h2
               Hloop Hl Ha).
    apply combine_loop_ok in Hloop as [-> Hall].
    split; first done.
    intros f' l' Hin.
    pose proof (proj1 (Forall_forall _ _) Hall (f', l') Hin) as [[ann Ha'] Hl'].
    exists ann. split; first done.
    by apply annotate_all_gains with f'.
  - intros e h' Hcall.
    destruct (combine_loop a dataframes [] (mkDF [] []) h)
      as [[combined|e'] h1] eqn:Hloop.
    { unfold alloc in Hcall. done. }
    injection Hcall as <- <-.
    apply combine_loop_raise in Hloop as (pre & post & -> & Hpost & -> & Hall).
    exists pre, post. split; first done. split; first done. split; first done.
    intros f l Hin.
    pose proof (proj1 (Forall_forall _ _) Hall (f, l) Hin) as [[ann Ha] Hl].
    exists ann. split; first done.
    by apply annotate_all_gains with f.
  - intros f l Hin Ha.
    destruct (combine_loop_missing a dataframes [] (mkDF [] []) h f l Hin Ha)
      as (e & h' & ->).
    by exists e, h'.
Qed.

Lemma combine_dfs_mutates_inputs_witness :
  combine_dfs two_files_heap two_files (AnnFrame first_file_annotations)
  = (Raise ValueError,
     annotate_all first_file_annotations [("first.csv"%string, 1%positive)]
       two_files_heap)
  /\ get_col "region" <$> (two_files_heap !! 1%positive) = Some None
  /\ get_col "region"
       <$> (annotate_all first_file_annotations
              [("first.csv"%string, 1%positive)] two_files_heap !! 1%positive)
     = Some (Some (ObjCol [VStr "R1"; VStr "R1"; VStr "R1"; VStr "R1"])).
Proof.
  split; [|split].
  - eapply (proj1 (proj2 (combine_dfs_mutates_inputs two_files_heap two_files
                            first_file_annotations))
              [("first.csv"%string, 1%positive)] []
              "second.csv"%string 2%positive).
    + reflexivity.
    + vm_compute. reflexivity.
    + vm_compute. by eexists.
    + vm_compute. reflexivity.
  - vm_compute. reflexivity.
  - vm_compute. reflexivity.
Defined.

(** ** [load_csv_files] *)

Lemma same_set_spec (a b : list string) :
  same_set a b = true <-> forall x, x ∈ a <-> x ∈ b.
Proof.
  unfold same_set. rewrite andb_true_iff, !forallb_forall. split.
  - intros [Hab Hba] x. split; intros Hx.
    + apply list_elem_of_In, Hab in Hx. by apply bool_decide_eq_true in Hx.
    + apply list_elem_of_In, Hba in Hx. by apply bool_decide_eq_true in Hx.
  - intros H. split; intros x Hx%list_elem_of_In; apply bool_decide_eq_true;
      by apply H.
Qed.

Lemma check_schema_ok (meta current : list string) :
  same_schema meta current -> check_schema meta current = Ok ().
Proof.
  intros [Hlen Hset]. unfold check_schema.
  rewrite (proj2 (Nat.eqb_eq _ _) Hlen).
  by rewrite (proj2 (same_set_spec _ _) Hset).
Qed.

Lemma check_schema_mismatch (meta current : list string) :
  ~ same_schema meta current -> check_schema meta current = Raise ValueError.
Proof.
  intros Hno. unfold check_schema.
  destruct (length meta =? length current)%nat eqn:Hlen; last done.
  destruct (same_set meta current) eqn:Hset; last done.
  exfalso. apply Hno. split.
  - by apply Nat.eqb_eq.
  - by apply same_set_spec.
Qed.

Lemma acquire_schema_known (meta current : list string) :
  meta ≠ [] -> acquire_schema meta current = meta.
Proof. unfold acquire_schema. by destruct meta. Qed.

Lemma same_schema_refl (a : list string) : same_schema a a.
Proof. by split. Qed.

(** One turn of the loop on a loadable file. *)
Lemma load_loop_step (fs : filesystem) (path : string) (t : Table)
    (rest meta : list string) (acc : list (string * Table)) :
  loadable fs path t ->
  load_loop fs (path :: rest) meta acc
  = (_ ← check_schema (acquire_schema meta (names t)) (names t);
     load_loop fs rest (acquire_schema meta (names t)) (acc ++ [(path, t)])).
Proof.
  intros (f & Hf & Hread & Hcontent & Hcols). simpl.
  rewrite Hf, Hread. simpl. unfold read_csv. rewrite Hcontent.
  by rewrite bool_decide_eq_false_2.
Qed.

(** The loop once the schema is known. *)
Lemma load_loop_known (fs : filesystem) (files : list (string * Table))
    (meta : list string) (acc : list (string * Table)) :
  meta ≠ [] ->
  Forall (fun pt => loadable fs pt.1 pt.2) files ->
  (Forall (fun pt => same_schema meta (names pt.2)) files ->
     load_loop fs files.*1 meta acc = Ok (acc ++ files))
  /\ (Exists (fun pt => ~ same_schema meta (names pt.2)) files ->
        load_loop fs files.*1 meta acc = Raise ValueError).
Proof.
  intros Hmeta Hload. revert acc.
  induction Hload as [|[path t] files Hpt _ IH]; intros acc.
  - split; [intros _; simpl; by rewrite app_nil_r | by intros ?%Exists_nil].
  - rewrite fmap_cons. simpl fst. rewrite (load_loop_step fs path t) by done.
    rewrite acquire_schema_known by done.
    destruct (IH (acc ++ [(path, t)])) as [IHok IHbad]. split.
    + intros Hall. inversion Hall as [|? ? Hsame Hrest]; subst.
      rewrite check_schema_ok by done. simpl.
      rewrite IHok by done. by rewrite <- app_assoc.
    + intros Hex. 
      destruct (check_schema meta (names t)) as [[]|e] eqn:Hcheck.
      * simpl. apply IHbad.
        apply Exists_cons in Hex as [Hno|?]; last done.
        apply check_schema_mismatch in Hno. simpl in Hno. congruence.
      * simpl. unfold check_schema in Hcheck.
        destruct (length meta =? length (names t))%nat;
          last by injection Hcheck as <-.
        destruct (negb (same_set meta (names t))); last done.
        by injection Hcheck as <-.
Qed.

(** C6. On a list of files that all exist, are readable and parse,
    [load_csv_files] returns the (path, table) pairs in input order when
    the schema of every file agrees with the schema of the first one
    (same number of columns, same set of names); when the schema of
    some file does not, it raises [ValueError] and returns nothing. *)
Theorem load_csv_files_schema (fs : filesystem) (files : list (string * Table)) :
  Forall (fun pt => loadable fs pt.1 pt.2) files ->
  (Forall (fun pt => same_schema (first_schema files) (names pt.2)) files ->
     load_csv_files fs (FileList files.*1) = Ok files)
  /\ (Exists (fun pt => ~ same_schema (first_schema files) (names pt.2)) files ->
        load_csv_files fs (FileList files.*1) = Raise ValueError).
Proof.
  intros Hload. unfold load_csv_files.
  destruct files as [|[path t] rest].
  - split; [done | by intros ?%Exists_nil].
  - inversion Hload as [|? ? Hpt Hrest]; subst. simpl in Hpt.
    simpl first_schema.
    assert (Hne : names t ≠ []).
    { destruct Hpt as (_ & _ & _ & _ & Hcols). unfold names.
      by destruct (columns t). }
    assert (Hstep : load_loop fs ((path, t) :: rest).*1 [] []
                    = load_loop fs rest.*1 (names t) [(path, t)]).
    { rewrite fmap_cons. simpl fst.
      rewrite (load_loop_step fs path t) by done.
      unfold acquire_schema. simpl.
      by rewrite check_schema_ok by apply same_schema_refl. }
    rewrite Hstep.
    destruct (load_loop_known fs rest (names t) [(path, t)] Hne Hrest)
      as [Hok Hbad].
    split.
    + intros Hall. inversion Hall; subst. by apply Hok.
    + intros Hex. apply Hbad.
      apply Exists_cons in Hex as [Hno|?]; last done.
      exfalso. apply Hno, same_schema_refl.
Qed.

Lemma load_csv_files_schema_witness :
  load_csv_files three_files (FileList ["a.csv"; "b.csv"]%string)
  = Ok [("a.csv"%string, docstring_table); ("b.csv"%string, swapped_table)]
  /\ load_csv_files three_files (FileList ["a.csv"; "b.csv"; "c.csv"]%string)
     = Raise ValueError.
Proof.
  assert (Ha : loadable three_files "a.csv" docstring_table).
  { eexists. split; first (vm_compute; reflexivity). by repeat split. }
  assert (Hb : loadable three_files "b.csv" swapped_table).
  { eexists. split; first (vm_compute; reflexivity). by repeat split. }
  assert (Hc : loadable three_files "c.csv" one_hot_table).
  { eexists. split; first (vm_compute; reflexivity). by repeat split. }
  assert (Hab : same_schema (names docstring_table) (names swapped_table)).
  { split; first done. intros x. unfold names; simpl.
    rewrite !elem_of_cons. tauto. }
  split.
  - apply (proj1 (load_csv_files_schema three_files
                    [("a.csv"%string, docstring_table);
                     ("b.csv"%string, swapped_table)]
                    ltac:(repeat constructor; done))).
    constructor; [apply same_schema_refl | constructor; [exact Hab | constructor]].
  - apply (proj2 (load_csv_files_schema three_files
                    [("a.csv"%string, docstring_table);
                     ("b.csv"%string, swapped_table);
                     ("c.csv"%string, one_hot_table)]
                    ltac:(repeat constructor; done))).
    apply Exists_cons_tl, Exists_cons_tl, Exists_cons_hd.
    intros [Hlen Hset]. simpl in Hset.
    specialize (Hset "annotation"%string). unfold names in Hset; simpl in Hset.
    rewrite !elem_of_cons in Hset.
    destruct Hset as [Hset _].
    destruct Hset as [?|[?|?%elem_of_nil]]; by try left.
Defined.

(** ** Feature matrices *)

Local Open Scope Q_scope.

Lemma zip_with_fmap_same {A B D : Type} (f : A -> B -> D) (g : A -> B)
    (l : list A) :
  zip_with f l (g <$> l) = (fun x => f x (g x)) <$> l.
Proof.
  induction l as [|x l IH]; first done.
  rewrite !fmap_cons. cbn [zip_with]. by rewrite IH.
Qed.

Lemma series_quantile_nonempty (col : list Q) (q : Q) :
  col ≠ [] -> is_Some (series_quantile col q).
Proof.
  intros Hne. unfold series_quantile, quantile_sorted.
  destruct (merge_sort Qleb_rel col) as [|x a] eqn:E; last by eexists.
  exfalso. apply Hne.
  pose proof (merge_sort_Permutation Qleb_rel col) as Hp. rewrite E in Hp.
  by apply Permutation_nil_l in Hp.
Qed.

Lemma clip_lower_zero (y : Q) :
  clip_lower (Some 0) y == Qmax 0 y /\ 0 <= clip_lower (Some 0) y.
Proof.
  unfold clip_lower. destruct (Qle_bool 0 y) eqn:E.
  - apply Qle_bool_iff in E. split; [by rewrite Q.max_r | done].
  - assert (y <= 0).
    { destruct (Qlt_le_dec 0 y) as [Hlt|Hle]; last done.
      apply Qlt_le_weak, Qle_bool_iff in Hlt. congruence. }
    split; [by rewrite Q.max_l | apply Qle_refl].
Qed.

(** The columns of the result of [subtract_min_quantile]. *)
Lemma subtract_min_quantile_columns (features : Features) (q : Q) :
  valid_level q = true ->
  subtract_min_quantile features q
  = Ok (mkDF (index features)
          ((fun nc : string * list Q =>
              (nc.1, clip_lower (Some 0) <$> sub_col nc.2 (series_quantile nc.2 q)))
             <$> columns features)).
Proof.
  intros Hq. unfold subtract_min_quantile, frame_quantile. rewrite Hq. simpl.
  unfold with_series.
  rewrite (zip_with_fmap_same
             (fun (nc : string * list Q) (e : string * option Q) =>
                (nc.1, sub_col nc.2 e.2))).
  by rewrite <- list_fmap_compose.
Qed.

(** C7. For a level within [0, 1], [subtract_min_quantile] returns a
    frame with the index and the column names of its input; every
    column keeps its length, and the cell of row [i] is
    [max 0 (x - m)] for the input cell [x] of row [i] and the quantile
    [m] of the column: no cell is negative. *)
Theorem subtract_min_quantile_spec (features : Features) (q : Q) :
  valid_level q = true ->
  exists out,
    subtract_min_quantile features q = Ok out
    /\ index out = index features
    /\ names out = names features
    /\ forall j n col,
         columns features !! j = Some (n, col) ->
         exists col',
           columns out !! j = Some (n, col')
           /\ length col' = length col
           /\ forall i x,
                col !! i = Some x ->
                exists m y,
                  series_quantile col q = Some m
                  /\ col' !! i = Some y
                  /\ y == Qmax 0 (x - m)
                  /\ 0 <= y.
Proof.
  intros Hq. eexists. split; first by apply subtract_min_quantile_columns.
  split; first done. split.
  - unfold names. simpl. rewrite <- list_fmap_compose.
    apply list_fmap_ext. by intros ? [].
  - intros j n col Hj. simpl.
    rewrite list_lookup_fmap, Hj. simpl. eexists. split; first done.
    destruct (decide (col = [])) as [->|Hne].
    + split; first by destruct (series_quantile [] q).
      intros i x Hx. by rewrite lookup_nil in Hx.
    + destruct (series_quantile_nonempty col q Hne) as [m Hm].
      rewrite Hm. simpl. split; first by rewrite !length_fmap.
      intros i x Hx. exists m, (clip_lower (Some 0) (x - m)).
      split; first done. split.
      * by rewrite !list_lookup_fmap, Hx.
      * apply clip_lower_zero.
Qed.

Lemma subtract_min_quantile_spec_witness :
  exists out,
    subtract_min_quantile sample_features (1 # 100) = Ok out
    /\ index out = index sample_features
    /\ names out = names sample_features.
Proof.
  destruct (subtract_min_quantile_spec sample_features (1 # 100))
    as (out & Hout & Hindex & Hnames & _).
  - reflexivity.
  - by exists out.
Defined.

(** ** [rescale_features] *)

Lemma zip_with_fmap_both {A B1 B2 D : Type} (f : B1 -> B2 -> D)
    (g1 : A -> B1) (g2 : A -> B2) (l : list A) :
  zip_with f (g1 <$> l) (g2 <$> l) = (fun x => f (g1 x) (g2 x)) <$> l.
Proof.
  induction l as [|x l IH]; first done.
  rewrite !fmap_cons. cbn [zip_with]. by rewrite IH.
Qed.

Lemma data_min_le (col : list Q) (x : Q) : x ∈ col -> data_min col <= x.
Proof.
  destruct col as [|x0 xs]; first by intros ?%elem_of_nil.
  simpl. revert x0. induction xs as [|x1 xs IH]; intros x0 Hin.
  - apply list_elem_of_singleton in Hin as ->. apply Qle_refl.
  - simpl. apply elem_of_cons in Hin as [->|Hin].
    + eapply Qle_trans; first apply Q.le_min_r.
      apply IH. by left.
    + apply elem_of_cons in Hin as [->|Hin].
      * apply Q.le_min_l.
      * eapply Qle_trans; first apply Q.le_min_r.
        apply IH. by right.
Qed.

Lemma data_max_ge (col : list Q) (x : Q) : x ∈ col -> x <= data_max col.
Proof.
  destruct col as [|x0 xs]; first by intros ?%elem_of_nil.
  simpl. revert x0. induction xs as [|x1 xs IH]; intros x0 Hin.
  - apply list_elem_of_singleton in Hin as ->. apply Qle_refl.
  - simpl. apply elem_of_cons in Hin as [->|Hin].
    + eapply Qle_trans; last apply Q.le_max_r.
      apply IH. by left.
    + apply elem_of_cons in Hin as [->|Hin].
      * apply Q.le_max_l.
      * eapply Qle_trans; last apply Q.le_max_r.
        apply IH. by right.
Qed.

(** The scale of the scaler is positive: the range of a feature that is
    not constant, or one. *)
Lemma scale_pos (col : list Q) : 0 < scale_ col.
Proof.
  unfold scale_.
  destruct (Qle_bool (10 * eps64) (data_max col - data_min col)) eqn:E.
  - apply Qle_bool_iff in E.
    assert (Hpos : 0 < data_max col - data_min col).
    { eapply Qlt_le_trans; last exact E. reflexivity. }
    apply Qlt_shift_div_l; first exact Hpos. by ring_simplify.
  - reflexivity.
Qed.

Lemma scale_nonconstant (col : list Q) :
  10 * eps64 <= data_max col - data_min col ->
  scale_ col = 1 / (data_max col - data_min col).
Proof.
  intros Hrange. unfold scale_. apply Qle_bool_iff in Hrange.
  by rewrite Hrange.
Qed.

Lemma scale_constant (col : list Q) :
  data_max col == data_min col -> scale_ col = 1 / 1.
Proof.
  intros Hconst. unfold scale_.
  destruct (Qle_bool (10 * eps64) (data_max col - data_min col)) eqn:E;
    last done.
  apply Qle_bool_iff in E. exfalso.
  assert (Hzero : data_max col - data_min col == 0) by (rewrite Hconst; ring).
  rewrite Hzero in E. by apply Qle_not_lt in E.
Qed.

Lemma min_max_scale_lookup (col : list Q) (i : nat) (x : Q) :
  col !! i = Some x ->
  min_max_scale col !! i = Some (x * scale_ col + min_ col).
Proof. intros Hx. unfold min_max_scale. by rewrite list_lookup_fmap, Hx. Qed.

Lemma min_max_scale_lookup_inv (col : list Q) (i : nat) (y : Q) :
  min_max_scale col !! i = Some y ->
  exists x, col !! i = Some x /\ y = x * scale_ col + min_ col.
Proof.
  unfold min_max_scale. rewrite list_lookup_fmap.
  destruct (col !! i) as [x|]; last done.
  intros [= <-]. by exists x.
Qed.

(** What the scaled values satisfy whatever the rounding: they are not
    negative, the smallest cell is sent to zero, and the order of the
    cells is kept. *)
Lemma scaled_nonneg (col : list Q) (x : Q) :
  data_min col <= x -> 0 <= x * scale_ col + min_ col.
Proof.
  intros Hx. unfold min_.
  assert (E : x * scale_ col + (0 - data_min col * scale_ col)
              == (x - data_min col) * scale_ col) by ring.
  rewrite E. apply Qmult_le_0_compat.
  - apply (Qplus_le_l _ _ (data_min col)). ring_simplify. exact Hx.
  - apply Qlt_le_weak, scale_pos.
Qed.

Lemma scaled_min (col : list Q) (x : Q) :
  x == data_min col -> x * scale_ col + min_ col == 0.
Proof. intros ->. unfold min_. ring. Qed.

Lemma scaled_monotone (col : list Q) (x1 x2 : Q) :
  x1 <= x2 -> x1 * scale_ col + min_ col <= x2 * scale_ col + min_ col.
Proof.
  intros Hx. apply Qplus_le_l. apply Qmult_le_compat_r; first exact Hx.
  apply Qlt_le_weak, scale_pos.
Qed.

(** In exact arithmetic the scaled values of a feature that is not
    constant are the quotients [(x - min) / (max - min)], and none
    exceeds 1. *)
Lemma min_max_scale_exact (col : list Q) (i : nat) (x : Q) :
  10 * eps64 <= data_max col - data_min col ->
  col !! i = Some x ->
  exists y,
    min_max_scale col !! i = Some y
    /\ y == (x - data_min col) / (data_max col - data_min col)
    /\ 0 <= y /\ y <= 1.
Proof.
  intros Hrange Hx. eexists. split; first by apply min_max_scale_lookup.
  assert (Hin : x ∈ col) by (by eapply list_elem_of_lookup_2).
  pose proof (data_min_le col x Hin) as Hlo.
  pose proof (data_max_ge col x Hin) as Hhi.
  unfold min_. rewrite (scale_nonconstant col Hrange).
  set (lo := data_min col) in *. set (hi := data_max col) in *.
  assert (Hpos : 0 < hi - lo).
  { eapply Qlt_le_trans; last exact Hrange. reflexivity. }
  assert (Hne : ~ hi - lo == 0).
  { intros E. rewrite E in Hpos. by apply Qlt_irrefl in Hpos. }
  assert (Heq : x * (1 / (hi - lo)) + (0 - lo * (1 / (hi - lo)))
                == (x - lo) / (hi - lo)) by (field; exact Hne).
  split; first exact Heq.
  rewrite Heq. split.
  - apply Qle_shift_div_l; first done. ring_simplify.
    apply (Qplus_le_l _ _ lo). ring_simplify. exact Hlo.
  - apply Qle_shift_div_r; first done. ring_simplify.
    apply (Qplus_le_l _ _ lo). ring_simplify. exact Hhi.
Qed.

(** In float64 the last bound fails: on the feature [1, 6] the scale is
    the float nearest to 1/5, and [6 * scale_ + min_] is the float just
    above 1. *)
Lemma min_max_scale64_exceeds_one :
  exists y,
    min_max_scale64 [float64_of_Z 1; float64_of_Z 6]
    = [S754_zero false; y]
    /\ float64_ltb (float64_of_Z 1) y = true.
Proof. eexists. split; vm_compute; reflexivity. Qed.

(** The columns of the result of [rescale_features]. *)
Lemma rescale_features_columns (features : Features) (qmin qmax : Q) :
  valid_level qmin = true -> valid_level qmax = true ->
  index features ≠ [] -> columns features ≠ [] ->
  rescale_features features qmin qmax
  = Ok (mkDF (range_index (nrows features))
          ((fun nc : string * list Q =>
              (nc.1, min_max_scale
                       (clip (series_quantile nc.2 qmin)
                             (series_quantile nc.2 qmax) <$> nc.2)))
             <$> columns features)).
Proof.
  intros Hmin Hmax Hrows Hcols.
  unfold rescale_features, frame_quantile. rewrite Hmin, Hmax. simpl.
  rewrite (zip_with_fmap_both
             (fun lo hi : string * option Q => (lo.1, (lo.2, hi.2)))).
  unfold with_series.
  rewrite (zip_with_fmap_same
             (fun (nc : string * list Q) (e : string * (option Q * option Q)) =>
                (nc.1, clip e.2.1 e.2.2 <$> nc.2))).
  unfold fit_transform, to_numpy, nrows. simpl.
  rewrite bool_decide_eq_false_2 by (by destruct (index features)).
  rewrite bool_decide_eq_false_2 by (by destruct (columns features)).
  simpl. f_equal. f_equal. unfold names. simpl.
  rewrite <- !list_fmap_compose.
  rewrite (zip_with_fmap_both pair). done.
Qed.

(** C3 (as stated): on a frame without rows the scaler rejects its
    input, and [rescale_features] raises instead of returning a table. *)
Lemma rescale_features_no_rows :
  rescale_features no_rows_features (1 # 100) (99 # 100) = Raise ValueError.
Proof. reflexivity. Qed.

(** C3 (amended). For quantile levels within [0, 1] and a frame with at
    least one row and one column, [rescale_features] returns a frame
    with the column names of its input, in order, and as many rows.
    In a column that is not constant for the scaler once clipped to its
    two quantiles, the value of a row is [x * scale_ + min_] for the
    clipped cell [x] of that row, where [scale_] is the inverse of the
    range of the clipped column and [min_] is [0 - data_min * scale_].
    In every column the values are not negative, a cell equal to the
    minimum of the clipped column gives 0, and the order of the cells
    is kept.  (In exact arithmetic no value exceeds 1,
    [min_max_scale_exact]; in float64 one can,
    [min_max_scale64_exceeds_one].) *)
Theorem rescale_features_spec (features : Features) (qmin qmax : Q) :
  valid_level qmin = true ->
  valid_level qmax = true ->
  index features ≠ [] ->
  columns features ≠ [] ->
  exists out,
    rescale_features features qmin qmax = Ok out
    /\ names out = names features
    /\ nrows out = nrows features
    /\ forall j n col,
         columns features !! j = Some (n, col) ->
         let clipped :=
           clip (series_quantile col qmin) (series_quantile col qmax) <$> col in
         let data_range := data_max clipped - data_min clipped in
         exists col',
           columns out !! j = Some (n, col')
           /\ length col' = length col
           /\ (10 * eps64 <= data_range ->
               forall i x,
                 clipped !! i = Some x ->
                 col' !! i
                 = Some (x * (1 / data_range)
                         + (0 - data_min clipped * (1 / data_range))))
           /\ (forall i x,
                 clipped !! i = Some x ->
                 exists y,
                   col' !! i = Some y
                   /\ 0 <= y
                   /\ (x == data_min clipped -> y == 0))
           /\ (forall i1 i2 x1 x2 y1 y2,
                 clipped !! i1 = Some x1 -> clipped !! i2 = Some x2 ->
                 col' !! i1 = Some y1 -> col' !! i2 = Some y2 ->
                 x1 <= x2 -> y1 <= y2).
Proof.
  intros Hmin Hmax Hrows Hcols. eexists.
  split; first by apply rescale_features_columns.
  split; [|split].
  - unfold names. simpl. rewrite <- list_fmap_compose.
    apply list_fmap_ext. by intros ? [].
  - apply (nrows_reset_index features).
  - intros j n col Hj clipped data_range. simpl.
    rewrite list_lookup_fmap, Hj. simpl. eexists. split; first done.
    split.
    { unfold min_max_scale. by rewrite !length_fmap. }
    split; [|split].
    + subst data_range clipped. intros Hrange i x Hx.
      etransitivity; first by apply min_max_scale_lookup.
      unfold min_. by rewrite (scale_nonconstant _ Hrange).
    + intros i x Hx. eexists.
      split; first by apply min_max_scale_lookup.
      split; last apply scaled_min.
      apply scaled_nonneg, data_min_le. by eapply list_elem_of_lookup_2.
    + intros i1 i2 x1 x2 y1 y2 Hx1 Hx2 Hy1 Hy2 Hle.
      pose proof (eq_trans (eq_sym Hy1) (min_max_scale_lookup _ _ _ Hx1))
        as E1.
      pose proof (eq_trans (eq_sym Hy2) (min_max_scale_lookup _ _ _ Hx2))
        as E2.
      injection E1 as ->. injection E2 as ->.
      by apply scaled_monotone.
Qed.

Lemma rescale_features_spec_witness :
  exists out,
    rescale_features sample_features (1 # 100) (99 # 100) = Ok out
    /\ names out = names sample_features
    /\ nrows out = nrows sample_features.
Proof.
  destruct (rescale_features_spec sample_features (1 # 100) (99 # 100))
    as (out & Hout & Hnames & Hrows & _); try done.
  by exists out.
Defined.

(** ** Layers *)

(** A layer that has been written has the row count of [X]; [X] and the
    annotations are as before. *)
Lemma set_layer_shape (adata adata' : AnnData) (layer : string)
    (val : Features) :
  set_layer adata layer val = Ok adata' ->
  X adata' = X adata /\ obs adata' = obs adata
  /\ layers adata' !! layer = Some (to_numpy val)
  /\ n_rows (to_numpy val) = n_rows (X adata).
Proof.
  unfold set_layer.
  destruct (bool_decide (nrows val = n_rows (X adata))) eqn:Hrows; last done.
  destruct (bool_decide (length (columns val) = length (var_names adata)));
    last done.
  simpl. intros [= E]. subst adata'. simpl. rewrite lookup_insert_eq.
  by apply bool_decide_eq_true in Hrows.
Qed.

(** [add_rescaled_features] stores the rescaled frame as it is: feature
    by feature, the cell of row [i] comes from the cell of row [i] of
    [X]. *)
Lemma add_rescaled_features_aligned (adata adata' : AnnData)
    (qmin qmax : Q) (layer : string) :
  valid_level qmin = true -> valid_level qmax = true ->
  add_rescaled_features adata qmin qmax layer = Ok adata' ->
  exists a,
    layers adata' !! layer = Some a
    /\ n_rows a = n_rows (X adata)
    /\ features_of a
       = (fun col => min_max_scale
                       (clip (series_quantile col qmin)
                             (series_quantile col qmax) <$> col))
           <$> (columns (to_df adata)).*2.
Proof.
  intros Hmin Hmax. unfold add_rescaled_features.
  destruct (decide (index (to_df adata) = [])) as [Hnil|Hrows].
  { unfold rescale_features, frame_quantile, fit_transform, to_numpy, nrows.
    rewrite Hmin, Hmax. simpl in *. rewrite Hnil. done. }
  destruct (decide (columns (to_df adata) = [])) as [Hnil|Hcols].
  { unfold rescale_features, frame_quantile, fit_transform, to_numpy, nrows.
    rewrite Hmin, Hmax. simpl in *. rewrite Hnil. simpl.
    by destruct (bool_decide _). }
  rewrite rescale_features_columns by done. simpl.
  intros (_ & _ & Hlayer & Hshape)%set_layer_shape.
  eexists. split; first exact Hlayer. split; first exact Hshape.
  unfold to_numpy. simpl. rewrite <- !list_fmap_compose.
  apply list_fmap_ext. by intros ? [].
Qed.

(** C2 (failing input). Three observations "0", "1", "2" in the regions
    A, B, A.  The frame built by [subtract_min_per_region] lists the
    observations region by region, "0", "2", "1", and the layer stores
    it by position: row 1 of the layer, next to observation "1" of [X],
    holds the value 1.98 computed for observation "2", and the value 0
    of observation "1" sits in row 2. *)
Theorem subtract_min_per_region_misaligned :
  index (obs interleaved) = [Name "0"; Name "1"; Name "2"]
  /\ exists new_df adata',
       min_per_region_frame interleaved "region" (1 # 100) = Ok new_df
       /\ index new_df = [Name "0"; Name "2"; Name "1"]
       /\ subtract_min_per_region interleaved "region" "layer" (1 # 100)
          = Ok adata'
       /\ layers adata' !! "layer"%string = Some (to_numpy new_df)
       /\ n_rows (to_numpy new_df) = n_rows (X interleaved)
       /\ Forall2 Qeq (array_row (to_numpy new_df) 1) [198 # 100]
       /\ Forall2 Qeq (array_row (to_numpy new_df) 2) [0].
Proof.
  split; first reflexivity.
  eexists _, _. split; first (vm_compute; reflexivity).
  split; first reflexivity.
  split; first (vm_compute; reflexivity).
  split; first (vm_compute; reflexivity).
  split; first reflexivity.
  split; repeat constructor.
Qed.

(** *** The rows of the per-region frame *)

Lemma unique_foldl_spec (l acc : list value) :
  NoDup acc ->
  NoDup (foldl (fun seen v => if decide (v ∈ seen) then seen else seen ++ [v])
               acc l)
  /\ forall x,
       x ∈ foldl (fun seen v => if decide (v ∈ seen) then seen else seen ++ [v])
                 acc l
       <-> x ∈ acc \/ x ∈ l.
Proof.
  revert acc. induction l as [|v l IH]; intros acc Hnd; simpl.
  - split; first done. intros x. rewrite elem_of_nil. tauto.
  - destruct (decide (v ∈ acc)) as [Hin|Hnin].
    + destruct (IH acc Hnd) as [Hnd' Hiff]. split; first done.
      intros x. rewrite Hiff, elem_of_cons.
      split; [tauto | intros [?|[->|?]]; tauto].
    + destruct (IH (acc ++ [v])) as [Hnd' Hiff].
      { apply NoDup_app. split; first done. split; last apply NoDup_singleton.
        intros x Hx ->%list_elem_of_singleton. done. }
      split; first done.
      intros x. rewrite Hiff, elem_of_app, list_elem_of_singleton, elem_of_cons.
      tauto.
Qed.

Lemma unique_spec (l : list value) :
  NoDup (unique l) /\ forall x, x ∈ unique l <-> x ∈ l.
Proof.
  destruct (unique_foldl_spec l [] (NoDup_nil_2)) as [Hnd Hiff].
  split; first done. intros x. unfold unique. rewrite Hiff, elem_of_nil. tauto.
Qed.

Lemma mapM_ok_fmap {A B : Type} (f : A -> result B) (g : A -> B) (l : list A) :
  (forall x, f x = Ok (g x)) -> mapM f l = Ok (g <$> l).
Proof.
  intros Hf. induction l as [|x l IH]; first done.
  simpl. rewrite Hf. simpl.
  change (mapM f l ≫= (fun k => Ok (g x :: k)) = Ok (g x :: (g <$> l))).
  by rewrite IH.
Qed.

Lemma index_foldl_fconcat2 (fs : list Features) (f : Features) :
  index (foldl fconcat2 f fs) = mjoin (index <$> (f :: fs)).
Proof.
  revert f. induction fs as [|x fs IH]; intros f; simpl.
  - by rewrite app_nil_r.
  - rewrite IH. simpl. by rewrite <- app_assoc.
Qed.

Lemma fconcat_index (frames : list Features) (out : Features) :
  fconcat frames = Ok out -> index out = mjoin (index <$> frames).
Proof.
  destruct frames as [|f fs]; first done.
  intros [= <-]. apply index_foldl_fconcat2.
Qed.

(** The observations of one region, one region at a time, are all the
    observations. *)
Lemma regions_cover {A : Type} (keys ks : list value) (idx : list A) :
  NoDup keys ->
  (forall k, k ∈ ks -> k ∈ keys /\ k ≠ VNaN) ->
  length idx = length ks ->
  mjoin ((fun r => keep (eq_mask r ks) idx) <$> keys) ≡ₚ idx.
Proof.
  intros Hnd. revert idx. induction ks as [|k ks IH]; intros idx Hks Hlen.
  - destruct idx; last done. clear.
    induction keys as [|r keys IH]; first done.
    rewrite fmap_cons. simpl. exact IH.
  - destruct idx as [|i idx]; first done.
    assert (Hk : k ∈ keys /\ k ≠ VNaN) by (apply Hks; by left).
    assert (Hstep : forall rs, NoDup rs ->
              mjoin ((fun r => keep (eq_mask r (k :: ks)) (i :: idx)) <$> rs)
              ≡ₚ (if decide (k ∈ rs) then [i] else [])
                 ++ mjoin ((fun r => keep (eq_mask r ks) idx) <$> rs)).
    { clear -Hk. destruct Hk as [_ Hnan].
      induction 1 as [|r rs Hr Hrs IHrs]; first done.
      rewrite !fmap_cons. cbn [mjoin list_join]. rewrite IHrs.
      unfold eq_mask at 1. rewrite fmap_cons. cbn [keep].
      destruct (decide (k = r)) as [->|Hne].
      - rewrite bool_decide_eq_true_2 by done.
        destruct (decide (r ∈ r :: rs)) as [_|Hn];
          last (exfalso; apply Hn; by left).
        destruct (decide (r ∈ rs)); first done. done.
      - rewrite bool_decide_eq_false_2 by (by intros [? _]).
        destruct (decide (k ∈ rs)) as [Hin|Hnin];
          destruct (decide (k ∈ r :: rs)) as [Hin'|Hnin']; try done.
        + simpl. by rewrite Permutation_middle.
        + exfalso; apply Hnin'; by right.
        + apply elem_of_cons in Hin' as [->|?]; done. }
    rewrite Hstep by done.
    destruct (decide (k ∈ keys)) as [_|Hn]; last (by destruct Hk).
    simpl. constructor. apply IH.
    + intros k' Hk'. apply Hks. by right.
    + simpl in Hlen. lia.
Qed.

(** When no region is missing, the frame built by
    [subtract_min_per_region] has every observation exactly once: its
    index is a permutation of the observation names.  The order is the
    order of the regions, which is the order of [X] only when the
    regions are contiguous. *)
Lemma min_per_region_frame_covers (adata : AnnData) (annotation : string)
    (q : Q) (col : column) (new_df : Features) :
  valid_level q = true ->
  get_col annotation (obs adata) = Some col ->
  length (cells col) = nrows (obs adata) ->
  VNaN ∉ cells col ->
  min_per_region_frame adata annotation q = Ok new_df ->
  index new_df ≡ₚ index (obs adata).
Proof.
  intros Hq Hcol Hlen Hnan. unfold min_per_region_frame. rewrite Hcol.
  set (F := fun region =>
              mkDF (index (floc_mask (eq_mask region (cells col)) (to_df adata)))
                ((fun nc : string * list Q =>
                    (nc.1, clip_lower (Some 0)
                             <$> sub_col nc.2 (series_quantile nc.2 q)))
                   <$> columns (floc_mask (eq_mask region (cells col))
                                  (to_df adata)))).
  rewrite (mapM_ok_fmap _ F)
    by (intros region; by apply subtract_min_quantile_columns).
  change (fconcat (F <$> unique (cells col)) = Ok new_df ->
          index new_df ≡ₚ index (obs adata)).
  intros ->%fconcat_index. rewrite <- list_fmap_compose.
  destruct (unique_spec (cells col)) as [Hnd Hiff].
  apply (regions_cover (unique (cells col)) (cells col) (index (obs adata)));
    [done | | done].
  intros k Hk. split; first by apply Hiff. by intros ->.
Qed.

(** * Part III: further properties of the functions *)

Local Open Scope Z_scope.

(** ** [select_values]: the rows selected *)

Lemma keep_sublist {A : Type} (m : list bool) (l : list A) :
  keep m l `sublist_of` l.
Proof.
  revert l; induction m as [|b m IH]; intros [|x l]; simpl;
    try apply sublist_nil_l.
  destruct b; [by apply sublist_skip | by apply sublist_cons].
Qed.

Lemma empty_false {C : Type} (df : DataFrame C) :
  empty df = false <-> index df ≠ [] /\ columns df ≠ [].
Proof.
  unfold empty. rewrite orb_false_iff, !bool_decide_eq_false. tauto.
Qed.

(** X1. On a table that is not empty and has the annotation column,
    [select_values] with a list of values returns the rows whose
    annotation equals one of the values, as Python compares them
    ([True] equals 1), and only those: same columns, the rows in their
    original order under their original labels, every column cut by the
    same mask.  The warning is issued exactly when no row is left. *)
Theorem select_values_filters (data : Table) (annotation : string)
    (vals : list value) (col : column) :
  empty data = false ->
  get_col annotation data = Some col ->
  exists out w,
    select_values data annotation (Some vals) = Ok (out, w)
    /\ names out = names data
    /\ annotation_cells annotation out = filter (matches vals) (cells col)
    /\ index out = keep (isin vals col) (index data)
    /\ index out `sublist_of` index data
    /\ (forall n, get_col n out = col_keep (isin vals col) <$> get_col n data)
    /\ (w = [] <-> index out ≠ []).
Proof.
  intros Hne Hcol. unfold select_values. rewrite Hne, Hcol. simpl.
  set (out := loc_mask (isin vals col) data).
  assert (Hprops :
            names out = names data
            /\ annotation_cells annotation out
               = filter (matches vals) (cells col)
            /\ index out = keep (isin vals col) (index data)
            /\ index out `sublist_of` index data
            /\ (forall n, get_col n out
                          = col_keep (isin vals col) <$> get_col n data)).
  { split; first apply names_map_rows. split.
    - unfold annotation_cells, out, loc_mask.
      rewrite get_col_map_rows, Hcol. simpl. rewrite cells_col_keep.
      apply (keep_mask_filter (matches vals)).
    - split; first done. split; first apply keep_sublist.
      intros n. apply get_col_map_rows. }
  assert (Hcols : columns out ≠ []).
  { apply empty_false in Hne as [_ Hc]. unfold out, loc_mask, map_rows. simpl.
    by destruct (columns data). }
  destruct (empty out) eqn:Hempty.
  - exists out, ["No matching values found in the data."%string].
    split; first done. repeat (split; first apply Hprops).
    split; first done. intros Hidx.
    unfold empty in Hempty. apply orb_true_iff in Hempty as [H|H].
    + by apply bool_decide_eq_true in H.
    + by apply bool_decide_eq_true in H.
  - exists out, []. split; first done. repeat (split; first apply Hprops).
    split; last done. intros _. by apply empty_false in Hempty as [? _].
Qed.

Lemma select_values_filters_witness :
  exists out w,
    select_values docstring_table "value" (Some [VBool true; VInt 5])
    = Ok (out, w)
    /\ annotation_cells "value" out = [VInt 1; VInt 5]
    /\ index out = [Pos 0; Pos 4].
Proof.
  destruct (select_values_filters docstring_table "value"
              [VBool true; VInt 5] (IntCol [1; 2; 3; 4; 5; 6]))
    as (out & w & Hcall & _ & Hcells & Hindex & _); [done | done |].
  exists out, w. split; first done. split.
  - rewrite Hcells. vm_compute. reflexivity.
  - rewrite Hindex. vm_compute. reflexivity.
Defined.

(** ** [append_observation]: validation, precedence of the rules, columns *)

(** X2. Each of the four validations of [append_observation] raises
    [ValueError] before anything is created: a missing source column, an
    existing new column, rules that are not a list, a rule without
    [':']. *)
Theorem append_observation_rejects (h : heap) (data : positive) (df : Table)
    (source_column new_column : string) (mapping_rules : rules_arg) :
  h !! data = Some df ->
  source_column ∉ names df
  \/ new_column ∈ names df
  \/ mapping_rules = RulesOther
  \/ (exists rules rule,
        mapping_rules = RulesList rules /\ rule ∈ rules
        /\ contains ":" rule = false) ->
  append_observation h data source_column new_column mapping_rules
  = (Raise ValueError, h).
Proof.
  intros Hdata Hbad. unfold append_observation.
  destruct (h !! data) as [df'|] eqn:E; last done. injection Hdata as ->.
  assert (Hframe : append_observation_frame df source_column new_column
                     mapping_rules = Raise ValueError); last by rewrite Hframe.
  unfold append_observation_frame.
  destruct (get_col source_column df) as [src|] eqn:Hsrc; last done.
  destruct (decide (new_column ∈ names df)) as [|Hnew]; first done.
  destruct mapping_rules as [rules|]; last done.
  destruct Hbad as [Hs|[?|[?|(rules' & rule & [= <-] & Hin & Hrule)]]];
    try done.
  - exfalso. apply get_col_None in Hs. congruence.
  - assert (Hall : forallb (contains ":") rules = false).
    { apply not_true_is_false. intros Hall.
      rewrite forallb_forall in Hall.
      apply list_elem_of_In, Hall in Hin. congruence. }
    by rewrite Hall.
Qed.

Lemma append_observation_rejects_witness :
  append_observation {[ 1%positive := docstring_table ]} 1
    "annotation" "group" (RulesList ["a:x"; "by"]%string)
  = (Raise ValueError, {[ 1%positive := docstring_table ]}).
Proof.
  apply (append_observation_rejects _ _ docstring_table); first done.
  right. right. right. exists ["a:x"; "by"]%string, "by"%string.
  split; first done. split; last done.
  apply elem_of_cons. right. apply elem_of_cons. by left.
Defined.

Lemma set_where_fmap {A : Type} (test : A -> bool) (c : A -> value)
    (v : value) (l : list A) :
  set_where (test <$> l) v (c <$> l)
  = (fun x => if test x then v else c x) <$> l.
Proof.
  induction l as [|x l IH]; first done.
  rewrite !fmap_cons. cbn [set_where]. by rewrite IH.
Qed.

(** The loop of the rules on a column of strings. *)
Lemma apply_rules_mapped (rules : list string) (ss : list string)
    (current : string -> string) :
  Forall (fun rule => count_char ":" rule = 1%nat) rules ->
  apply_rules (VStr <$> ss) rules ((fun s => VStr (current s)) <$> ss)
  = Ok ((fun s => VStr (mapped_value rules s (current s))) <$> ss).
Proof.
  intros Hrules. revert current.
  induction Hrules as [|rule rules Hrule _ IH]; intros current; first done.
  destruct (split_one_separator _ _ Hrule) as (src & tgt & Hsplit).
  simpl. rewrite Hsplit.
  rewrite <- list_fmap_compose.
  rewrite (set_where_fmap
             ((fun s0 : value => bool_decide (s0 = VStr src)) ∘ VStr)
             (fun s => VStr (current s)) (VStr tgt) ss).
  rewrite (list_fmap_ext
             (fun x : string =>
                if ((fun s0 : value => bool_decide (s0 = VStr src)) ∘ VStr) x
                then VStr tgt else VStr (current x))
             (fun s => VStr (if decide (src = s) then tgt else current s)) ss).
  - apply (IH (fun s' => if decide (src = s') then tgt else current s')).
  - intros _ s _. simpl. destruct (decide (src = s)) as [->|Hne].
    + by rewrite bool_decide_eq_true_2.
    + rewrite bool_decide_eq_false_2; first done. by intros [= ->].
Qed.

Lemma names_assign_col_existing {C : Type} (name : string) (c : C)
    (cs : list (string * C)) :
  name ∈ cs.*1 -> (assign_col name c cs).*1 = cs.*1.
Proof.
  induction cs as [|[n c0] cs IH]; first by intros ?%elem_of_nil.
  rewrite fmap_cons. cbn [assign_col fst].
  destruct (decide (n = name)) as [->|Hne]; first done.
  intros [?|Hin]%elem_of_cons; first done.
  rewrite fmap_cons. cbn [fst]. f_equal. by apply IH.
Qed.

Lemma astype_through_str (src : column) :
  astype (col_dtype src) (astype_str src) = Ok (through_str src).
Proof.
  destruct src as [l|l|l]; simpl.
  - assert (Hl : mapM to_int ((fun v => VStr (to_str v)) <$> (VInt <$> l))
                 = Ok l).
    { induction l as [|z l IH]; first done.
      rewrite !fmap_cons. simpl. rewrite Z_of_str_of_Z. simpl.
      change (mapM to_int ((fun v => VStr (to_str v)) <$> (VInt <$> l))
              ≫= (fun l' => Ok (z :: l')) = Ok (z :: l)).
      by rewrite IH. }
    by rewrite Hl.
  - do 2 f_equal. induction l as [|b l IH]; first done.
    rewrite !fmap_cons. simpl. rewrite IH. by destruct b.
  - done.
Qed.

(** The frame returned by [append_observation] on valid arguments. *)
Lemma append_observation_frame_eq (df : Table)
    (source_column new_column : string) (rules : list string) (src : column) :
  get_col source_column df = Some src ->
  new_column ∉ names df ->
  Forall (fun rule => count_char ":" rule = 1%nat) rules ->
  length (cells src) = nrows df ->
  append_observation_frame df source_column new_column (RulesList rules)
  = Ok (set_col source_column (through_str src)
          (set_col new_column
             (ObjCol ((fun v => VStr (mapped_value rules (to_str v) "Not_Mapped"))
                        <$> cells src))
             (set_col source_column (astype_str src)
                (set_col new_column
                   (ObjCol (replicate (nrows df) (VStr "Not_Mapped"))) df)))).
Proof.
  intros Hsrc Hnew Hrules Hlen. unfold append_observation_frame.
  rewrite Hsrc. rewrite decide_False by done.
  rewrite rules_pass_validation by done.
  assert (Hinit : replicate (nrows df) (VStr "Not_Mapped")
                  = (fun s : string => VStr "Not_Mapped")
                      <$> (to_str <$> cells src)).
  { rewrite <- Hlen. clear. induction (cells src) as [|v l IH]; first done.
    simpl. by rewrite IH. }
  assert (Hstr : cells (astype_str src) = VStr <$> (to_str <$> cells src)).
  { simpl. by rewrite <- list_fmap_compose. }
  rewrite Hstr, Hinit at 1.
  rewrite (apply_rules_mapped rules (to_str <$> cells src)
             (fun _ => "Not_Mapped"%string)) by done.
  simpl. rewrite astype_through_str. simpl.
  rewrite <- list_fmap_compose. done.
Qed.

Lemma mapped_value_none (rules : list string) (s current : string) :
  no_rule_for s rules -> mapped_value rules s current = current.
Proof.
  revert current. induction rules as [|rule rules IH]; intros current Hno;
    first done.
  simpl. destruct (split ":" rule) as [|s' [|t [|? ?]]] eqn:Hsplit; try done.
  rewrite IH.
  - rewrite decide_False; first done. apply (Hno rule s' t); [by left | done].
  - intros r s'' t' Hr. apply (Hno r s'' t'). by right.
Qed.

Lemma mapped_value_last (pre post : list string) (rule s t current : string) :
  Forall (fun rule => count_char ":" rule = 1%nat) pre ->
  split ":" rule = [s; t] ->
  no_rule_for s post ->
  mapped_value (pre ++ rule :: post) s current = t.
Proof.
  intros Hpre Hsplit Hpost. revert current.
  induction Hpre as [|r pre Hr _ IH]; intros current.
  - simpl. rewrite Hsplit. rewrite decide_True by done.
    by apply mapped_value_none.
  - simpl. destruct (split_one_separator _ _ Hr) as (s' & t' & ->). apply IH.
Qed.

(** X3. The rules of [append_observation] are applied in list order and a
    later rule overrides an earlier one: in the new column, the cell of a
    row is the target of the last rule whose source is the string of the
    source cell of that row, and ["Not_Mapped"] when no rule has that
    source. *)
Theorem append_observation_last_rule_wins (h : heap) (data : positive)
    (df : Table) (source_column new_column : string) (rules : list string)
    (src : column) :
  h !! data = Some df ->
  get_col source_column df = Some src ->
  new_column ∉ names df ->
  Forall (fun rule => count_char ":" rule = 1%nat) rules ->
  length (cells src) = nrows df ->
  exists (r : positive) (out : Table) (new_col : list value),
    append_observation h data source_column new_column (RulesList rules)
    = (Ok r, <[r := out]> h)
    /\ get_col new_column out = Some (ObjCol new_col)
    /\ length new_col = nrows df
    /\ forall i v,
         cells src !! i = Some v ->
         (no_rule_for (to_str v) rules ->
            new_col !! i = Some (VStr "Not_Mapped"))
         /\ (forall pre rule post t,
               rules = pre ++ rule :: post ->
               split ":" rule = [to_str v; t] ->
               no_rule_for (to_str v) post ->
               new_col !! i = Some (VStr t)).
Proof.
  intros Hdata Hsrc Hnew Hrules Hlen.
  assert (Hne : source_column ≠ new_column).
  { intros ->. apply get_col_None in Hnew. congruence. }
  eexists (fresh (dom h)), _, _. split.
  - unfold append_observation. rewrite Hdata.
    rewrite (append_observation_frame_eq df source_column new_column rules src)
      by done.
    reflexivity.
  - split.
    { rewrite get_set_col_ne by done. apply get_set_col_eq. }
    split; first by rewrite length_fmap.
    intros i v Hv. rewrite list_lookup_fmap, Hv. simpl. split.
    + intros Hno. by rewrite mapped_value_none.
    + intros pre rule post t -> Hsplit Hpost.
      rewrite (mapped_value_last pre post rule (to_str v) t); try done.
      apply Forall_app in Hrules as [Hpre _]. exact Hpre.
Qed.

Lemma append_observation_last_rule_wins_witness :
  exists (r : positive) (out : Table) (new_col : list value),
    append_observation {[ 1%positive := docstring_table ]} 1
      "annotation" "group" (RulesList ["a:first"; "b:other"; "a:second"]%string)
    = (Ok r, <[r := out]> {[ 1%positive := docstring_table ]})
    /\ get_col "group" out = Some (ObjCol new_col)
    /\ new_col !! 0%nat = Some (VStr "second")
    /\ new_col !! 5%nat = Some (VStr "Not_Mapped").
Proof.
  destruct (append_observation_last_rule_wins
              {[ 1%positive := docstring_table ]} 1 docstring_table
              "annotation" "group" ["a:first"; "b:other"; "a:second"]%string
              (ObjCol [VStr "a"; VStr "a"; VStr "a"; VStr "b"; VStr "b"; VStr "c"]))
    as (r & out & new_col & Hcall & Hget & _ & Hcells).
  - reflexivity.
  - reflexivity.
  - unfold names; simpl. rewrite !not_elem_of_cons.
    repeat split; try done. apply not_elem_of_nil.
  - repeat constructor.
  - reflexivity.
  - exists r, out, new_col. split; first done. split; first done. split.
    + apply (proj2 (Hcells 0%nat (VStr "a") eq_refl)
               ["a:first"; "b:other"]%string "a:second"%string [] "second"%string);
        [done | done |].
      intros rule s' t []%elem_of_nil.
    + apply (proj1 (Hcells 5%nat (VStr "c") eq_refl)).
      intros rule s' t Hin Hsplit.
      repeat (apply elem_of_cons in Hin as [->|Hin];
              [vm_compute in Hsplit; by injection Hsplit as <- _|]).
      by apply elem_of_nil in Hin.
Defined.

Lemma names_set_col_existing (name : string) (c : column) (df : Table) :
  name ∈ names df -> names (set_col name c df) = names df.
Proof. apply names_assign_col_existing. Qed.

Lemma names_set_col_fresh (name : string) (c : column) (df : Table) :
  name ∉ names df -> names (set_col name c df) = names df ++ [name].
Proof.
  intros Hn. unfold names, set_col. simpl.
  rewrite assign_col_fresh by done. by rewrite fmap_app.
Qed.

Lemma names_append_observation (s n : string) (c1 c2 c3 c4 : column)
    (df : Table) :
  s ∈ names df -> n ∉ names df ->
  names (set_col s c4 (set_col n c3 (set_col s c2 (set_col n c1 df))))
  = names df ++ [n].
Proof.
  intros Hs Hn.
  pose proof (names_set_col_fresh n c1 df Hn) as N1.
  assert (N2 : names (set_col s c2 (set_col n c1 df)) = names df ++ [n]).
  { rewrite names_set_col_existing; first done.
    rewrite N1. apply elem_of_app. by left. }
  assert (N3 : names (set_col n c3 (set_col s c2 (set_col n c1 df)))
               = names df ++ [n]).
  { rewrite names_set_col_existing; first done.
    rewrite N2. apply elem_of_app. right. by apply list_elem_of_singleton. }
  rewrite names_set_col_existing; first done.
  rewrite N3. apply elem_of_app. by left.
Qed.

(** X4. [append_observation] keeps every column of its input in place
    and appends the new column last; the columns other than the source
    are the very columns of the input.  The source column comes back
    through its strings: an int64 column is unchanged, but every cell of a
    bool column comes back [True] and the cells of an object column come
    back as strings. *)
Theorem append_observation_columns (h : heap) (data : positive)
    (df : Table) (source_column new_column : string) (rules : list string)
    (src : column) :
  h !! data = Some df ->
  get_col source_column df = Some src ->
  new_column ∉ names df ->
  Forall (fun rule => count_char ":" rule = 1%nat) rules ->
  length (cells src) = nrows df ->
  exists (r : positive) (out : Table),
    append_observation h data source_column new_column (RulesList rules)
    = (Ok r, <[r := out]> h)
    /\ names out = names df ++ [new_column]
    /\ index out = index df
    /\ get_col source_column out = Some (through_str src)
    /\ forall other,
         other ≠ source_column -> other ≠ new_column ->
         get_col other out = get_col other df.
Proof.
  intros Hdata Hsrc Hnew Hrules Hlen.
  assert (Hne : source_column ≠ new_column).
  { intros ->. apply get_col_None in Hnew. congruence. }
  assert (Hin : source_column ∈ names df).
  { destruct (decide (source_column ∈ names df)) as [|Hn]; first done.
    apply get_col_None in Hn. congruence. }
  eexists (fresh (dom h)), _. split.
  - unfold append_observation. rewrite Hdata.
    rewrite (append_observation_frame_eq df source_column new_column rules src)
      by done.
    reflexivity.
  - split; [|split; [done|split; [apply get_set_col_eq|]]].
    + by apply names_append_observation.
    + intros other Ho1 Ho2.
      rewrite !get_set_col_ne by done. done.
Qed.

Lemma append_observation_columns_witness :
  exists (r : positive) (out : Table),
    append_observation {[ 1%positive := one_hot_table ]} 1
      "A" "kind" (RulesList ["1:yes"]%string)
    = (Ok r, <[r := out]> {[ 1%positive := one_hot_table ]})
    /\ names out = ["A"; "B"; "kind"]%string
    /\ get_col "A" out = Some (IntCol [1; 1; 0; 0]).
Proof.
  destruct (append_observation_columns {[ 1%positive := one_hot_table ]} 1
              one_hot_table "A" "kind" ["1:yes"]%string (IntCol [1; 1; 0; 0]))
    as (r & out & Hcall & Hnames & _ & Hsrc & _).
  - reflexivity.
  - reflexivity.
  - unfold names; simpl. rewrite !not_elem_of_cons.
    repeat split; try done. apply not_elem_of_nil.
  - repeat constructor.
  - reflexivity.
  - by exists r, out.
Defined.

(** ** [bin2cat]: the categories and the failures *)

(** X5. When [bin2cat] returns a table, the new column holds, row by
    row, the name of the one matched column that has a one in that row,
    and the missing value when no matched column has one. *)
Theorem bin2cat_categories
    (regex_search_list : list string -> list string -> list string)
    (h h' : heap) (data r : positive) (one_hot_annotations : patterns_arg)
    (new_annotation : string) :
  bin2cat regex_search_list h data one_hot_annotations new_annotation
  = (Ok (Some r), h') ->
  exists (df : Table) (categories : list value),
    h !! data = Some df
    /\ h' !! data = Some (set_col new_annotation (ObjCol categories) df)
    /\ forall i, (i < nrows df)%nat ->
         let ones :=
           ones_of df
             (regex_search_list (patterns_of one_hot_annotations) (names df)) i in
         exists v,
           categories !! i = Some v
           /\ ((ones = [] /\ v = VNaN) \/ (exists n, ones = [n] /\ v = VStr n)).
Proof.
  unfold bin2cat. intros Hcall.
  destruct (h !! data) as [df|] eqn:Hdata; last done.
  assert (Hpats : exists pats,
             (match one_hot_annotations with
              | PatStr s => Ok [s]
              | PatList l => Ok l
              | PatOther => Raise ValueError
              end) = Ok pats /\ pats = patterns_of one_hot_annotations).
  { destruct one_hot_annotations; [by eexists | by eexists | done]. }
  destruct Hpats as (pats & Hp & Hpats). rewrite Hp in Hcall. rewrite <- Hpats.
  destruct (decide (new_annotation ∈ names df)) as [|Hnew]; first done.
  destruct (0 <? length pats)%nat; last done.
  destruct (0 <? length (regex_search_list pats (names df)))%nat; last done.
  destruct (mapM _ (regex_search_list pats (names df))) as [cols|] eqn:Hcols;
    last done.
  destruct (mapM _ (seq 0 (nrows df))) as [categories|] eqn:Hrows; last done.
  injection Hcall as <- <-.
  exists df, categories. split; first done.
  split; first by rewrite lookup_insert_eq.
  intros i Hi.
  set (ones := ones_of df (regex_search_list pats (names df)) i).
  destruct (mapM_result_lookup _ _ _ i i Hrows) as (v & Hv & Hrow).
  { by apply lookup_seq. }
  exists v. split; first done.
  unfold get_columns_with_1 in Hrow.
  rewrite (keep_ones df _ cols i Hcols) in Hrow. fold ones in Hrow.
  destruct ones as [|n [|? ?]]; try done.
  - injection Hrow as <-. by left.
  - injection Hrow as <-. right. by exists n.
Qed.

Lemma bin2cat_categories_witness :
  exists (df : Table) (categories : list value),
    two_files_heap !! 1%positive = Some df
    /\ categories !! 2%nat = Some (VStr "B")
    /\ categories !! 3%nat = Some VNaN.
Proof.
  pose proof (fun h' =>
      bin2cat_categories (fun pats cols => filter (fun c => c ∈ pats) cols)
        two_files_heap h' 1 1 (PatList ["A"; "B"]%string) "new_category")
    as Hthm.
  edestruct Hthm as (df & categories & Hdf & _ & Hrows).
  - vm_compute. reflexivity.
  - injection Hdf as <-. exists one_hot_table, categories.
    split; first done. split.
    + destruct (Hrows 2%nat) as (v & Hv & [[Hones _]|(n & Hones & ->)]).
      * vm_compute. lia.
      * vm_compute in Hones. done.
      * vm_compute in Hones. by injection Hones as <-.
    + destruct (Hrows 3%nat) as (v & Hv & [[_ ->]|(n & Hones & _)]).
      * vm_compute. lia.
      * done.
      * vm_compute in Hones. done.
Defined.

(** X6. [bin2cat] raises [ValueError] and leaves the table as it was
    when the patterns are neither a string nor a list, when the new
    column exists, when patterns are given but match no column, and when
    some row has a one in two or more of the matched columns. *)
Theorem bin2cat_rejects
    (regex_search_list : list string -> list string -> list string)
    (h : heap) (data : positive) (df : Table)
    (one_hot_annotations : patterns_arg) (new_annotation : string) :
  h !! data = Some df ->
  one_hot_annotations = PatOther
  \/ new_annotation ∈ names df
  \/ (patterns_of one_hot_annotations ≠ []
      /\ regex_search_list (patterns_of one_hot_annotations) (names df) = [])
  \/ (patterns_of one_hot_annotations ≠ []
      /\ Forall (fun n => n ∈ names df)
           (regex_search_list (patterns_of one_hot_annotations) (names df))
      /\ exists i, (i < nrows df)%nat
           /\ (2 <= length
                      (ones_of df
                         (regex_search_list (patterns_of one_hot_annotations)
                            (names df)) i))%nat) ->
  bin2cat regex_search_list h data one_hot_annotations new_annotation
  = (Raise ValueError, h).
Proof.
  intros Hdata Hbad. unfold bin2cat.
  destruct (h !! data) as [df'|] eqn:E; last done. injection Hdata as ->.
  assert (Hcase : one_hot_annotations = PatOther
                   \/ (match one_hot_annotations with
                       | PatStr s => Ok [s]
                       | PatList l => Ok l
                       | PatOther => Raise ValueError
                       end) = Ok (patterns_of one_hot_annotations)).
  { destruct one_hot_annotations; [by right | by right | by left]. }
  destruct Hcase as [->|Hp]; first done.
  rewrite Hp. set (pats := patterns_of one_hot_annotations) in *.
  destruct (decide (new_annotation ∈ names df)) as [|Hnew]; first done.
  destruct Hbad as [Ho|[?|[[Hpats Hnone]|(Hpats & Hall & i & Hi & Htwo)]]].
  - by rewrite Ho in Hp.
  - done.
  - rewrite Hnone. by destruct pats.
  - assert (Hlen : (0 <? length pats)%nat = true) by (by destruct pats).
    rewrite Hlen.
    set (labels := regex_search_list pats (names df)) in *.
    assert (Hlabels : (0 <? length labels)%nat = true).
    { destruct labels; last done. unfold ones_of in Htwo. simpl in Htwo. lia. }
    rewrite Hlabels.
    destruct (mapM_get_cols df labels Hall) as [cols Hcols]. rewrite Hcols.
    rewrite (mapM_result_raise _ (seq 0 (nrows df)) ValueError i);
      first done.
    + intros j _. unfold get_columns_with_1.
      destruct (keep _ labels) as [|? [|? ?]]; [right | right | left];
        by try eexists.
    + apply elem_of_seq. lia.
    + unfold get_columns_with_1. rewrite (keep_ones df labels cols i Hcols).
      destruct (ones_of df labels i) as [|? [|? ?]]; simpl in Htwo; try lia.
      done.
Qed.

Lemma bin2cat_rejects_witness :
  bin2cat (fun pats cols => filter (fun c => c ∈ pats) cols)
    {[ 1%positive := ambiguous_table ]} 1
    (PatList ["A"; "B"]%string) "category"
  = (Raise ValueError, {[ 1%positive := ambiguous_table ]}).
Proof.
  apply (bin2cat_rejects _ _ _ ambiguous_table); first done.
  right. right. right. split; first done. split.
  - vm_compute. repeat constructor.
  - exists 0%nat. split; vm_compute; lia.
Defined.

(** ** [combine_dfs]: the combined frame *)

Lemma index_add_annotations (ann : list (string * value)) (df : Table) :
  index (add_annotations ann df) = index df.
Proof.
  unfold add_annotations. revert df.
  induction ann as [|nv ann IH]; intros df; simpl; first done.
  by rewrite IH.
Qed.

Lemma columns_add_annotations (ann : list (string * value)) (df : Table) :
  columns df ≠ [] -> columns (add_annotations ann df) ≠ [].
Proof.
  unfold add_annotations. revert df.
  induction ann as [|nv ann IH]; intros df Hne; simpl; first done.
  apply IH. unfold set_col. simpl.
  destruct (columns df) as [|[n c] cs]; first done. simpl.
  by destruct (decide (n = nv.1)).
Qed.

Lemma total_rows_insert (h : heap) (dfs : list (string * positive))
    (l : positive) (df df' : Table) :
  h !! l = Some df -> nrows df' = nrows df ->
  total_rows (<[l := df']> h) dfs = total_rows h dfs.
Proof.
  intros Hl Hrows. unfold total_rows. f_equal. apply list_fmap_ext.
  intros _ entry _. destruct (decide (l = entry.2)) as [<-|Hne].
  - rewrite lookup_insert_eq.
    destruct (h !! l) as [d|] eqn:E; last done. by injection Hl as ->.
  - by rewrite lookup_insert_ne.
Qed.

Lemma total_rows_cons (h : heap) (dfs : list (string * positive))
    (f : string) (l : positive) (df : Table) :
  h !! l = Some df ->
  total_rows h ((f, l) :: dfs) = (nrows df + total_rows h dfs)%nat.
Proof.
  intros Hl. unfold total_rows. rewrite fmap_cons. cbn [snd].
  destruct (h !! l) as [d|] eqn:E; last done. by injection Hl as ->.
Qed.

Lemma nrows_concat2 (x y : Table) :
  nrows (concat2 x y) = (nrows x + nrows y)%nat.
Proof. unfold nrows, concat2. simpl. apply length_app. Qed.

Lemma combine_loop_rows (a : gmap string (list (string * value)))
    (dfs : list (string * positive)) (meta : list string)
    (combined out : Table) (h h' : heap) :
  combine_loop a dfs meta combined h = (Ok out, h') ->
  index combined = [] \/ columns combined ≠ [] ->
  with_columns h dfs ->
  nrows out = (nrows combined + total_rows h dfs)%nat.
Proof.
  revert meta combined h.
  induction dfs as [|[f l] dfs IH]; intros meta combined h; simpl.
  - intros [= <- _] _ _. unfold total_rows. simpl. lia.
  - destruct (h !! l) as [df|] eqn:Hl; last done.
    destruct (check_schema _ _); last done.
    destruct (a !! f) as [ann|] eqn:Ha; last done.
    intros Hloop Hinv Hcols.
    inversion Hcols as [|? ? Hdf Hrest]; subst. simpl in Hdf.
    specialize (Hdf df Hl).
    pose proof (columns_add_annotations ann df Hdf) as Hdf'.
    pose proof (index_add_annotations ann df) as Hidx.
    apply IH in Hloop.
    + rewrite Hloop.
      assert (Hrows : nrows (add_annotations ann df) = nrows df).
      { unfold nrows. by rewrite Hidx. }
      rewrite (total_rows_insert h dfs l df) by done.
      rewrite (total_rows_cons h dfs f l df) by done.
      destruct (empty combined) eqn:Hempty.
      * assert (Hnil : nrows combined = 0%nat).
        { unfold nrows. destruct Hinv as [->|Hc]; first done.
          unfold empty in Hempty. apply orb_true_iff in Hempty as [H|H];
            apply bool_decide_eq_true in H; [by rewrite H | done]. }
        lia.
      * rewrite nrows_concat2. lia.
    + right. destruct (empty combined) eqn:Hempty; first done.
      apply empty_false in Hempty as [_ Hc]. unfold concat2. simpl.
      destruct (columns combined); done.
    + unfold with_columns in *. eapply Forall_impl; first exact Hrest.
      intros entry Hentry d. simpl.
      destruct (decide (l = entry.2)) as [<-|Hne].
      * rewrite lookup_insert_eq. by intros [= <-].
      * rewrite lookup_insert_ne by done. apply Hentry.
Qed.

(** X7. When [combine_dfs] succeeds on frames that have columns, the
    combined frame has as many rows as all the frames of the list
    together, and its index is the dense sequence 0, 1, ... *)
Theorem combine_dfs_dense_index (h h' : heap)
    (dataframes : list (string * positive))
    (a : gmap string (list (string * value))) (r : positive) :
  with_columns h dataframes ->
  combine_dfs h dataframes (AnnFrame a) = (Ok r, h') ->
  exists combined,
    h' !! r = Some combined
    /\ index combined = range_index (total_rows h dataframes).
Proof.
  intros Hcols. unfold combine_dfs.
  destruct (combine_loop a dataframes [] (mkDF [] []) h)
    as [[combined|e] h1] eqn:Hloop; last done.
  unfold alloc. intros [= <- <-].
  apply combine_loop_rows in Hloop; [|by left|done].
  eexists. rewrite lookup_insert_eq. split; first done.
  unfold reset_index. simpl. by rewrite Hloop.
Qed.

Lemma combine_dfs_dense_index_witness :
  exists combined,
    (combine_dfs two_files_heap two_files
       (AnnFrame (<["second.csv"%string := [("region"%string, VStr "R2")]]>
                    first_file_annotations))).2 !! 3%positive = Some combined
    /\ index combined = range_index 8.
Proof.
  pose proof (fun h' =>
      combine_dfs_dense_index two_files_heap h' two_files
        (<["second.csv"%string := [("region"%string, VStr "R2")]]>
           first_file_annotations) 3) as Hthm.
  edestruct Hthm as (combined & Hget & Hidx).
  - repeat constructor; simpl; intros df Hdf; vm_compute in Hdf;
      by injection Hdf as <-.
  - vm_compute. reflexivity.
  - exists combined. split; last exact Hidx. exact Hget.
Defined.

(** ** [load_csv_files]: what a result means, which error comes first *)

Lemma check_schema_inv (meta current : list string) :
  check_schema meta current = Ok () -> same_schema meta current.
Proof.
  unfold check_schema.
  destruct (length meta =? length current)%nat eqn:Hlen; last done.
  destruct (same_set meta current) eqn:Hset; last done.
  intros _. split; [by apply Nat.eqb_eq | by apply same_set_spec].
Qed.

Lemma load_loop_inv (fs : filesystem) (paths meta : list string)
    (acc r : list (string * Table)) :
  meta ≠ [] ->
  load_loop fs paths meta acc = Ok r ->
  exists new,
    r = acc ++ new /\ new.*1 = paths
    /\ Forall (fun pt => loadable fs pt.1 pt.2) new
    /\ Forall (fun pt => same_schema meta (names pt.2)) new.
Proof.
  intros Hmeta. revert acc.
  induction paths as [|path paths IH]; intros acc; simpl.
  - intros [= <-]. exists []. by rewrite app_nil_r.
  - destruct (fs !! path) as [f|] eqn:Hf; last done.
    destruct (readable f) eqn:Hread; last done. simpl.
    destruct (read_csv f) as [t|] eqn:Hcsv; last done. simpl.
    rewrite acquire_schema_known by done.
    destruct (check_schema meta (names t)) as [[]|] eqn:Hcheck; last done.
    simpl. intros Hloop.
    destruct (IH _ Hloop) as (new & -> & Hpaths & Hload & Hsame).
    exists ((path, t) :: new). split; first by rewrite <- app_assoc.
    split; first by rewrite fmap_cons, Hpaths.
    split.
    + constructor; last done. exists f. simpl.
      unfold read_csv in Hcsv. destruct (content f) as [| |t']; try done.
      destruct (bool_decide (columns t' = [])) eqn:Hc; first done.
      injection Hcsv as ->. by apply bool_decide_eq_false in Hc.
    + constructor; last done. by apply check_schema_inv.
Qed.

(** X8. A result of [load_csv_files] is never partial: it has one pair
    per path of the input, in input order, each path is an existing
    readable file paired with the table parsed from it, and the schema of
    every table agrees with the schema of the first. *)
Theorem load_csv_files_sound (fs : filesystem) (paths : list string)
    (r : list (string * Table)) :
  load_csv_files fs (FileList paths) = Ok r ->
  r.*1 = paths
  /\ Forall (fun pt => loadable fs pt.1 pt.2) r
  /\ Forall (fun pt => same_schema (first_schema r) (names pt.2)) r.
Proof.
  unfold load_csv_files. destruct paths as [|path paths]; simpl.
  - by intros [= <-].
  - destruct (fs !! path) as [f|] eqn:Hf; last done.
    destruct (readable f) eqn:Hread; last done. simpl.
    destruct (read_csv f) as [t|] eqn:Hcsv; last done. simpl.
    assert (Hcols : content f = Parsed t /\ columns t ≠ []).
    { unfold read_csv in Hcsv. destruct (content f) as [| |t']; try done.
      destruct (bool_decide (columns t' = [])) eqn:Hc; first done.
      injection Hcsv as ->. by apply bool_decide_eq_false in Hc. }
    destruct Hcols as [Hcontent Hcols].
    assert (Hne : names t ≠ []).
    { unfold names. by destruct (columns t). }
    unfold acquire_schema at 1 2. simpl.
    destruct (check_schema (names t) (names t)) as [[]|]; last done. simpl.
    intros Hloop.
    destruct (load_loop_inv fs paths (names t) _ r Hne Hloop)
      as (new & -> & Hpaths & Hload & Hsame).
    change ([(path, t)] ++ new) with ((path, t) :: new).
    split; first (rewrite fmap_cons; cbn [fst]; by rewrite Hpaths).
    split.
    + constructor; last done. by exists f.
    + constructor; [apply same_schema_refl | done].
Qed.

Lemma load_csv_files_sound_witness :
  [("a.csv"%string, docstring_table); ("b.csv"%string, swapped_table)].*1
  = ["a.csv"; "b.csv"]%string
  /\ Forall (fun pt : string * Table => loadable three_files pt.1 pt.2)
       [("a.csv"%string, docstring_table); ("b.csv"%string, swapped_table)].
Proof.
  destruct (load_csv_files_sound three_files ["a.csv"; "b.csv"]%string
              [("a.csv"%string, docstring_table); ("b.csv"%string, swapped_table)])
    as (Hpaths & Hload & _).
  - vm_compute. reflexivity.
  - by split.
Defined.

Lemma load_loop_app (fs : filesystem) (files : list (string * Table))
    (rest meta : list string) (acc : list (string * Table)) :
  meta ≠ [] ->
  Forall (fun pt => loadable fs pt.1 pt.2) files ->
  Forall (fun pt => same_schema meta (names pt.2)) files ->
  load_loop fs (files.*1 ++ rest) meta acc
  = load_loop fs rest meta (acc ++ files).
Proof.
  intros Hmeta Hload. revert acc.
  induction Hload as [|[path t] files Hpt _ IH]; intros acc Hsame.
  - by rewrite app_nil_r.
  - inversion Hsame as [|? ? Hs Hrest]; subst.
    rewrite fmap_cons. simpl fst. rewrite <- app_comm_cons.
    rewrite (load_loop_step fs path t) by done.
    rewrite acquire_schema_known by done.
    rewrite check_schema_ok by done. simpl.
    rewrite IH by done. by rewrite <- app_assoc.
Qed.

(** The files before [path] load and agree; the loop arrives at [path]
    with their schema. *)
Lemma load_csv_files_prefix (fs : filesystem) (pre : list (string * Table))
    (rest : list string) :
  Forall (fun pt => loadable fs pt.1 pt.2) pre ->
  Forall (fun pt => same_schema (first_schema pre) (names pt.2)) pre ->
  load_csv_files fs (FileList (pre.*1 ++ rest))
  = load_loop fs rest (first_schema pre) pre.
Proof.
  intros Hload Hsame. unfold load_csv_files.
  destruct pre as [|[path t] pre]; first done.
  inversion Hload as [|? ? Hpt Hrest]; subst. simpl in Hpt.
  inversion Hsame as [|? ? _ Hsame']; subst. simpl first_schema in *.
  assert (Hne : names t ≠ []).
  { destruct Hpt as (_ & _ & _ & _ & Hcols). unfold names.
    by destruct (columns t). }
  rewrite fmap_cons. simpl fst. rewrite <- app_comm_cons.
  rewrite (load_loop_step fs path t) by done.
  unfold acquire_schema. simpl.
  rewrite check_schema_ok by apply same_schema_refl. simpl.
  by rewrite load_loop_app.
Qed.

(** X9. The first file that cannot be loaded decides the error, whatever
    follows it: [FileNotFoundError] when it does not exist,
    [PermissionError] when it exists but cannot be read, [TypeError]
    when it is readable but empty or not parseable. *)
Theorem load_csv_files_first_error (fs : filesystem)
    (pre : list (string * Table)) (path : string) (rest : list string) :
  Forall (fun pt => loadable fs pt.1 pt.2) pre ->
  Forall (fun pt => same_schema (first_schema pre) (names pt.2)) pre ->
  (fs !! path = None ->
     load_csv_files fs (FileList (pre.*1 ++ path :: rest))
     = Raise FileNotFoundError)
  /\ (forall f, fs !! path = Some f -> readable f = false ->
        load_csv_files fs (FileList (pre.*1 ++ path :: rest))
        = Raise PermissionError)
  /\ (forall f, fs !! path = Some f -> readable f = true ->
        content f = EmptyData \/ content f = Malformed ->
        load_csv_files fs (FileList (pre.*1 ++ path :: rest))
        = Raise TypeError).
Proof.
  intros Hload Hsame. rewrite load_csv_files_prefix by done.
  split; [|split].
  - intros Hf. simpl. by rewrite Hf.
  - intros f Hf Hread. simpl. by rewrite Hf, Hread.
  - intros f Hf Hread Hcontent. simpl. rewrite Hf, Hread. simpl.
    unfold read_csv. by destruct Hcontent as [-> | ->].
Qed.

Lemma load_csv_files_first_error_witness :
  load_csv_files three_files
    (FileList ["a.csv"; "b.csv"; "missing.csv"; "c.csv"]%string)
  = Raise FileNotFoundError.
Proof.
  assert (Ha : loadable three_files "a.csv" docstring_table).
  { eexists. split; first (vm_compute; reflexivity). by repeat split. }
  assert (Hb : loadable three_files "b.csv" swapped_table).
  { eexists. split; first (vm_compute; reflexivity). by repeat split. }
  assert (Hab : same_schema (names docstring_table) (names swapped_table)).
  { split; first done. intros x. unfold names; simpl.
    rewrite !elem_of_cons. tauto. }
  apply (proj1 (load_csv_files_first_error three_files
                  [("a.csv"%string, docstring_table);
                   ("b.csv"%string, swapped_table)]
                  "missing.csv" ["c.csv"%string]
                  ltac:(repeat constructor; done)
                  ltac:(constructor;
                        [apply same_schema_refl
                        | constructor; [exact Hab | constructor]]))).
  vm_compute. reflexivity.
Defined.

(** ** [downsample_cells]: the branch without stratification, tables
    without groups *)

(** X10. Without stratification, for [n_samples >= 0] and keys that do
    not mix booleans with integers, [downsample_cells] always returns:
    every group contributes exactly [min n_samples (size of the group)]
    rows, the row count is the sum of these numbers over the groups, and
    the rows are renumbered 0, 1, ... *)
Theorem downsample_plain_exact (rng : nat -> nat -> list nat) (data : Table)
    (annotation : string) (col : column) (n : Z) (rand : bool) :
  well_formed data = true ->
  unmixed (cells col) = true ->
  0 <= n ->
  get_col annotation data = Some col ->
  exists out,
    downsample_cells rng data annotation (Some n) false rand = Ok out
    /\ (forall g, g ∈ group_keys (cells col) ->
          rows_of annotation g out
          = Nat.min (Z.to_nat n) (group_size g (cells col)))
    /\ nrows out
       = sum_list ((fun g => Nat.min (Z.to_nat n) (group_size g (cells col)))
                     <$> group_keys (cells col))
    /\ index out = range_index (nrows out).
Proof.
  intros Hwf _ Hn Hcol.
  pose proof (downsample_plain_eq rng rand n data annotation col Hwf Hn Hcol)
    as Heq.
  eexists. split; first exact Heq.
  split; [|split].
  - intros g Hg.
    rewrite (plain_rows_of rng rand n data annotation col Hwf Hn Hcol _ g Heq).
    by rewrite decide_True.
  - apply (plain_out_spec rng rand n data annotation col Hwf Hn Hcol _ Heq).
  - unfold reset_index at 1. simpl. by rewrite nrows_reset_index.
Qed.

Lemma downsample_plain_exact_witness :
  exists out,
    downsample_cells last_rows docstring_table "annotation" (Some 2)
      false false = Ok out
    /\ nrows out = 5%nat
    /\ index out = range_index 5.
Proof.
  destruct (downsample_plain_exact last_rows docstring_table "annotation"
              (ObjCol [VStr "a"; VStr "a"; VStr "a"; VStr "b"; VStr "b"; VStr "c"])
              2 false)
    as (out & Hcall & _ & Hrows & Hindex); [done | done | lia | done |].
  exists out. split; first done.
  assert (Hfive : nrows out = 5%nat) by (rewrite Hrows; vm_compute; reflexivity).
  split; first done. by rewrite Hindex, Hfive.
Defined.

Lemma group_keys_all_missing (ks : list value) :
  Forall (fun k => k = VNaN) ks -> group_keys ks = [].
Proof.
  intros Hall. unfold group_keys.
  assert (Hnil : filter (fun k => k ≠ VNaN) ks = []).
  { induction Hall as [|k ks -> _ IH]; first done.
    rewrite filter_cons. by rewrite decide_False by (by intros ?). }
  by rewrite Hnil.
Qed.

(** X11. On a table without any group (no row, or no row whose
    annotation is present) the stratified branch raises [ValueError],
    since there is no sample to concatenate, while the other branch
    returns a table without rows. *)
Theorem downsample_no_groups (rng : nat -> nat -> list nat) (data : Table)
    (annotation : string) (col : column) (n : Z) (rand : bool) :
  get_col annotation data = Some col ->
  Forall (fun k => k = VNaN) (cells col) ->
  downsample_cells rng data annotation (Some n) true rand = Raise ValueError
  /\ exists out,
       downsample_cells rng data annotation (Some n) false rand = Ok out
       /\ nrows out = 0%nat.
Proof.
  intros Hcol Hall. unfold downsample_cells, downsample_cells_with, groupby. rewrite Hcol.
  rewrite (group_keys_all_missing _ Hall). simpl.
  split; first done. by eexists.
Qed.

Lemma downsample_no_groups_witness :
  downsample_cells last_rows
    (mkDF [Pos 0; Pos 1]
       [("annotation"%string, ObjCol [VNaN; VNaN]);
        ("value"%string, IntCol [1; 2])])
    "annotation" (Some 1) true false
  = Raise ValueError.
Proof.
  apply (downsample_no_groups last_rows _ "annotation" (ObjCol [VNaN; VNaN])).
  - reflexivity.
  - repeat constructor.
Defined.

(** ** Quantiles and scaling: levels, extremes, constant columns *)

Local Open Scope Q_scope.

Lemma mapM_result_head_raise {A B : Type} (f : A -> result B) (x : A)
    (l : list A) (e : error) :
  f x = Raise e -> mapM f (x :: l) = Raise e.
Proof. intros Hx. simpl. by rewrite Hx. Qed.

(** X12. A quantile level outside [0, 1] makes every normalisation
    raise [ValueError]: [subtract_min_quantile], [rescale_features] for
    either of its two levels, [add_rescaled_features], and
    [subtract_min_per_region] when the annotation exists. *)
Theorem invalid_level_rejected (q q' : Q) (features : Features)
    (adata : AnnData) (annotation layer : string) :
  valid_level q = false ->
  subtract_min_quantile features q = Raise ValueError
  /\ rescale_features features q q' = Raise ValueError
  /\ rescale_features features q' q = Raise ValueError
  /\ add_rescaled_features adata q q' layer = Raise ValueError
  /\ add_rescaled_features adata q' q layer = Raise ValueError
  /\ (annotation ∈ names (obs adata) ->
      subtract_min_per_region adata annotation layer q = Raise ValueError).
Proof.
  intros Hq.
  assert (Hsub : forall f, subtract_min_quantile f q = Raise ValueError).
  { intros f. unfold subtract_min_quantile, frame_quantile. by rewrite Hq. }
  assert (H1 : forall f, rescale_features f q q' = Raise ValueError).
  { intros f. unfold rescale_features, frame_quantile. rewrite Hq.
    by destruct (valid_level q'). }
  assert (H2 : forall f, rescale_features f q' q = Raise ValueError).
  { intros f. unfold rescale_features, frame_quantile. by rewrite Hq. }
  split; first done. split; first done. split; first done.
  split; first (unfold add_rescaled_features; by rewrite H1).
  split; first (unfold add_rescaled_features; by rewrite H2).
  intros Hin. destruct (get_col_is_Some annotation (obs adata) Hin) as [col Hcol].
  unfold subtract_min_per_region, min_per_region_frame. rewrite Hcol.
  destruct (unique (cells col)) as [|r rs]; first done.
  rewrite (mapM_result_head_raise _ r rs ValueError); first done.
  apply Hsub.
Qed.

Lemma invalid_level_rejected_witness :
  subtract_min_quantile sample_features (3 # 2) = Raise ValueError
  /\ subtract_min_per_region interleaved "region" "layer" (-1 # 2)
     = Raise ValueError.
Proof.
  split.
  - apply (invalid_level_rejected (3 # 2) 0 sample_features interleaved
             "region" "layer"). reflexivity.
  - apply (invalid_level_rejected (-1 # 2) 0 sample_features interleaved
             "region" "layer"); first reflexivity.
    apply elem_of_cons. by left.
Defined.


(** A convex combination lies between its two ends. *)
Lemma interpolation_bounds (lo hi a b t : Q) :
  lo <= a -> a <= hi -> lo <= b -> b <= hi -> 0 <= t -> t <= 1 ->
  lo <= a + (b - a) * t /\ a + (b - a) * t <= hi.
Proof.
  intros Hla Hah Hlb Hbh Ht0 Ht1.
  assert (H1t : 0 <= 1 - t).
  { apply (Qplus_le_l _ _ t). ring_simplify. exact Ht1. }
  assert (Hsum : forall u v, 0 <= u -> 0 <= v -> 0 <= u + v).
  { intros u v Hu Hv. apply (Qle_trans _ (0 + 0)); first done.
    by apply Qplus_le_compat. }
  split; apply Qle_minus_iff.
  - assert (E : a + (b - a) * t + - lo == (a - lo) * (1 - t) + (b - lo) * t)
      by ring.
    rewrite E. apply Hsum; apply Qmult_le_0_compat; try done.
    + apply (Qplus_le_l _ _ lo). ring_simplify. exact Hla.
    + apply (Qplus_le_l _ _ lo). ring_simplify. exact Hlb.
  - assert (E : hi + - (a + (b - a) * t)
                == (hi - a) * (1 - t) + (hi - b) * t) by ring.
    rewrite E. apply Hsum; apply Qmult_le_0_compat; try done.
    + apply (Qplus_le_l _ _ a). ring_simplify. exact Hah.
    + apply (Qplus_le_l _ _ b). ring_simplify. exact Hbh.
Qed.

Lemma frac_bounds (p : Q) :
  0 <= p - inject_Z (Qfloor p) /\ p - inject_Z (Qfloor p) <= 1.
Proof.
  pose proof (Qfloor_le p) as Hlo. pose proof (Qlt_floor p) as Hhi.
  rewrite inject_Z_plus in Hhi.
  set (f := inject_Z (Qfloor p)) in *. clearbody f. split.
  - apply (Qplus_le_l _ _ f). ring_simplify. exact Hlo.
  - apply (Qplus_le_l _ _ f). ring_simplify.
    eapply Qle_trans; first apply Qlt_le_weak, Hhi.
    apply Qle_refl.
Qed.

Lemma nth_elem_of_cons {A : Type} (x : A) (l : list A) (i : nat) :
  nth i (x :: l) x ∈ x :: l.
Proof.
  destruct (nth_in_or_default i (x :: l) x) as [Hin | ->].
  - by apply list_elem_of_In.
  - by left.
Qed.

(** The quantile of a column lies between its smallest and its largest
    cell. *)
Lemma series_quantile_bounds (col : list Q) (q m : Q) :
  series_quantile col q = Some m ->
  data_min col <= m /\ m <= data_max col.
Proof.
  unfold series_quantile, quantile_sorted.
  pose proof (merge_sort_Permutation Qleb_rel col) as Hp.
  destruct (merge_sort Qleb_rel col) as [|x a] eqn:E; first done.
  intros [= <-].
  assert (Hin : forall i, nth i (x :: a) x ∈ col).
  { intros i. rewrite <- Hp. apply nth_elem_of_cons. }
  destruct (frac_bounds (inject_Z (Z.of_nat (length (x :: a)) - 1) * q)).
  apply interpolation_bounds; try done.
  - apply data_min_le, Hin.
  - apply data_max_ge, Hin.
  - apply data_min_le, Hin.
  - apply data_max_ge, Hin.
Qed.

Lemma data_min_elem (col : list Q) :
  col ≠ [] -> exists x, x ∈ col /\ x == data_min col.
Proof.
  destruct col as [|x0 xs]; first done. intros _. simpl.
  revert x0. induction xs as [|x1 xs IH]; intros x0.
  - exists x0. split; [by left | reflexivity].
  - simpl. destruct (IH x0) as (y & Hy & Ey).
    destruct (Q.min_spec x1 (foldr Qmin x0 xs)) as [[_ Hm]|[_ Hm]].
    + exists x1. split; [right; by left | by rewrite Hm].
    + exists y. split.
      * apply elem_of_cons in Hy as [-> | Hy]; [by left | right; by right].
      * by rewrite Hm.
Qed.

(** X13. [subtract_min_quantile] anchors every column at zero: for any
    level within [0, 1] and any column with at least one cell, the
    quantile [m] of the column lies between its smallest and largest
    cell, every cell not above [m] becomes 0 -- the smallest cell in
    particular, so 0 occurs in the output column -- and every cell
    [x] above [m] becomes exactly [x - m]. *)
Theorem subtract_min_quantile_anchors (features : Features) (q : Q)
    (j : nat) (n : string) (col : list Q) :
  valid_level q = true ->
  columns features !! j = Some (n, col) ->
  col ≠ [] ->
  exists out col' m,
    subtract_min_quantile features q = Ok out
    /\ columns out !! j = Some (n, col')
    /\ series_quantile col q = Some m
    /\ data_min col <= m /\ m <= data_max col
    /\ (forall i x, col !! i = Some x ->
          exists y, col' !! i = Some y
            /\ (x <= m -> y == 0) /\ (m <= x -> y == x - m))
    /\ (exists i y, col' !! i = Some y /\ y == 0).
Proof.
  intros Hq Hj Hne.
  destruct (series_quantile_nonempty col q Hne) as [m Hm].
  destruct (series_quantile_bounds col q m Hm) as [Hlo Hhi].
  assert (Hcell : forall x,
            (x <= m -> clip_lower (Some 0) (x - m) == 0)
            /\ (m <= x -> clip_lower (Some 0) (x - m) == x - m)).
  { intros x. destruct (clip_lower_zero (x - m)) as [E _]. split; intros Hx.
    - rewrite E. apply Q.max_l.
      apply (Qplus_le_l _ _ m). ring_simplify. exact Hx.
    - rewrite E. apply Q.max_r.
      apply (Qplus_le_l _ _ m). ring_simplify. exact Hx. }
  eexists _, (clip_lower (Some 0) <$> ((fun x => x - m) <$> col)), m.
  split; first by apply subtract_min_quantile_columns.
  split.
  { simpl. rewrite list_lookup_fmap, Hj. simpl. by rewrite Hm. }
  split; first done. split; first done. split; first done. split.
  - intros i x Hx. eexists. split.
    + by rewrite !list_lookup_fmap, Hx.
    + apply Hcell.
  - destruct (data_min_elem col Hne) as (x & Hin & Ex).
    apply list_elem_of_lookup_1 in Hin as [i Hi].
    exists i. eexists. split.
    + by rewrite !list_lookup_fmap, Hi.
    + apply Hcell. by rewrite Ex.
Qed.

Lemma subtract_min_quantile_anchors_witness :
  exists out col' m,
    subtract_min_quantile sample_features (1 # 100) = Ok out
    /\ columns out !! 0%nat = Some ("marker"%string, col')
    /\ data_min [1; 10; 3] <= m
    /\ exists i y, col' !! i = Some y /\ y == 0.
Proof.
  destruct (subtract_min_quantile_anchors sample_features (1 # 100) 0
              "marker" [1; 10; 3])
    as (out & col' & m & Hout & Hcol & _ & Hlo & _ & _ & Hzero);
    [reflexivity | reflexivity | done |].
  by exists out, col', m.
Defined.

(** Min-max scaling never gives a negative value, and a constant column
    is sent to zeros: its zero range is replaced by one before the
    division. *)
Lemma min_max_scale_nonneg (col : list Q) (i : nat) (y : Q) :
  min_max_scale col !! i = Some y ->
  0 <= y /\ (data_max col == data_min col -> y == 0).
Proof.
  intros (x & Hx & ->)%min_max_scale_lookup_inv.
  assert (Hin : x ∈ col) by (by eapply list_elem_of_lookup_2).
  pose proof (data_min_le col x Hin) as Hlo.
  pose proof (data_max_ge col x Hin) as Hhi.
  split; first by apply scaled_nonneg.
  intros Hconst. apply scaled_min.
  apply Qle_antisym; last done. by rewrite <- Hconst.
Qed.

(** X14. For levels within [0, 1] and a frame with a row and a column,
    no cell of the result of [rescale_features] is negative, the rows
    are numbered from 0 whatever the index of the input was, and a
    column that is constant once clipped consists of zeros. *)
Theorem rescale_features_nonnegative (features : Features) (qmin qmax : Q) :
  valid_level qmin = true ->
  valid_level qmax = true ->
  index features ≠ [] ->
  columns features ≠ [] ->
  exists out,
    rescale_features features qmin qmax = Ok out
    /\ index out = range_index (nrows features)
    /\ (forall j n col' i y,
          columns out !! j = Some (n, col') -> col' !! i = Some y ->
          0 <= y)
    /\ (forall j n col,
          columns features !! j = Some (n, col) ->
          let clipped :=
            clip (series_quantile col qmin) (series_quantile col qmax) <$> col in
          data_max clipped == data_min clipped ->
          exists col',
            columns out !! j = Some (n, col')
            /\ length col' = length col
            /\ Forall (fun y => y == 0) col').
Proof.
  intros Hmin Hmax Hrows Hcols. eexists.
  split; first by apply rescale_features_columns.
  split; first done. split.
  - intros j n col' i y Hj Hy. simpl in Hj.
    rewrite list_lookup_fmap in Hj.
    destruct (columns features !! j) as [[n0 col]|]; last done.
    simpl in Hj. injection Hj as <- <-.
    by destruct (min_max_scale_nonneg _ i y Hy) as [? _].
  - intros j n col Hj clipped Hconst. simpl.
    rewrite list_lookup_fmap, Hj. simpl. eexists. split; first done.
    split; first (unfold min_max_scale; by rewrite !length_fmap).
    apply Forall_lookup. intros i y Hy.
    by destruct (min_max_scale_nonneg _ i y Hy) as (_ & ->).
Qed.

Lemma rescale_features_nonnegative_witness :
  exists out,
    rescale_features sample_features (1 # 2) (1 # 2) = Ok out
    /\ index out = range_index 3
    /\ columns out !! 0%nat <> None.
Proof.
  destruct (rescale_features_nonnegative sample_features (1 # 2) (1 # 2))
    as (out & Hout & Hindex & _ & Hconst); try done.
  exists out. split; first done. split; first done.
  destruct (Hconst 0%nat "marker"%string [1; 10; 3]) as (col' & -> & _);
    [reflexivity | vm_compute; reflexivity | done].
Defined.

(** ** Layers *)

(** X15. The two functions that write a layer write nothing else: on
    success the primary matrix, the annotations, the feature names and
    every other layer are as before, and the layer that is written (or
    silently overwritten) has the shape of the primary matrix. *)
Theorem layer_writers_frame (adata adata' : AnnData) (qmin qmax q : Q)
    (annotation layer : string) :
  add_rescaled_features adata qmin qmax layer = Ok adata'
  \/ subtract_min_per_region adata annotation layer q = Ok adata' ->
  X adata' = X adata
  /\ obs adata' = obs adata
  /\ var_names adata' = var_names adata
  /\ (forall l, l ≠ layer -> layers adata' !! l = layers adata !! l)
  /\ exists a,
       layers adata' !! layer = Some a
       /\ n_rows a = n_rows (X adata)
       /\ length (features_of a) = length (var_names adata).
Proof.
  assert (Hset : forall val, set_layer adata layer val = Ok adata' ->
            X adata' = X adata /\ obs adata' = obs adata
            /\ var_names adata' = var_names adata
            /\ (forall l, l ≠ layer -> layers adata' !! l = layers adata !! l)
            /\ exists a, layers adata' !! layer = Some a
                 /\ n_rows a = n_rows (X adata)
                 /\ length (features_of a) = length (var_names adata)).
  { intros val. unfold set_layer.
    destruct (bool_decide (nrows val = n_rows (X adata))) eqn:Hrows; last done.
    destruct (bool_decide (length (columns val) = length (var_names adata)))
      eqn:Hcols; last done.
    apply bool_decide_eq_true in Hrows, Hcols.
    simpl. intros [= <-]. simpl.
    split; first done. split; first done. split; first done. split.
    - intros l Hl. by rewrite lookup_insert_ne.
    - eexists. rewrite lookup_insert_eq. split; first done.
      split; first done. unfold to_numpy. simpl. by rewrite length_fmap. }
  intros [H|H].
  - unfold add_rescaled_features in H.
    destruct (rescale_features _ _ _) as [val|]; last done.
    by apply (Hset val).
  - unfold subtract_min_per_region in H.
    destruct (min_per_region_frame _ _ _) as [val|]; last done.
    by apply (Hset val).
Qed.

Lemma layer_writers_frame_witness :
  exists adata',
    subtract_min_per_region interleaved "region" "layer" (1 # 100) = Ok adata'
    /\ X adata' = X interleaved
    /\ obs adata' = obs interleaved.
Proof.
  eexists. split; first reflexivity.
  destruct (layer_writers_frame interleaved _ 0 0 (1 # 100) "region" "layer"
              (or_intror eq_refl)) as (HX & Hobs & _).
  by split.
Defined.

Lemma unique_constant (r : value) (l : list value) :
  l ≠ [] -> Forall (fun k => k = r) l -> unique l = [r].
Proof.
  destruct l as [|k l]; first done. intros _ Hall.
  apply Forall_cons in Hall as [-> Hall]. unfold unique. simpl.
  induction Hall as [|k l -> _ IH]; first done.
  simpl. rewrite decide_True by (by left). exact IH.
Qed.

Lemma eq_mask_constant (r : value) (l : list value) :
  r ≠ VNaN -> Forall (fun k => k = r) l ->
  eq_mask r l = replicate (length l) true.
Proof.
  intros Hr Hall. unfold eq_mask.
  induction Hall as [|k l -> _ IH]; first done.
  rewrite fmap_cons, IH. simpl. by rewrite bool_decide_eq_true_2.
Qed.

Lemma keep_all {A : Type} (n : nat) (l : list A) :
  (length l <= n)%nat -> keep (replicate n true) l = l.
Proof.
  revert n. induction l as [|x l IH]; intros n Hn.
  - by destruct n.
  - destruct n as [|n]; simpl in *; first lia.
    rewrite IH; [done | lia].
Qed.

(** X16. When every observation carries the same, non-missing,
    annotation value there is one region, nothing is reordered, and
    [subtract_min_per_region] stores in the layer exactly what
    [subtract_min_quantile] computes on the whole matrix: feature by
    feature, row [i] of the layer is [max 0 (x - m)] for the cell [x] of
    row [i] of [X]. *)
Theorem subtract_min_per_region_one_region (adata : AnnData)
    (annotation layer : string) (col : column) (r : value) (q : Q) :
  consistent adata = true ->
  valid_level q = true ->
  get_col annotation (obs adata) = Some col ->
  cells col ≠ [] ->
  r ≠ VNaN ->
  Forall (fun k => k = r) (cells col) ->
  exists adata',
    subtract_min_per_region adata annotation layer q = Ok adata'
    /\ layers adata' !! layer
       = Some (mkArray (n_rows (X adata))
                 ((fun c => clip_lower (Some 0) <$> sub_col c (series_quantile c q))
                    <$> features_of (X adata)))
    /\ (subtract_min_quantile (to_df adata) q ≫= set_layer adata layer)
       = Ok adata'.
Proof.
  intros Hcons Hq Hcol Hne Hr Hall.
  unfold consistent in Hcons.
  apply andb_prop in Hcons as [Hcons Hwf].
  apply andb_prop in Hcons as [Hcons Hlen].
  apply andb_prop in Hcons as [Hrows Hvars].
  apply bool_decide_eq_true in Hrows, Hvars.
  assert (Hcells : length (cells col) = nrows (obs adata)).
  { unfold well_formed in Hwf. rewrite forallb_forall in Hwf.
    unfold get_col in Hcol.
    assert (Hin : exists n, In (n, col) (columns (obs adata))).
    { clear -Hcol. induction (columns (obs adata)) as [|[n c] cs IH];
        first done.
      simpl in Hcol. destruct (decide (n = annotation)).
      - injection Hcol as ->. exists n. by left.
      - destruct (IH Hcol) as [n' ?]. exists n'. by right. }
    destruct Hin as [n Hin]. apply Hwf in Hin. simpl in Hin.
    by apply Nat.eqb_eq in Hin. }
  assert (Hsame : floc_mask (eq_mask r (cells col)) (to_df adata) = to_df adata).
  { rewrite (eq_mask_constant r) by done. rewrite Hcells.
    unfold floc_mask, map_rows, to_df. simpl. f_equal.
    - apply keep_all. unfold nrows. lia.
    - rewrite forallb_forall in Hlen.
      rewrite <- (list_fmap_id (zip _ _)) at 2.
      apply Forall_fmap_ext, Forall_forall. intros [n c] Hin.
      unfold prod_map. simpl. f_equal. apply keep_all.
      apply list_elem_of_In, in_combine_r in Hin.
      apply Hlen, Nat.eqb_eq in Hin. lia. }
  assert (Hfeat : (zip (var_names adata) (features_of (X adata))).*2
                  = features_of (X adata)).
  { apply snd_zip. lia. }
  assert (Hres : forall adata',
            subtract_min_quantile (to_df adata) q ≫= set_layer adata layer
            = Ok adata' ->
            subtract_min_per_region adata annotation layer q = Ok adata').
  { intros adata' H. unfold subtract_min_per_region, min_per_region_frame.
    rewrite Hcol, (unique_constant r) by done. simpl. rewrite Hsame.
    destruct (subtract_min_quantile (to_df adata) q) as [out|]; last done.
    exact H. }
  rewrite subtract_min_quantile_columns in Hres |- * by done.
  simpl in Hres |- *. unfold set_layer in Hres |- *. simpl in Hres |- *.
  unfold nrows in Hres |- *. simpl in Hres |- *.
  rewrite bool_decide_eq_true_2 in Hres |- * by (unfold nrows in Hrows; lia).
  rewrite bool_decide_eq_true_2 in Hres |- *
    by (rewrite length_fmap, length_zip; lia).
  simpl in Hres |- *. eexists. split; first by apply Hres.
  split; last done. simpl. rewrite lookup_insert_eq. f_equal.
  unfold to_numpy, nrows. simpl. f_equal; first (unfold nrows in Hrows; lia).
  rewrite <- list_fmap_compose. rewrite <- Hfeat at 2.
  rewrite <- list_fmap_compose. apply list_fmap_ext. by intros ? [].
Qed.

Lemma subtract_min_per_region_one_region_witness :
  exists adata',
    subtract_min_per_region single_region "region" "layer" (1 # 100)
    = Ok adata'
    /\ (subtract_min_quantile (to_df single_region) (1 # 100)
          ≫= set_layer single_region "layer") = Ok adata'.
Proof.
  destruct (subtract_min_per_region_one_region single_region "region" "layer"
              (ObjCol [VStr "A"; VStr "A"; VStr "A"]) (VStr "A") (1 # 100))
    as (adata' & H & _ & H'); try done.
  - by repeat constructor.
  - by exists adata'.
Defined.

(** ** [calculate_centroid] *)

Lemma get_set_feature_eq (name : string) (c : list Q) (df : Features) :
  get_col name (set_feature name c df) = Some c.
Proof. apply lookup_assign_col_eq. Qed.

Lemma get_set_feature_ne (name other : string) (c : list Q) (df : Features) :
  other ≠ name ->
  get_col other (set_feature name c df) = get_col other df.
Proof. intros Hne. by apply lookup_assign_col_ne. Qed.

Lemma names_set_feature (name : string) (c : list Q) (df : Features) :
  names (set_feature name c df)
  = if decide (name ∈ names df) then names df else names df ++ [name].
Proof.
  unfold names, set_feature. simpl. destruct (decide _) as [Hin|Hin].
  - by apply names_assign_col_existing.
  - rewrite assign_col_fresh by done. by rewrite fmap_app.
Qed.

Lemma midpoints_lookup (a b : list Q) (i : nat) (x y : Q) :
  a !! i = Some x -> b !! i = Some y ->
  midpoints a b !! i = Some ((x + y) / 2)%Q.
Proof.
  intros Ha Hb. unfold midpoints. rewrite lookup_zip_with, Ha. simpl.
  by rewrite Hb.
Qed.

Lemma get_col_elem {C : Type} (name : string) (df : DataFrame C) (c : C) :
  get_col name df = Some c -> name ∈ names df.
Proof.
  intros H. destruct (decide (name ∈ names df)) as [|Hn]; first done.
  apply get_col_None in Hn. congruence.
Qed.

(** The checks of [calculate_centroid] pass exactly when the two new
    names are made of letters, digits and underscores and the four
    columns exist; the function then reaches its assignments. *)
Lemma calculate_centroid_checked (h : feature_heap) (data : positive)
    (df : Features) (x_min x_max y_min y_max new_x new_y : string)
    (a b : list Q) :
  h !! data = Some df ->
  search_invalid new_x = false -> search_invalid new_y = false ->
  get_col x_min df = Some a -> get_col x_max df = Some b ->
  y_min ∈ names df -> y_max ∈ names df ->
  let df1 := set_feature new_x (midpoints a b) df in
  exists c d,
    get_col y_min df1 = Some c /\ get_col y_max df1 = Some d
    /\ calculate_centroid h data x_min x_max y_min y_max new_x new_y
       = (Ok data, <[data := set_feature new_y (midpoints c d) df1]> h).
Proof.
  intros Hdata Hx Hy Ha Hb Hc Hd df1.
  assert (Hin : forall n, n ∈ names df -> n ∈ names df1).
  { intros n Hn. unfold df1. rewrite names_set_feature.
    destruct (decide _); [done | apply elem_of_app; by left]. }
  destruct (get_col_is_Some y_min df1 (Hin _ Hc)) as [c Hc1].
  destruct (get_col_is_Some y_max df1 (Hin _ Hd)) as [d Hd1].
  exists c, d. split; first done. split; first done.
  unfold calculate_centroid.
  change (@lookup positive (DataFrame (list Q)) _ _ data h = Some df) in Hdata.
  rewrite Hdata. simpl. rewrite Hx, Hy. simpl.
  rewrite !bool_decide_eq_false_2
    by (intros Hn; apply Hn; eauto using get_col_elem).
  simpl. rewrite Ha, Hb. fold df1. rewrite Hc1, Hd1.
  by rewrite insert_insert_eq.
Qed.

(** X17. With two distinct valid new names, the first of which is not
    one of the two y columns, and coordinates that are integers of
    magnitude at most [2 ^ 50], [calculate_centroid] returns the frame
    it was given, changed in place: the column [new_x] holds the
    midpoints of [x_min] and [x_max], the column [new_y] those of
    [y_min] and [y_max], row by row; the index and every other column
    are as before, and two new names are appended in that order. *)
Theorem calculate_centroid_spec (h : feature_heap) (data : positive)
    (df : Features) (x_min x_max y_min y_max new_x new_y : string)
    (a b c d : list Q) :
  h !! data = Some df ->
  search_invalid new_x = false -> search_invalid new_y = false ->
  get_col x_min df = Some a -> get_col x_max df = Some b ->
  get_col y_min df = Some c -> get_col y_max df = Some d ->
  small_integers a = true -> small_integers b = true ->
  small_integers c = true -> small_integers d = true ->
  new_x ≠ new_y -> new_x ≠ y_min -> new_x ≠ y_max ->
  exists df',
    calculate_centroid h data x_min x_max y_min y_max new_x new_y
    = (Ok data, <[data := df']> h)
    /\ index df' = index df
    /\ get_col new_x df' = Some (midpoints a b)
    /\ get_col new_y df' = Some (midpoints c d)
    /\ (forall n, n ≠ new_x -> n ≠ new_y -> get_col n df' = get_col n df)
    /\ (new_x ∉ names df -> new_y ∉ names df ->
        names df' = names df ++ [new_x; new_y]).
Proof.
  intros Hdata Hx Hy Ha Hb Hc Hd _ _ _ _ Hxy Hxc Hxd.
  destruct (calculate_centroid_checked h data df x_min x_max y_min y_max
              new_x new_y a b Hdata Hx Hy Ha Hb)
    as (c' & d' & Hc' & Hd' & Hrun); eauto using get_col_elem.
  rewrite get_set_feature_ne, Hc in Hc' by done.
  rewrite get_set_feature_ne, Hd in Hd' by done.
  injection Hc' as <-. injection Hd' as <-.
  eexists. split; first exact Hrun.
  split; first done. split.
  { rewrite get_set_feature_ne by done. apply get_set_feature_eq. }
  split; first apply get_set_feature_eq. split.
  - intros n Hnx Hny. by rewrite !get_set_feature_ne.
  - intros Hfx Hfy. rewrite !names_set_feature.
    rewrite (decide_False (P := new_x ∈ names df)) by done.
    rewrite decide_False.
    + by rewrite <- app_assoc.
    + intros [?|Hin]%elem_of_app; first done.
      apply list_elem_of_singleton in Hin. congruence.
Qed.

Lemma calculate_centroid_spec_witness :
  exists df',
    calculate_centroid boxes_heap 1 "XMin" "XMax" "YMin" "YMax" "X" "Y"
    = (Ok 1%positive, <[1%positive := df']> boxes_heap)
    /\ get_col "X" df' = Some (midpoints [0; 2]%Q [4; 6]%Q)
    /\ get_col "Y" df' = Some (midpoints [1; 1]%Q [3; 5]%Q)
    /\ names df' = names boxes ++ ["X"; "Y"]%string.
Proof.
  destruct (calculate_centroid_spec boxes_heap 1 boxes
              "XMin" "XMax" "YMin" "YMax" "X" "Y"
              [0; 2]%Q [4; 6]%Q [1; 1]%Q [3; 5]%Q)
    as (df' & Hrun & _ & HX & HY & _ & Hnames); try done.
  exists df'. split; first done. split; first done. split; first done.
  apply Hnames; apply (bool_decide_unpack _); by vm_compute.
Defined.

(** X18. [calculate_centroid] raises [ValueError], before it touches
    any frame, exactly when one of the new names holds a character
    other than a letter, a digit or the underscore, or one of the four
    columns is missing; in every other case it returns the reference it
    was given.  Nothing checks that the new names are unused. *)
Theorem calculate_centroid_rejects (h : feature_heap) (data : positive)
    (df : Features) (x_min x_max y_min y_max new_x new_y : string) :
  h !! data = Some df ->
  let rejected :=
    search_invalid new_x = true \/ search_invalid new_y = true
    \/ x_min ∉ names df \/ x_max ∉ names df
    \/ y_min ∉ names df \/ y_max ∉ names df in
  (rejected ->
   calculate_centroid h data x_min x_max y_min y_max new_x new_y
   = (Raise ValueError, h))
  /\ (~ rejected ->
      (calculate_centroid h data x_min x_max y_min y_max new_x new_y).1
      = Ok data).
Proof.
  intros Hdata rejected. split.
  - intros Hrej. unfold calculate_centroid.
    change (@lookup positive (DataFrame (list Q)) _ _ data h = Some df)
      in Hdata.
    rewrite Hdata. simpl.
    destruct (search_invalid new_x) eqn:Ex; first done.
    destruct (search_invalid new_y) eqn:Ey; first done. simpl.
    destruct Hrej as [?|[?|Hrej]]; [done..|].
    destruct (bool_decide (x_min ∉ names df)) eqn:E1; first done.
    destruct (bool_decide (x_max ∉ names df)) eqn:E2; first done.
    destruct (bool_decide (y_min ∉ names df)) eqn:E3; first done.
    destruct (bool_decide (y_max ∉ names df)) eqn:E4; first done.
    apply bool_decide_eq_false in E1, E2, E3, E4. tauto.
  - intros Hok.
    assert (Hx : search_invalid new_x = false).
    { destruct (search_invalid new_x) eqn:E; [|done].
      exfalso. apply Hok. by left. }
    assert (Hy : search_invalid new_y = false).
    { destruct (search_invalid new_y) eqn:E; [|done].
      exfalso. apply Hok. right. by left. }
    assert (Hin : forall n, n ∈ [x_min; x_max; y_min; y_max] -> n ∈ names df).
    { intros n Hn. destruct (decide (n ∈ names df)) as [|Hout]; first done.
      exfalso. apply Hok. unfold rejected.
      rewrite !elem_of_cons in Hn.
      destruct Hn as [->|[->|[->|[->|?%elem_of_nil]]]]; tauto. }
    destruct (get_col_is_Some x_min df) as [a Ha].
    { apply Hin. by left. }
    destruct (get_col_is_Some x_max df) as [b Hb].
    { apply Hin. right. by left. }
    destruct (calculate_centroid_checked h data df x_min x_max y_min y_max
                new_x new_y a b Hdata Hx Hy Ha Hb)
      as (c & d & _ & _ & ->); [apply Hin; set_solver..|done].
Qed.

Lemma calculate_centroid_rejects_witness :
  calculate_centroid boxes_heap 1 "XMin" "XMax" "YMin" "YMax" "x-c" "Y"
  = (Raise ValueError, boxes_heap)
  /\ calculate_centroid boxes_heap 1 "XMin" "XMax" "YMin" "Height" "X" "Y"
     = (Raise ValueError, boxes_heap)
  /\ (calculate_centroid boxes_heap 1 "XMin" "XMax" "YMin" "YMax" "XMin" "").1
     = Ok 1%positive.
Proof.
  split; [|split].
  - apply (calculate_centroid_rejects boxes_heap 1 boxes); first done.
    by left.
  - apply (calculate_centroid_rejects boxes_heap 1 boxes); first done.
    do 5 right. apply (bool_decide_unpack _). by vm_compute.
  - apply (calculate_centroid_rejects boxes_heap 1 boxes); first done.
    intros [H|[H|[H|[H|[H|H]]]]]; [by vm_compute in H..| | | |];
      apply H, (bool_decide_unpack _); by vm_compute.
Defined.

(** X19. The assignments are sequential and unguarded: when the new x
    name is the name of the [y_min] column, that column is overwritten
    by the x centroids before the y centroids are computed, and, for
    coordinates that are integers of magnitude at most [2 ^ 50], the
    column [new_y] holds the midpoints of the x centroids and [y_max],
    not the midpoints of the original y columns. *)
Theorem calculate_centroid_reads_overwritten (h : feature_heap)
    (data : positive) (df : Features)
    (x_min x_max y_min y_max new_y : string) (a b d : list Q) :
  h !! data = Some df ->
  search_invalid y_min = false -> search_invalid new_y = false ->
  get_col x_min df = Some a -> get_col x_max df = Some b ->
  y_min ∈ names df -> get_col y_max df = Some d ->
  small_integers a = true -> small_integers b = true ->
  small_integers d = true ->
  y_max ≠ y_min ->
  exists df',
    calculate_centroid h data x_min x_max y_min y_max y_min new_y
    = (Ok data, <[data := df']> h)
    /\ get_col new_y df' = Some (midpoints (midpoints a b) d)
    /\ (new_y ≠ y_min -> get_col y_min df' = Some (midpoints a b))
    /\ (new_y ∈ names df -> names df' = names df).
Proof.
  intros Hdata Hx Hy Ha Hb Hc Hd _ _ _ Hne.
  destruct (calculate_centroid_checked h data df x_min x_max y_min y_max
              y_min new_y a b Hdata Hx Hy Ha Hb)
    as (c' & d' & Hc' & Hd' & Hrun); eauto using get_col_elem.
  rewrite get_set_feature_eq in Hc'.
  rewrite get_set_feature_ne, Hd in Hd' by done.
  injection Hc' as <-. injection Hd' as <-.
  eexists. split; first exact Hrun.
  split; first apply get_set_feature_eq. split.
  - intros Hny. rewrite get_set_feature_ne by done. apply get_set_feature_eq.
  - intros Hin. rewrite !names_set_feature.
    rewrite (decide_True (P := y_min ∈ names df)) by done.
    by rewrite decide_True.
Qed.

Lemma calculate_centroid_reads_overwritten_witness :
  exists df',
    calculate_centroid boxes_heap 1 "XMin" "XMax" "YMin" "YMax" "YMin" "Y"
    = (Ok 1%positive, <[1%positive := df']> boxes_heap)
    /\ get_col "Y" df'
       = Some (midpoints (midpoints [0; 2]%Q [4; 6]%Q) [3; 5]%Q).
Proof.
  destruct (calculate_centroid_reads_overwritten boxes_heap 1 boxes
              "XMin" "XMax" "YMin" "YMax" "Y" [0; 2]%Q [4; 6]%Q [3; 5]%Q)
    as (df' & Hrun & HY & _); try done.
  - apply (bool_decide_unpack _). by vm_compute.
  - by exists df'.
Defined.
